(** * POC-Audio-Server: rendezvous broker and key-rotating media transport

    A shallow embedding of the Python sources into Rocq, and the properties
    of the specification settled on it.

    Part I is the embedding, in the order of the sources:

    - the Python values the code handles, exceptions and state;
    - the libraries the code calls ([bitarray], [hashlib.sha256],
      [Crypto.Cipher.AES] in CBC mode, [Crypto.Util.Padding]);
    - [src/client/utils/encryption.py]: the XOR, Debug and AES-CBC codecs
      and the debug key generator;
    - [src/server/utils/user_manager.py]: the dictionary storage and the
      user manager;
    - [src/server/video_chat_server.py]: the signaling channel class
      [SocketAPI], the broker [VideoChatServer] and the HTTP handler
      [ServerAPI.create_user];
    - [src/frontend/src/middleware/client/namespaces/av_controller.py] and
      [audio_namespace.py], [src/server/utils/namespaces/video_namespace.py]:
      the key-generation loop and the media receive handlers.

    Part II holds the test vectors and the theorems on the claims of the
    specification.  Part III holds further properties of the code: of the
    other methods of the codecs and of the key generators, of the user
    storage and manager, of the two server APIs and the builder, of
    [Endpoint] ([src/frontend/src/middleware/refactored/utils.py]) and of
    the framing of video messages.

    Conventions.  A Python [bytes] value is a [list Z] of numbers in
    [0, 256); a [bitarray] is a [list bool] (big-endian bit order, the
    library's default); a Python [str] is a Rocq [string] holding its UTF-8
    encoding, so that [str.encode()] is the list of its bytes.  A Python call
    that may raise returns [result A = exn + A]; code that also assigns
    object or class attributes runs in the state-and-exception monad [M].
    Calls to loggers and [print] are left out. *)

From Stdlib Require Import ZArith List Bool Ascii String Lia Btauto.
From stdpp Require Import base option list gmap strings pretty.
Import ListNotations.

Local Open Scope Z_scope.

(** * Part I: the embedding *)

(** ** Python exceptions and results *)

(** The exception classes the modelled code raises or lets escape.  The
    first six are Python's own or a library's, the others are declared by
    the repository ([utils], [exceptions], [user_manager]).
    [InvalidCiphertext], last, is named by the specification's error
    taxonomy only: no source file declares or raises it. *)
Inductive exn : Type :=
  | ValueError
  | TypeError
  | IndexError
  | AttributeError
  | NameError
  | ConnectionError
  | ParameterError
  | InvalidParameter
  | BadAuthentication
  | BadRequest
  | BadGateway
  | ServerError
  | InvalidState
  | DuplicateUser
  | UserNotFound
  | InvalidCiphertext.

#[global] Instance exn_eq_dec : EqDecision exn.
Proof. solve_decision. Defined.

Definition result (A : Type) : Type := (exn + A)%type.

Definition ret {A} (a : A) : result A := inr a.
Definition raise {A} (e : exn) : result A := inl e.

Definition rbind {A B} (r : result A) (k : A -> result B) : result B :=
  match r with
  | inl e => inl e
  | inr a => k a
  end.

Declare Scope py_scope.
Delimit Scope py_scope with py.
Notation "'let!' x ':=' r 'in' k" := (rbind r (fun x => k))
  (at level 10, x name, r at level 200, k at level 200,
   format "'[v' 'let!'  x  ':='  r  'in'  '/' k ']'") : py_scope.
Open Scope py_scope.

(** ** State and exceptions

    A method that assigns attributes and may raise maps the state before
    the call to its outcome and the state after it; what was assigned
    before an exception is raised stays assigned. *)

Definition M (W A : Type) : Type := W -> result A * W.

Definition st_ret {W A} (a : A) : M W A := fun w => (ret a, w).
Definition st_raise {W A} (e : exn) : M W A := fun w => (raise e, w).
Definition st_bind {W A B} (m : M W A) (k : A -> M W B) : M W B :=
  fun w => match m w with
           | (inl e, w') => (inl e, w')
           | (inr a, w') => k a w'
           end.
Definition st_lift {W A} (r : result A) : M W A := fun w => (r, w).
Definition st_get {W} : M W W := fun w => (ret w, w).
Definition st_put {W} (w : W) : M W unit := fun _ => (ret tt, w).

(** [try: m  except <class> as e: h e] *)
Definition st_catch {W A} (m : M W A) (h : exn -> M W A) : M W A :=
  fun w => match m w with
           | (inl e, w') => h e w'
           | (inr a, w') => (inr a, w')
           end.

Notation "'let*' x ':=' m 'in' k" := (st_bind m (fun x => k))
  (at level 10, x name, m at level 200, k at level 200,
   format "'[v' 'let*'  x  ':='  m  'in'  '/' k ']'") : py_scope.
Notation "m1 '>>' m2" := (st_bind m1 (fun _ => m2))
  (at level 60, right associativity) : py_scope.

(** ** Further exceptions

    Python's own exception classes that the code raises besides those of
    [exn]; a call that may raise either kind returns a [result_more]. *)

Inductive exn_more : Type :=
  | NotImplementedError
  | BaseException
  | OverflowError.

Definition result_more (A : Type) : Type := ((exn + exn_more) + A)%type.

(** A result of the first kind, among the results of both kinds. *)
Definition more {A} (r : result A) : result_more A :=
  match r with
  | inl e => inl (inl e)
  | inr a => inr a
  end.

Definition raise_more {A} (e : exn_more) : result_more A := inl (inr e).

(** ** Bytes, bit arrays and other Python values *)

Abbreviation bytes := (list Z) (only parsing).
Abbreviation bitarray := (list bool) (only parsing).

Definition byte_ok (b : Z) : Prop := 0 <= b < 256.
Definition bytes_ok (l : bytes) : Prop := Forall byte_ok l.
Definition byte_okb (b : Z) : bool := (0 <=? b) && (b <? 256).

(** [str.encode()]: the bytes of the UTF-8 encoding the string holds. *)
Definition encode (s : string) : bytes :=
  map (fun c => Z.of_nat (nat_of_ascii c)) (list_ascii_of_string s).

(** [int.from_bytes(b, 'big')] *)
Definition from_bytes_big (b : bytes) : Z :=
  fold_left (fun acc x => 256 * acc + x) b 0.

(** [x.to_bytes(n, 'big')], for [0 <= x < 256 ^ n]. *)
Fixpoint to_bytes_big (n : nat) (x : Z) : bytes :=
  match n with
  | O => []
  | S n' => (Z.shiftr x (8 * Z.of_nat n')) mod 256 :: to_bytes_big n' x
  end.

(** [seq[i]] for a non-negative index [i]. *)
Definition py_index {A} (l : list A) (i : Z) : result A :=
  match l !! Z.to_nat i with
  | Some x => ret x
  | None => raise IndexError
  end.

(** Cut a list into pieces of [size] elements, the last one possibly
    shorter; [fuel] bounds the number of pieces. *)
Fixpoint chunks {A} (fuel : nat) (size : nat) (l : list A) : list (list A) :=
  match fuel with
  | O => []
  | S fuel' =>
      match l with
      | [] => []
      | _ => firstn size l :: chunks fuel' size (skipn size l)
      end
  end.

(** The elements of the lists the media code builds: integers and
    [bytes] objects side by side. *)
Inductive pyval : Type :=
  | PyInt (n : Z)
  | PyBytes (b : bytes).

(** The JSON values of a request body. *)
#[local] Set Warnings "-register-all".
Inductive json : Type :=
  | JNull
  | JInt (n : Z)
  | JStr (s : string)
  | JList (l : list json).

(** ** The [bitarray] library *)

Module Bitarray.

(** [bitarray.tobytes()]: the bits are packed most significant first,
    eight to a byte; [acc] holds the [cnt] bits read of the current byte,
    and an unfinished last byte is filled with zero bits on the right. *)
Fixpoint tobytes_from (acc : Z) (cnt : nat) (bs : bitarray) : bytes :=
  match bs with
  | [] =>
      match cnt with
      | O => []
      | _ => [acc * 2 ^ Z.of_nat (8 - cnt)]
      end
  | b :: bs' =>
      let acc' := 2 * acc + Z.b2z b in
      match cnt with
      | 7%nat => acc' :: tobytes_from 0 0 bs'
      | _ => tobytes_from acc' (S cnt) bs'
      end
  end.

Definition tobytes (bs : bitarray) : bytes := tobytes_from 0 0 bs.

Definition byte_bits (b : Z) : bitarray :=
  [Z.testbit b 7; Z.testbit b 6; Z.testbit b 5; Z.testbit b 4;
   Z.testbit b 3; Z.testbit b 2; Z.testbit b 1; Z.testbit b 0].

(** [bitarray.frombytes(b)] on an empty bit array. *)
Definition frombytes (l : bytes) : bitarray := flat_map byte_bits l.

End Bitarray.

(** ** [hashlib.sha256]

    The digest the token functions call, written out after FIPS 180-4 on
    32-bit words held in [Z] with the wrap-around explicit. *)

Module Sha256.

Definition w32 (x : Z) : Z := x mod 2 ^ 32.
Definition add32 (a b : Z) : Z := w32 (a + b).
Definition rotr (n x : Z) : Z :=
  w32 (Z.lor (Z.shiftr x n) (Z.shiftl x (32 - n))).
Definition not32 (x : Z) : Z := Z.lxor x 0xffffffff.

Definition Ch (x y z : Z) : Z := Z.lxor (Z.land x y) (Z.land (not32 x) z).
Definition Maj (x y z : Z) : Z :=
  Z.lxor (Z.lxor (Z.land x y) (Z.land x z)) (Z.land y z).
Definition bsig0 (x : Z) : Z := Z.lxor (Z.lxor (rotr 2 x) (rotr 13 x)) (rotr 22 x).
Definition bsig1 (x : Z) : Z := Z.lxor (Z.lxor (rotr 6 x) (rotr 11 x)) (rotr 25 x).
Definition ssig0 (x : Z) : Z := Z.lxor (Z.lxor (rotr 7 x) (rotr 18 x)) (Z.shiftr x 3).
Definition ssig1 (x : Z) : Z := Z.lxor (Z.lxor (rotr 17 x) (rotr 19 x)) (Z.shiftr x 10).

(** The first sixty-four primes. *)
Definition primes : list Z :=
  [2; 3; 5; 7; 11; 13; 17; 19; 23; 29; 31; 37; 41; 43; 47; 53;
   59; 61; 67; 71; 73; 79; 83; 89; 97; 101; 103; 107; 109; 113; 127; 131;
   137; 139; 149; 151; 157; 163; 167; 173; 179; 181; 191; 193; 197; 199; 211; 223;
   227; 229; 233; 239; 241; 251; 257; 263; 269; 271; 277; 281; 283; 293; 307; 311].

(** The integer cube root, one bit at a time from bit [fuel - 1] down. *)
Fixpoint cbrt_bits (fuel : nat) (n r : Z) : Z :=
  match fuel with
  | O => r
  | S fuel' =>
      let c := r + 2 ^ Z.of_nat fuel' in
      cbrt_bits fuel' n (if c * c * c <=? n then c else r)
  end.

Definition cbrt (n : Z) : Z := cbrt_bits 48 n 0.

(** The round constants: the first 32 bits of the fractional parts of the
    cube roots of the primes. *)
Definition K : list Z := map (fun p => w32 (cbrt (p * 2 ^ 96))) primes.

(** The initial hash value: the first 32 bits of the fractional parts of
    the square roots of the first eight primes. *)
Definition H0 : list Z := map (fun p => w32 (Z.sqrt (p * 2 ^ 64))) (firstn 8 primes).

(** Message padding: a one bit, zero bits up to 56 modulo 64 bytes, and
    the bit length on eight bytes. *)
Definition padding (msg : bytes) : bytes :=
  let len := Z.of_nat (List.length msg) in
  let zeros := Z.to_nat ((55 - len) mod 64) in
  msg ++ [0x80] ++ repeat 0 zeros ++ to_bytes_big 8 (8 * len).

Definition words_of (block : bytes) : list Z :=
  map from_bytes_big (chunks 16 4 block).

(** The message schedule, extended by [n] words. *)
Fixpoint schedule (n : nat) (w : list Z) : list Z :=
  match n with
  | O => w
  | S n' =>
      let t := List.length w in
      let wt := add32 (add32 (ssig1 (nth (t - 2) w 0)) (nth (t - 7) w 0))
                      (add32 (ssig0 (nth (t - 15) w 0)) (nth (t - 16) w 0)) in
      schedule n' (w ++ [wt])
  end.

Record regs : Type := Regs
  { ra : Z; rb : Z; rc : Z; rd : Z; re : Z; rf : Z; rg : Z; rh : Z }.

Definition round (s : regs) (kw : Z * Z) : regs :=
  let t1 := add32 (add32 (add32 (rh s) (bsig1 (re s)))
                         (add32 (Ch (re s) (rf s) (rg s)) (fst kw))) (snd kw) in
  let t2 := add32 (bsig0 (ra s)) (Maj (ra s) (rb s) (rc s)) in
  Regs (add32 t1 t2) (ra s) (rb s) (rc s) (add32 (rd s) t1) (re s) (rf s) (rg s).

Definition regs_of (h : list Z) : regs :=
  Regs (nth 0 h 0) (nth 1 h 0) (nth 2 h 0) (nth 3 h 0)
       (nth 4 h 0) (nth 5 h 0) (nth 6 h 0) (nth 7 h 0).

Definition compress (h : list Z) (block : bytes) : list Z :=
  let w := schedule 48 (words_of block) in
  let s0 := regs_of h in
  let s := fold_left round (combine K w) s0 in
  [add32 (ra s0) (ra s); add32 (rb s0) (rb s); add32 (rc s0) (rc s);
   add32 (rd s0) (rd s); add32 (re s0) (re s); add32 (rf s0) (rf s);
   add32 (rg s0) (rg s); add32 (rh s0) (rh s)].

(** [hashlib.sha256(msg).digest()] *)
Definition digest (msg : bytes) : bytes :=
  let padded := padding msg in
  let blocks := chunks (List.length padded) 64 padded in
  flat_map (to_bytes_big 4) (fold_left compress blocks H0).

Definition hex_digit (n : Z) : ascii :=
  ascii_of_nat (Z.to_nat (if n <? 10 then 48 + n else 87 + n)).

Definition hex_of_byte (b : Z) : list ascii := [hex_digit (b / 16); hex_digit (b mod 16)].

(** [hashlib.sha256(msg).hexdigest()] *)
Definition hexdigest (msg : bytes) : string :=
  string_of_list_ascii (flat_map hex_of_byte (digest msg)).

End Sha256.

(** ** [Crypto.Cipher.AES] in CBC mode and [Crypto.Util.Padding]

    The block cipher of FIPS 197 on a state of sixteen bytes in column
    order, its inverse, the key expansion for keys of 16, 24 and 32 bytes,
    CBC chaining and PKCS#7 padding, as the library calls of
    [AESEncryption] use them. *)

Module Aes.

Definition block_size : nat := 16.

Definition SBOX : list Z :=
  [0x63; 0x7c; 0x77; 0x7b; 0xf2; 0x6b; 0x6f; 0xc5; 0x30; 0x01; 0x67; 0x2b; 0xfe; 0xd7; 0xab; 0x76;
  0xca; 0x82; 0xc9; 0x7d; 0xfa; 0x59; 0x47; 0xf0; 0xad; 0xd4; 0xa2; 0xaf; 0x9c; 0xa4; 0x72; 0xc0;
  0xb7; 0xfd; 0x93; 0x26; 0x36; 0x3f; 0xf7; 0xcc; 0x34; 0xa5; 0xe5; 0xf1; 0x71; 0xd8; 0x31; 0x15;
  0x04; 0xc7; 0x23; 0xc3; 0x18; 0x96; 0x05; 0x9a; 0x07; 0x12; 0x80; 0xe2; 0xeb; 0x27; 0xb2; 0x75;
  0x09; 0x83; 0x2c; 0x1a; 0x1b; 0x6e; 0x5a; 0xa0; 0x52; 0x3b; 0xd6; 0xb3; 0x29; 0xe3; 0x2f; 0x84;
  0x53; 0xd1; 0x00; 0xed; 0x20; 0xfc; 0xb1; 0x5b; 0x6a; 0xcb; 0xbe; 0x39; 0x4a; 0x4c; 0x58; 0xcf;
  0xd0; 0xef; 0xaa; 0xfb; 0x43; 0x4d; 0x33; 0x85; 0x45; 0xf9; 0x02; 0x7f; 0x50; 0x3c; 0x9f; 0xa8;
  0x51; 0xa3; 0x40; 0x8f; 0x92; 0x9d; 0x38; 0xf5; 0xbc; 0xb6; 0xda; 0x21; 0x10; 0xff; 0xf3; 0xd2;
  0xcd; 0x0c; 0x13; 0xec; 0x5f; 0x97; 0x44; 0x17; 0xc4; 0xa7; 0x7e; 0x3d; 0x64; 0x5d; 0x19; 0x73;
  0x60; 0x81; 0x4f; 0xdc; 0x22; 0x2a; 0x90; 0x88; 0x46; 0xee; 0xb8; 0x14; 0xde; 0x5e; 0x0b; 0xdb;
  0xe0; 0x32; 0x3a; 0x0a; 0x49; 0x06; 0x24; 0x5c; 0xc2; 0xd3; 0xac; 0x62; 0x91; 0x95; 0xe4; 0x79;
  0xe7; 0xc8; 0x37; 0x6d; 0x8d; 0xd5; 0x4e; 0xa9; 0x6c; 0x56; 0xf4; 0xea; 0x65; 0x7a; 0xae; 0x08;
  0xba; 0x78; 0x25; 0x2e; 0x1c; 0xa6; 0xb4; 0xc6; 0xe8; 0xdd; 0x74; 0x1f; 0x4b; 0xbd; 0x8b; 0x8a;
  0x70; 0x3e; 0xb5; 0x66; 0x48; 0x03; 0xf6; 0x0e; 0x61; 0x35; 0x57; 0xb9; 0x86; 0xc1; 0x1d; 0x9e;
  0xe1; 0xf8; 0x98; 0x11; 0x69; 0xd9; 0x8e; 0x94; 0x9b; 0x1e; 0x87; 0xe9; 0xce; 0x55; 0x28; 0xdf;
  0x8c; 0xa1; 0x89; 0x0d; 0xbf; 0xe6; 0x42; 0x68; 0x41; 0x99; 0x2d; 0x0f; 0xb0; 0x54; 0xbb; 0x16].

Definition INV_SBOX : list Z :=
  [0x52; 0x09; 0x6a; 0xd5; 0x30; 0x36; 0xa5; 0x38; 0xbf; 0x40; 0xa3; 0x9e; 0x81; 0xf3; 0xd7; 0xfb;
  0x7c; 0xe3; 0x39; 0x82; 0x9b; 0x2f; 0xff; 0x87; 0x34; 0x8e; 0x43; 0x44; 0xc4; 0xde; 0xe9; 0xcb;
  0x54; 0x7b; 0x94; 0x32; 0xa6; 0xc2; 0x23; 0x3d; 0xee; 0x4c; 0x95; 0x0b; 0x42; 0xfa; 0xc3; 0x4e;
  0x08; 0x2e; 0xa1; 0x66; 0x28; 0xd9; 0x24; 0xb2; 0x76; 0x5b; 0xa2; 0x49; 0x6d; 0x8b; 0xd1; 0x25;
  0x72; 0xf8; 0xf6; 0x64; 0x86; 0x68; 0x98; 0x16; 0xd4; 0xa4; 0x5c; 0xcc; 0x5d; 0x65; 0xb6; 0x92;
  0x6c; 0x70; 0x48; 0x50; 0xfd; 0xed; 0xb9; 0xda; 0x5e; 0x15; 0x46; 0x57; 0xa7; 0x8d; 0x9d; 0x84;
  0x90; 0xd8; 0xab; 0x00; 0x8c; 0xbc; 0xd3; 0x0a; 0xf7; 0xe4; 0x58; 0x05; 0xb8; 0xb3; 0x45; 0x06;
  0xd0; 0x2c; 0x1e; 0x8f; 0xca; 0x3f; 0x0f; 0x02; 0xc1; 0xaf; 0xbd; 0x03; 0x01; 0x13; 0x8a; 0x6b;
  0x3a; 0x91; 0x11; 0x41; 0x4f; 0x67; 0xdc; 0xea; 0x97; 0xf2; 0xcf; 0xce; 0xf0; 0xb4; 0xe6; 0x73;
  0x96; 0xac; 0x74; 0x22; 0xe7; 0xad; 0x35; 0x85; 0xe2; 0xf9; 0x37; 0xe8; 0x1c; 0x75; 0xdf; 0x6e;
  0x47; 0xf1; 0x1a; 0x71; 0x1d; 0x29; 0xc5; 0x89; 0x6f; 0xb7; 0x62; 0x0e; 0xaa; 0x18; 0xbe; 0x1b;
  0xfc; 0x56; 0x3e; 0x4b; 0xc6; 0xd2; 0x79; 0x20; 0x9a; 0xdb; 0xc0; 0xfe; 0x78; 0xcd; 0x5a; 0xf4;
  0x1f; 0xdd; 0xa8; 0x33; 0x88; 0x07; 0xc7; 0x31; 0xb1; 0x12; 0x10; 0x59; 0x27; 0x80; 0xec; 0x5f;
  0x60; 0x51; 0x7f; 0xa9; 0x19; 0xb5; 0x4a; 0x0d; 0x2d; 0xe5; 0x7a; 0x9f; 0x93; 0xc9; 0x9c; 0xef;
  0xa0; 0xe0; 0x3b; 0x4d; 0xae; 0x2a; 0xf5; 0xb0; 0xc8; 0xeb; 0xbb; 0x3c; 0x83; 0x53; 0x99; 0x61;
  0x17; 0x2b; 0x04; 0x7e; 0xba; 0x77; 0xd6; 0x26; 0xe1; 0x69; 0x14; 0x63; 0x55; 0x21; 0x0c; 0x7d].

Definition sub_byte (b : Z) : Z := nth (Z.to_nat b) SBOX 0.
Definition inv_sub_byte (b : Z) : Z := nth (Z.to_nat b) INV_SBOX 0.

(** Multiplication by [x] in GF(2^8) modulo [x^8 + x^4 + x^3 + x + 1]. *)
Definition xtime (b : Z) : Z :=
  let s := Z.land (Z.shiftl b 1) 0xff in
  if Z.testbit b 7 then Z.lxor s 0x1b else s.

Definition mul2 (b : Z) : Z := xtime b.
Definition mul3 (b : Z) : Z := Z.lxor (xtime b) b.
Definition mul9 (b : Z) : Z := Z.lxor (xtime (xtime (xtime b))) b.
Definition mul11 (b : Z) : Z :=
  Z.lxor (Z.lxor (xtime (xtime (xtime b))) (xtime b)) b.
Definition mul13 (b : Z) : Z :=
  Z.lxor (Z.lxor (xtime (xtime (xtime b))) (xtime (xtime b))) b.
Definition mul14 (b : Z) : Z :=
  Z.lxor (Z.lxor (xtime (xtime (xtime b))) (xtime (xtime b))) (xtime b).

Definition xor4 (a b c d : Z) : Z := Z.lxor (Z.lxor (Z.lxor a b) c) d.

Definition mix_column (a b c d : Z) : list Z :=
  [xor4 (mul2 a) (mul3 b) c d;
   xor4 a (mul2 b) (mul3 c) d;
   xor4 a b (mul2 c) (mul3 d);
   xor4 (mul3 a) b c (mul2 d)].

Definition inv_mix_column (a b c d : Z) : list Z :=
  [xor4 (mul14 a) (mul11 b) (mul13 c) (mul9 d);
   xor4 (mul9 a) (mul14 b) (mul11 c) (mul13 d);
   xor4 (mul13 a) (mul9 b) (mul14 c) (mul11 d);
   xor4 (mul11 a) (mul13 b) (mul9 c) (mul14 d)].

Definition sub_bytes (s : bytes) : bytes := map sub_byte s.
Definition inv_sub_bytes (s : bytes) : bytes := map inv_sub_byte s.

Definition shift_rows (s : bytes) : bytes :=
  match s with
  | [s0; s1; s2; s3; s4; s5; s6; s7; s8; s9; s10; s11; s12; s13; s14; s15] =>
      [s0; s5; s10; s15; s4; s9; s14; s3; s8; s13; s2; s7; s12; s1; s6; s11]
  | _ => s
  end.

Definition inv_shift_rows (s : bytes) : bytes :=
  match s with
  | [s0; s1; s2; s3; s4; s5; s6; s7; s8; s9; s10; s11; s12; s13; s14; s15] =>
      [s0; s13; s10; s7; s4; s1; s14; s11; s8; s5; s2; s15; s12; s9; s6; s3]
  | _ => s
  end.

Definition mix_columns (s : bytes) : bytes :=
  match s with
  | [s0; s1; s2; s3; s4; s5; s6; s7; s8; s9; s10; s11; s12; s13; s14; s15] =>
      mix_column s0 s1 s2 s3 ++ mix_column s4 s5 s6 s7
      ++ mix_column s8 s9 s10 s11 ++ mix_column s12 s13 s14 s15
  | _ => s
  end.

Definition inv_mix_columns (s : bytes) : bytes :=
  match s with
  | [s0; s1; s2; s3; s4; s5; s6; s7; s8; s9; s10; s11; s12; s13; s14; s15] =>
      inv_mix_column s0 s1 s2 s3 ++ inv_mix_column s4 s5 s6 s7
      ++ inv_mix_column s8 s9 s10 s11 ++ inv_mix_column s12 s13 s14 s15
  | _ => s
  end.

(** Byte-wise exclusive or of two blocks, each byte kept on eight bits. *)
Fixpoint xor_block (s k : bytes) : bytes :=
  match s with
  | [] => []
  | a :: s' => Z.land (Z.lxor a (hd 0 k)) 0xff :: xor_block s' (tl k)
  end.

Definition add_round_key (rk s : bytes) : bytes := xor_block s rk.

(** *** Key expansion *)

Definition rot_word (w : bytes) : bytes :=
  match w with
  | a :: rest => rest ++ [a]
  | [] => []
  end.

Definition sub_word (w : bytes) : bytes := map sub_byte w.

Definition RCON : list Z := [0x01; 0x02; 0x04; 0x08; 0x10; 0x20; 0x40; 0x80; 0x1b; 0x36].

Definition rcon_word (i : nat) : bytes := [nth (i - 1) RCON 0; 0; 0; 0].

Definition next_word (Nk : nat) (w : list bytes) : bytes :=
  let i := List.length w in
  let temp := nth (i - 1) w [] in
  let temp :=
    if (i mod Nk =? 0)%nat then xor_block (sub_word (rot_word temp)) (rcon_word (i / Nk))
    else if (6 <? Nk)%nat && (i mod Nk =? 4)%nat then sub_word temp
    else temp in
  xor_block (nth (i - Nk) w []) temp.

Fixpoint expand (Nk : nat) (n : nat) (w : list bytes) : list bytes :=
  match n with
  | O => w
  | S n' => expand Nk n' (w ++ [next_word Nk w])
  end.

Fixpoint group4 (fuel : nat) (w : list bytes) : list bytes :=
  match fuel with
  | O => []
  | S fuel' =>
      match w with
      | a :: b :: c :: d :: rest => (a ++ b ++ c ++ d) :: group4 fuel' rest
      | _ => []
      end
  end.

Fixpoint words4 (fuel : nat) (key : bytes) : list bytes :=
  match fuel with
  | O => []
  | S fuel' =>
      match key with
      | a :: b :: c :: d :: rest => [a; b; c; d] :: words4 fuel' rest
      | _ => []
      end
  end.

(** The round keys of a key of [4 * Nk] bytes: [Nk + 7] blocks. *)
Definition round_keys (key : bytes) : list bytes :=
  let Nk := (List.length key / 4)%nat in
  let total := (4 * (Nk + 7))%nat in
  group4 (Nk + 7) (expand Nk (total - Nk) (words4 Nk key)).

(** *** Cipher and inverse cipher *)

Fixpoint rounds (rks : list bytes) (s : bytes) : bytes :=
  match rks with
  | [] => s
  | [rk] => add_round_key rk (shift_rows (sub_bytes s))
  | rk :: more =>
      rounds more (add_round_key rk (mix_columns (shift_rows (sub_bytes s))))
  end.

Definition cipher (rks : list bytes) (s : bytes) : bytes :=
  match rks with
  | [] => s
  | rk0 :: rest => rounds rest (add_round_key rk0 s)
  end.

Fixpoint inv_rounds (rks : list bytes) (s : bytes) : bytes :=
  match rks with
  | [] => s
  | [rk] => inv_sub_bytes (inv_shift_rows (add_round_key rk s))
  | rk :: more =>
      inv_sub_bytes
        (inv_shift_rows (inv_mix_columns (add_round_key rk (inv_rounds more s))))
  end.

Definition inv_cipher (rks : list bytes) (s : bytes) : bytes :=
  match rks with
  | [] => s
  | rk0 :: rest => add_round_key rk0 (inv_rounds rest s)
  end.

Definition encrypt_block (key block : bytes) : bytes := cipher (round_keys key) block.
Definition decrypt_block (key block : bytes) : bytes := inv_cipher (round_keys key) block.

(** [AES.new] accepts keys of 16, 24 and 32 bytes. *)
Definition valid_key (key : bytes) : bool :=
  let n := List.length key in
  (n =? 16)%nat || (n =? 24)%nat || (n =? 32)%nat.

End Aes.

Module Padding.

(** [pad(data_to_pad, block_size)], style [pkcs7] *)
Definition pad (data_to_pad : bytes) (block_size : nat) : bytes :=
  let padding_len := (block_size - List.length data_to_pad mod block_size)%nat in
  data_to_pad ++ repeat (Z.of_nat padding_len) padding_len.

(** [unpad(padded_data, block_size)], style [pkcs7], as in the current
    release of the library: empty input is refused before the last byte is
    read. *)
Definition unpad (padded_data : bytes) (block_size : nat) : result bytes :=
  let pdata_len := List.length padded_data in
  if (pdata_len =? 0)%nat then raise ValueError
  else if negb (pdata_len mod block_size =? 0)%nat then raise ValueError
  else
    let padding_len := List.last padded_data 0 in
    if (padding_len <? 1) || (Z.of_nat (Nat.min block_size pdata_len) <? padding_len)
    then raise ValueError
    else
      let n := Z.to_nat padding_len in
      if negb (bool_decide (skipn (pdata_len - n) padded_data = repeat padding_len n))
      then raise ValueError
      else ret (firstn (pdata_len - n) padded_data).

End Padding.

Module CbcMode.

(** A cipher object: the key and the initialisation vector. *)
Record t : Type := mk { key : bytes; iv : bytes }.

(** [AES.new(key, AES.MODE_CBC, iv=iv)]; without [iv=], the library
    draws the sixteen bytes at random and the same checks hold. *)
Definition new (key iv : bytes) : result t :=
  if negb (Aes.valid_key key) then raise ValueError
  else if negb (List.length iv =? Aes.block_size)%nat then raise ValueError
  else ret (mk key iv).

(** Cut into blocks of sixteen bytes. *)
Definition blocks (l : bytes) : list bytes := chunks (List.length l) 16 l.

Fixpoint encrypt_blocks (key prev : bytes) (bs : list bytes) : list bytes :=
  match bs with
  | [] => []
  | b :: rest =>
      let c := Aes.encrypt_block key (Aes.xor_block b prev) in
      c :: encrypt_blocks key c rest
  end.

Fixpoint decrypt_blocks (key prev : bytes) (cs : list bytes) : list bytes :=
  match cs with
  | [] => []
  | c :: rest =>
      Aes.xor_block (Aes.decrypt_block key c) prev :: decrypt_blocks key c rest
  end.

(** [cipher.encrypt(plaintext)]: the data must fill whole blocks. *)
Definition encrypt (c : t) (plaintext : bytes) : result bytes :=
  if negb (List.length plaintext mod Aes.block_size =? 0)%nat then raise ValueError
  else ret (concat (encrypt_blocks (key c) (iv c) (blocks plaintext))).

(** [cipher.decrypt(ciphertext)] *)
Definition decrypt (c : t) (ciphertext : bytes) : result bytes :=
  if negb (List.length ciphertext mod Aes.block_size =? 0)%nat then raise ValueError
  else ret (concat (decrypt_blocks (key c) (iv c) (blocks ciphertext))).

End CbcMode.

(** ** [client/utils/encryption.py] *)

Module XOREncryption.

Definition name : string := "XOR".

(** [for bit1, bit2 in zip(data, key): result.append(bit1 ^ bit2)] *)
Fixpoint zip_xor (data key : bitarray) : bitarray :=
  match data, key with
  | bit1 :: data', bit2 :: key' => xorb bit1 bit2 :: zip_xor data' key'
  | _, _ => []
  end.

Definition encrypt (data key : bitarray) : bitarray := zip_xor data key.

Definition decrypt (data key : bitarray) : bitarray := zip_xor data key.

Definition get_name : string := name.

End XOREncryption.

Module DebugEncryption.

Definition name : string := "Debug".
Definition encrypt (data key : bitarray) : bitarray := data.
Definition decrypt (data key : bitarray) : bitarray := data.
Definition get_name : string := name.

End DebugEncryption.

Module AESEncryption.

(** [encrypt(data, key)], with [random_iv] the sixteen bytes the library
    draws for the cipher object ([AES.new] is called without an IV). *)
Definition encrypt (random_iv : bytes) (data key : bitarray) : result bitarray :=
  let data := Bitarray.tobytes data in
  let key := Bitarray.tobytes key in
  let! cipher := CbcMode.new key random_iv in
  let! cipheredData := CbcMode.encrypt cipher (Padding.pad data Aes.block_size) in
  let result_data := Bitarray.frombytes cipheredData in
  let result_iv := Bitarray.frombytes (CbcMode.iv cipher) in
  ret (result_iv ++ result_data).

(** [decrypt(data, key)] *)
Definition decrypt (data key : bitarray) : result bitarray :=
  let key := Bitarray.tobytes key in
  let iv := firstn 128 data in
  let cipheredData := skipn 128 data in
  let iv := Bitarray.tobytes iv in
  let cipheredData := Bitarray.tobytes cipheredData in
  let! cipher := CbcMode.new key iv in
  let! decrypted := CbcMode.decrypt cipher cipheredData in
  let! originalData := Padding.unpad decrypted Aes.block_size in
  ret (Bitarray.frombytes originalData).

(** [self.name = f"AES-{bits}"] *)
Definition name (bits : nat) : string := "AES-" +:+ pretty bits.

Definition get_name (bits : nat) : string := name bits.

End AESEncryption.

Module DebugKeyGenerator.

(** [speficied_keylength(length)]: [bitarray([i % 2 for i in range(length)])] *)
Definition speficied_keylength (length : nat) : bitarray :=
  map (fun i => Nat.odd i) (seq 0 length).

(** [generate_key(key_length=n)] followed by [get_key()] (the branch for
    a key given by the caller is not modelled). *)
Definition generate_key (key_length : nat) : result bitarray :=
  match key_length with
  | O => raise ValueError
  | _ => ret (speficied_keylength key_length)
  end.

End DebugKeyGenerator.

(** An [EncryptionScheme] object: an instance of one of the three
    subclasses; an [AESEncryption] carries its attribute [bits]. *)
Module EncryptionScheme.

Inductive t : Type :=
  | AES (bits : nat)
  | XOR
  | Debug.

(** [scheme.encrypt(data, key)], dispatched on the class of the object. *)
Definition encrypt (random_iv : bytes) (scheme : t) (data key : bitarray)
    : result bitarray :=
  match scheme with
  | AES _ => AESEncryption.encrypt random_iv data key
  | XOR => ret (XOREncryption.encrypt data key)
  | Debug => ret (DebugEncryption.encrypt data key)
  end.

(** [scheme.decrypt(data, key)] *)
Definition decrypt (scheme : t) (data key : bitarray) : result bitarray :=
  match scheme with
  | AES _ => AESEncryption.decrypt data key
  | XOR => ret (XOREncryption.decrypt data key)
  | Debug => ret (DebugEncryption.decrypt data key)
  end.

(** [scheme.get_name()] *)
Definition get_name (scheme : t) : string :=
  match scheme with
  | AES bits => AESEncryption.get_name bits
  | XOR => XOREncryption.get_name
  | Debug => DebugEncryption.get_name
  end.

End EncryptionScheme.

Module EncryptionFactory.

(** [create_encryption_scheme(type)]; [AESEncryption()] takes the default
    [bits=128]. *)
Definition create_encryption_scheme (type : string) : result EncryptionScheme.t :=
  if String.eqb type "AES" then ret (EncryptionScheme.AES 128)
  else if String.eqb type "XOR" then ret EncryptionScheme.XOR
  else if String.eqb type "DEBUG" then ret EncryptionScheme.Debug
  else raise ValueError.

End EncryptionFactory.

(** The class [DebugKeyGenerator] as an object with its two attributes. *)
Module DebugKeyGeneratorObject.

Record t : Type := mk { key : bitarray; key_length : nat }.

(** [__init__]: an empty bit array and the length zero. *)
Definition init : t := mk [] 0.

(** What a caller may pass as [key]: a bit array, a string or an object
    of another type. *)
Inductive key_arg : Type :=
  | KeyBitarray (b : bitarray)
  | KeyStr (s : string)
  | KeyOther.

(** [speficied_keylength(length)] *)
Definition speficied_keylength (length : nat) : M t unit :=
  st_put (mk (DebugKeyGenerator.speficied_keylength length) length).

(** [specified_key(key)].  For a bit array, [logger.log] is called with
    one argument where [Logger.log(level, msg)] takes two, which raises
    [TypeError] before any attribute is assigned.  [type(key) == string]
    compares a class with the module [string] and is false for every
    object, so everything else reaches the [else] branch. *)
Definition specified_key (key : key_arg) : M t unit :=
  match key with
  | KeyBitarray _ => st_raise TypeError
  | KeyStr _ | KeyOther => st_raise ValueError
  end.

(** [generate_key(key=None, key_length=0)].  With a key, the method calls
    [self.specified_key(self, key)]: the bound method receives one
    positional argument too many, which raises [TypeError] before its
    body runs. *)
Definition generate_key (key : option key_arg) (key_length : nat) : M t unit :=
  match key with
  | Some _ => st_raise TypeError
  | None =>
      if negb (key_length =? 0)%nat then speficied_keylength key_length
      else st_raise ValueError
  end.

Definition get_key (self : t) : bitarray := key self.

End DebugKeyGeneratorObject.

Module RandomKeyGenerator.

(** The attributes: [key] is [None] until a key is generated. *)
Record t : Type := mk { key_length : nat; key : option bitarray }.

(** [__init__(key_length=0)] *)
Definition init (key_length : nat) : t := mk key_length None.

(** The [width] low bits of [v], most significant first. *)
Definition bits_be (width : nat) (v : Z) : list bool :=
  map (fun i => Z.testbit v (Z.of_nat i)) (rev (seq 0 width)).

(** [format(v, 'b')] for [0 <= v]: the binary digits of [v] without
    leading zeros, as the list of their values. *)
Definition bin (v : Z) : list bool :=
  if v =? 0 then [false] else bits_be (Z.to_nat (Z.log2 v + 1)) v.

(** [format(v, f'0{width}b')]: the digits, filled with zeros on the left
    up to [width] characters. *)
Definition format_0b (width : nat) (v : Z) : list bool :=
  let digits := bin v in
  repeat false (width - List.length digits) ++ digits.

Section Random.

(** [os.urandom(n)]: the bytes the operating system hands out. *)
Variable urandom : nat -> bytes.

(** [generate_key(key_length=0)] *)
Definition generate_key (key_length : nat) : M t unit :=
  fun self =>
    let draw (self : t) :=
      let n := RandomKeyGenerator.key_length self in
      let v := from_bytes_big (urandom ((n + 7) / 8)) in
      (ret tt, mk n (Some (firstn n (format_0b n v)))) in
    if negb (key_length =? 0)%nat then draw (mk key_length (key self))
    else if (RandomKeyGenerator.key_length self <? 1)%nat then (raise ValueError, self)
    else draw self.

End Random.

Definition get_key (self : t) : option bitarray := key self.

End RandomKeyGenerator.

(** A [KeyGenerator] object: an instance of one of the two subclasses. *)
Inductive KeyGenerator : Type :=
  | DebugGenerator (g : DebugKeyGeneratorObject.t)
  | RandomGenerator (g : RandomKeyGenerator.t).

Module KeyGeneratorFactory.

(** [create_key_generator(type)] *)
Definition create_key_generator (type : string) : result KeyGenerator :=
  if String.eqb type "DEBUG" then ret (DebugGenerator DebugKeyGeneratorObject.init)
  else if String.eqb type "RANDOM" then ret (RandomGenerator (RandomKeyGenerator.init 0))
  else raise ValueError.

End KeyGeneratorFactory.

(** ** Data model: endpoints and users *)

Module Endpoint.

Record t : Type := mk { ip : string; port : Z; route : option string }.

Definition strip_scheme (ip : string) : string :=
  if String.prefix "https://" ip then String.substring 8 (String.length ip - 8) ip
  else if String.prefix "http://" ip then String.substring 7 (String.length ip - 7) ip
  else ip.

Definition strip_slash (route : string) : string :=
  if String.prefix "/" route
  then String.substring 1 (String.length route - 1) route else route.

Definition norm_route (route : option string) : option string :=
  match route with
  | None => None
  | Some r =>
      if String.eqb r "" || String.eqb r "/" then None else Some (strip_slash r)
  end.

(** [Endpoint(ip, port, route=None)], as [utils.py] declares it. *)
Definition init (ip : string) (port : Z) (route : option string) : t :=
  mk (strip_scheme ip) port (norm_route route).

(** What an endpoint yields when it is unpacked, and what the constructor
    is given: a text (the host, a route) or a number (the port). *)
Inductive item : Type :=
  | Text (s : string)
  | Number (n : Z).

(** An [Endpoint] object as Python holds it: nothing forces the attribute
    [port] to be a number. *)
Record object : Type := Object
  { o_ip : string; o_port : item; o_route : option string }.

Definition to_object (e : t) : object := Object (ip e) (Number (port e)) (route e).

(** Truth value of an attribute: an empty text and zero are false. *)
Definition truthy (x : item) : bool :=
  match x with
  | Text s => negb (String.eqb s "")
  | Number n => negb (n =? 0)
  end.

(** [__iter__]: the host (or ['localhost']), then the port and the route
    when they are true. *)
Definition iter (o : object) : list item :=
  [Text (if String.eqb (o_ip o) "" then "localhost" else o_ip o)]
  ++ (if truthy (o_port o) then [o_port o] else [])
  ++ match o_route o with
     | Some r => if String.eqb r "" then [] else [Text r]
     | None => []
     end.

(** [Endpoint( *items )] for the items an endpoint yields: the host alone
    lacks the required [port] and raises [TypeError]; the second item is
    taken for the port, whatever it is. *)
Definition unpack (items : list item) : result object :=
  match items with
  | [Text ip; port] => ret (Object (strip_scheme ip) port None)
  | [Text ip; port; Text route] =>
      ret (Object (strip_scheme ip) port (norm_route (Some route)))
  | _ => raise TypeError
  end.

(** [endpoint(route)], the method [__call__]: a copy of the endpoint is
    given the route and copied again. *)
Definition call (o : object) (route : option string) : result object :=
  match route with
  | None => ret o
  | Some r =>
      if String.eqb r "" then ret o
      else
        let! endpoint := unpack (iter o) in
        unpack (iter (Object (o_ip endpoint) (o_port endpoint) (Some r)))
  end.

(** [str(endpoint)], the method [_to_string] *)
Definition to_string (o : object) : string :=
  let ip := if String.eqb (o_ip o) "" then "localhost" else o_ip o in
  let port :=
    if truthy (o_port o)
    then ":" +:+ match o_port o with Text s => s | Number n => pretty n end
    else "" in
  let route :=
    match o_route o with
    | Some r => if String.eqb r "" then "" else "/" +:+ r
    | None => ""
    end in
  "http://" +:+ ip +:+ port +:+ route.

End Endpoint.

(** Modelled from the spec: the [UserState] enumeration and the [User]
    tuple of [server/utils/user.py], which the sources import and use
    ([user.id], [user.sess_token], [user.api_endpoint], [user.state],
    [user.peer], and unpack into the constructor) but which is not among
    them.  Section 3 of the specification gives the fields and the three
    states. *)
Inductive UserState : Type := IDLE | CONNECTING | CONNECTED.

#[global] Instance UserState_eq_dec : EqDecision UserState.
Proof. solve_decision. Defined.

Module User.

Record t : Type := mk
  { id : string;
    sess_token : string;
    api_endpoint : Endpoint.t;
    state : UserState;
    peer : option string }.

Definition set_state (u : t) (s : UserState) : t :=
  mk (id u) (sess_token u) (api_endpoint u) s (peer u).

Definition set_peer (u : t) (p : option string) : t :=
  mk (id u) (sess_token u) (api_endpoint u) (state u) p.

End User.

(** ** [server/utils/user_manager.py] *)

(** A stored [user_info] is a Python object: [None] (what [add_user]
    stores) or a [User]. *)
Abbreviation user_info := (option User.t) (only parsing).
Abbreviation storage := (gmap string (option User.t)) (only parsing).

Module DictUserStorage.

Definition add_user (user_id : string) (info : user_info) : M storage unit :=
  fun users =>
    match users !! user_id with
    | Some _ => (raise DuplicateUser, users)
    | None => (ret tt, <[user_id := info]> users)
    end.

Definition update_user (user_id : string) (info : user_info) : M storage unit :=
  fun users =>
    match users !! user_id with
    | None => (raise UserNotFound, users)
    | Some _ => (ret tt, <[user_id := info]> users)
    end.

Definition get_user (user_id : string) : M storage user_info :=
  fun users =>
    match users !! user_id with
    | None => (raise UserNotFound, users)
    | Some info => (ret info, users)
    end.

Definition remove_user (user_id : string) : M storage unit :=
  fun users =>
    match users !! user_id with
    | None => (raise UserNotFound, users)
    | Some _ => (ret tt, delete user_id users)
    end.

Definition has_user (user_id : string) : M storage bool :=
  fun users => (ret (bool_decide (is_Some (users !! user_id))), users).

End DictUserStorage.

Definition lower_ascii (c : ascii) : ascii :=
  let n := nat_of_ascii c in
  if (65 <=? n)%nat && (n <=? 90)%nat then ascii_of_nat (n + 32) else c.

Module UserManager.

(** [generate_user_id()]: [draw] holds the five characters that [choice]
    picks from [ascii_letters + digits]. *)
Definition generate_user_id (draw : string) : string :=
  string_of_list_ascii (map lower_ascii (list_ascii_of_string draw)).

(** [generate_token(user_id)] *)
Definition generate_token (user_id : string) : string :=
  Sha256.hexdigest (encode user_id).

(** [def add_user(self)]: the method takes no argument besides [self], so
    a call that passes [extra_args > 0] positional arguments raises
    [TypeError] before the body runs.  The body stores [None] as the user
    info and returns the id alone. *)
Definition add_user (draw : string) (extra_args : nat) : M storage string :=
  match extra_args with
  | S _ => st_raise TypeError
  | O =>
      let user_id := generate_user_id draw in
      DictUserStorage.add_user user_id None >> st_ret user_id
  end.

(** [(state == UserState.IDLE) ^ (peer == None)] *)
Definition state_peer_mismatch (state : UserState) (peer : option string) : bool :=
  xorb (bool_decide (state = IDLE)) (bool_decide (peer = None)).

(** [set_user_state(user_id, state, peer=None)]; assigning an attribute of
    a stored [None] raises [AttributeError]. *)
Definition set_user_state (user_id : string) (state : UserState)
    (peer : option string) : M storage unit :=
  if state_peer_mismatch state peer then st_raise InvalidState
  else
    let* info := DictUserStorage.get_user user_id in
    match info with
    | None => st_raise AttributeError
    | Some u =>
        DictUserStorage.update_user user_id
          (Some (User.set_peer (User.set_state u state) peer))
    end.

(** [get_user(user_id)]: unpacking a stored [None] into the [User]
    constructor raises [TypeError]. *)
Definition get_user (user_id : string) : M storage User.t :=
  let* info := DictUserStorage.get_user user_id in
  match info with
  | None => st_raise TypeError
  | Some u => st_ret u
  end.

(** [remove_user] logs [UserNotFound] and does not raise it again. *)
Definition remove_user (user_id : string) : M storage unit :=
  st_catch (DictUserStorage.remove_user user_id)
           (fun e => match e with UserNotFound => st_ret tt | _ => st_raise e end).

End UserManager.

(** ** [server/video_chat_server.py] *)

(** [get_parameters_from_dict] for a dictionary and string arguments (no
    validators): the value of every key, in order; a missing key raises
    [ParameterError]. *)
Fixpoint get_parameters (data : gmap string json) (args : list string)
    : result (list json) :=
  match args with
  | [] => ret []
  | param :: rest =>
      match data !! param with
      | None => raise ParameterError
      | Some param_val =>
          let! vals := get_parameters data rest in
          ret (param_val :: vals)
      end
  end.

(** An [Endpoint] built from values of a request body: the constructor
    stores [port] as it comes, whatever its type. *)
Record json_endpoint : Type := JsonEndpoint
  { je_ip : string; je_port : json; je_route : option string }.

(** [ip[... ip.startswith('https://') ...]]: a value that is not a string
    has no [startswith] and raises [AttributeError]. *)
Definition ip_of_json (ip : json) : result string :=
  match ip with
  | JStr s => ret (Endpoint.strip_scheme s)
  | JNull | JInt _ | JList _ => raise AttributeError
  end.

(** The route of [Endpoint.__init__]: a false value ([None], zero, the
    empty string or list) and ['/'] give [None]; another string loses its
    leading slash; another value has no [startswith] and raises
    [AttributeError]. *)
Definition route_of_json (route : json) : result (option string) :=
  match route with
  | JNull => ret None
  | JInt n => if n =? 0 then ret None else raise AttributeError
  | JStr s => ret (Endpoint.norm_route (Some s))
  | JList [] => ret None
  | JList (_ :: _) => raise AttributeError
  end.

(** [Endpoint(ip, port)] and [Endpoint(ip, port, route)]; another number
    of arguments raises [TypeError]. *)
Definition endpoint_of_args (args : list json) : result json_endpoint :=
  match args with
  | [ip; port] =>
      let! ip := ip_of_json ip in
      ret (JsonEndpoint ip port None)
  | [ip; port; route] =>
      let! ip := ip_of_json ip in
      let! route := route_of_json route in
      ret (JsonEndpoint ip port route)
  | _ => raise TypeError
  end.

(** [Endpoint( *api_endpoint )] for a value of the request body: a list
    is unpacked into its elements and a string into its characters (the
    bytes of an ASCII string); [None] and a number cannot be unpacked
    ([TypeError]). *)
Definition endpoint_of_json (v : json) : result json_endpoint :=
  match v with
  | JList l => endpoint_of_args l
  | JStr s =>
      endpoint_of_args
        (map (fun c => JStr (String c EmptyString)) (list_ascii_of_string s))
  | JNull | JInt _ => raise TypeError
  end.

(** The three functions [get_parameters], [get_parameters_from_sequence]
    and [get_parameters_from_dict] as the module declares them, with
    validators. *)
Module Parameters.

(** The collection a caller passes as [data]. *)
Inductive data : Type :=
  | DataList (l : list json)
  | DataTuple (l : list json)
  | DataDict (d : gmap string json)
  | DataOther.

(** An argument that names a key: the key alone, or a pair of the key
    and a validator function. *)
Inductive key_arg : Type :=
  | Key (param : string)
  | KeyWith (param : string) (validator : json -> bool).

Definition param_of (a : key_arg) : string :=
  match a with
  | Key p | KeyWith p _ => p
  end.

(** A key alone gets [lambda x: True]. *)
Definition validator_of (a : key_arg) : json -> bool :=
  match a with
  | Key _ => fun _ => true
  | KeyWith _ validator => validator
  end.

(** The loop of [get_parameters_from_dict], from the values collected so
    far. *)
Fixpoint from_dict_loop (d : gmap string json) (args : list key_arg)
    (param_vals : list json) : result (list json) :=
  match args with
  | [] => ret param_vals
  | arg :: rest =>
      match d !! param_of arg with
      | None => raise ParameterError
      | Some param_val =>
          if negb (validator_of arg param_val) then raise InvalidParameter
          else from_dict_loop d rest (param_vals ++ [param_val])
      end
  end.

(** [get_parameters_from_dict(data, *args)] *)
Definition get_parameters_from_dict (d : gmap string json) (args : list key_arg)
    : result (list json) :=
  from_dict_loop d args [].

(** The loop of [get_parameters_from_sequence] over the items and their
    validators; an entry [None] of [validators] accepts every value.  The
    statement [param_vals += ( *param_vals, param_val)] appends to the
    tuple a copy of itself followed by the value. *)
Fixpoint from_sequence_loop (items : list (json * option (json -> bool)))
    (param_vals : list json) : result (list json) :=
  match items with
  | [] => ret param_vals
  | (param_val, validator) :: rest =>
      let validator := default (fun _ => true) validator in
      if negb (validator param_val) then raise InvalidParameter
      else from_sequence_loop rest (param_vals ++ (param_vals ++ [param_val]))
  end.

(** [get_parameters_from_sequence(data, validators=[])] *)
Definition get_parameters_from_sequence (l : list json)
    (validators : list (option (json -> bool))) : result (list json) :=
  if (List.length validators =? 0)%nat then ret l
  else if negb (List.length l =? List.length validators)%nat then raise ParameterError
  else from_sequence_loop (combine l validators) [].

(** The positional arguments after [data]: keys for a dictionary, or at
    most one list of validators for a sequence. *)
Inductive arguments : Type :=
  | Keys (args : list key_arg)
  | Validators (validators : option (list (option (json -> bool)))).

(** [get_parameters(data, *args)].  For a list or a tuple the first
    statement evaluates [len(args == 0)], the length of a truth value,
    which raises [TypeError].  A dictionary given a list of validators
    looks the list up as a key, which raises [TypeError] as well. *)
Definition get_parameters (d : data) (args : arguments) : result_more (list json) :=
  match d with
  | DataList _ | DataTuple _ => more (raise TypeError)
  | DataDict m =>
      match args with
      | Keys args => more (get_parameters_from_dict m args)
      | Validators None => more (get_parameters_from_dict m [])
      | Validators (Some _) => more (raise TypeError)
      end
  | DataOther => raise_more NotImplementedError
  end.

(** [is_type(type_)] for the type [str]. *)
Definition is_str (x : json) : bool :=
  match x with
  | JStr _ => true
  | _ => false
  end.

End Parameters.

Inductive ServerState : Type := NEW | INITIALIZED | CLOSED | LIVE | OPEN.

#[global] Instance ServerState_eq_dec : EqDecision ServerState.
Proof. solve_decision. Defined.

Module ServerState_.

(** [list(ServerState).index(s)]: the order of definition, which
    [__lt__] compares. *)
Definition index (s : ServerState) : nat :=
  match s with
  | NEW => 0 | INITIALIZED => 1 | CLOSED => 2 | LIVE => 3 | OPEN => 4
  end.

Definition lt (a b : ServerState) : bool := (index a <? index b)%nat.
(** [a >= b], as [functools.total_ordering] derives it from [__lt__]. *)
Definition ge (a b : ServerState) : bool := negb (lt a b).

(** [ServerState.<name>]: attribute access on the enumeration; a name
    that is not a member raises [AttributeError]. *)
Definition getattr (name : string) : result ServerState :=
  if String.eqb name "NEW" then ret NEW
  else if String.eqb name "INITIALIZED" then ret INITIALIZED
  else if String.eqb name "CLOSED" then ret CLOSED
  else if String.eqb name "LIVE" then ret LIVE
  else if String.eqb name "OPEN" then ret OPEN
  else raise AttributeError.

End ServerState_.

(** The JSON body the broker posts to the peer's control endpoint. *)
Record notification : Type := Notification
  { n_sess_token : string;
    n_peer_id : string;
    n_socket_endpoint : Endpoint.t;
    n_conn_token : option string }.

Module SocketAPI.

(** The class attributes of [SocketAPI] ([video_chat_server], a reference
    back to the server, is left out).  [users] maps an id to the [User]
    stored by [init] or to the session token stored by [on_connect]. *)
Record t : Type := mk
  { state : ServerState;
    endpoint : option Endpoint.t;
    conn_token : option string;
    users : gmap string (User.t + string);
    instance : bool }.

(** The class as the module defines it. *)
Definition fresh : t := mk NEW None None ∅ false.

Definition set_state (c : t) (s : ServerState) : t :=
  mk s (endpoint c) (conn_token c) (users c) (instance c).
Definition set_endpoint (c : t) (e : option Endpoint.t) : t :=
  mk (state c) e (conn_token c) (users c) (instance c).
Definition set_conn_token (c : t) (k : option string) : t :=
  mk (state c) (endpoint c) k (users c) (instance c).
Definition set_user (c : t) (user_id : string) (v : User.t + string) : t :=
  mk (state c) (endpoint c) (conn_token c) (<[user_id := v]> (users c)) (instance c).
Definition set_instance (c : t) : t :=
  mk (state c) (endpoint c) (conn_token c) (users c) true.

(** [bytes(a ^ b for a, b in zip(x, y))] *)
Fixpoint zip_xor_bytes (x y : bytes) : bytes :=
  match x, y with
  | a :: x', b :: y' => Z.lxor a b :: zip_xor_bytes x' y'
  | _, _ => []
  end.

(** [generate_conn_token(users)] *)
Definition generate_conn_token (users : User.t * User.t) : string :=
  Sha256.hexdigest
    (zip_xor_bytes (encode (User.id (fst users))) (encode (User.id (snd users)))).

(** [generate_sess_token(user_id)] *)
Definition generate_sess_token (user_id : string) : string :=
  Sha256.hexdigest (encode user_id).

(** [init(server, users)], with [websocket_endpoint] the attribute of
    [server] it reads.  The statements run in the order of the source:
    the state check, the assignments of [endpoint] and [conn_token], then
    [cls.state = ServerState.INIT] and what follows it. *)
Definition init (websocket_endpoint : option Endpoint.t)
    (users : User.t * User.t) : M t unit :=
  let* cls := st_get in
  if ServerState_.ge (state cls) LIVE then st_raise ServerError
  else
    let* cls := st_get in
    st_put (set_endpoint cls websocket_endpoint) >>
    let* cls := st_get in
    st_put (set_conn_token cls (Some (generate_conn_token users))) >>
    let* st := st_lift (ServerState_.getattr "INIT") in
    let* cls := st_get in
    st_put (set_state cls st) >>
    let* cls := st_get in
    st_put (set_user cls (User.id (fst users)) (inl (fst users))) >>
    let* cls := st_get in
    st_put (set_user cls (User.id (snd users)) (inl (snd users))) >>
    let* cls := st_get in
    st_put (set_instance cls).

(** [verify_connection(auth)] *)
Definition verify_connection (cls : t) (auth : string * string) : bool :=
  let '(user_id, conn_token) := auth in
  if bool_decide (users cls !! user_id = None) then false
  else if negb (bool_decide (Some conn_token = SocketAPI.conn_token cls)) then false
  else true.

(** [on_connect(auth)]: [ret None] refuses the connection (the handler
    returns [False]); [ret (Some tok)] accepts it and emits [tok]. *)
Definition on_connect (auth : string * string) : M t (option string) :=
  let* cls := st_get in
  if negb (bool_decide (state cls = LIVE)) then st_ret None
  else if negb (verify_connection cls auth) then st_ret None
  else
    let sess_token := generate_sess_token (fst auth) in
    st_put (set_user cls (fst auth) (inr sess_token)) >>
    st_ret (Some sess_token).


(** [verify_sess_token(user_id, sess_token)]: the stored value is the
    token [on_connect] stored, or still the [User] that [init] stored,
    which no string equals. *)
Definition verify_sess_token (user_id sess_token : string) : M t bool :=
  let* cls := st_get in
  match users cls !! user_id with
  | None => st_raise UserNotFound
  | Some (inl _) => st_ret false
  | Some (inr token) => st_ret (String.eqb sess_token token)
  end.

(** [on_message(auth, msg)]: [ret (Some (user_id, msg))] is the pair sent
    to every client, [ret None] a message dropped. *)
Definition on_message (auth : string * string) (msg : string)
    : M t (option (string * string)) :=
  let '(user_id, sess_token) := auth in
  let* ok := verify_sess_token user_id sess_token in
  if negb ok then st_ret None
  else st_ret (Some (user_id, msg)).

(** [kill()]; [socketio.stop()] is taken to return. *)
Definition kill : M t unit :=
  let* cls := st_get in
  if negb (bool_decide (state cls = LIVE) || bool_decide (state cls = OPEN))
  then st_raise ServerError
  else
    let* st := st_lift (ServerState_.getattr "INIT") in
    let* cls := st_get in
    st_put (set_state cls st).

(** How the blocking call [socketio.run] ends: the server terminates, the
    address cannot be bound ([OSError], the one class [run] catches), or
    another exception is raised. *)
Inductive served : Type :=
  | Terminated
  | BindFailed
  | Failed (e : exn).

Section Run.

(** [cls.socketio.run(cls.app, host=..., port=...)] *)
Variable socketio_run : string -> Z -> served.

(** [run()], the body of the thread; registering the namespaces is taken
    to return.  In the [except OSError] branch the statements run in the
    order of the source: [cls.state = ServerState.INIT], then the call of
    [set_websocket_endpoint] on the server, a method that only the
    builder declares, so that [continue] is never reached and the loop
    body runs at most once. *)
Definition run : M t unit :=
  let* cls := st_get in
  if bool_decide (state cls = NEW) then st_raise ServerError
  else if bool_decide (state cls = LIVE) || bool_decide (state cls = OPEN)
  then st_raise ServerError
  else
    st_put (set_state cls LIVE) >>
    let* cls := st_get in
    match endpoint cls with
    | None => st_raise AttributeError
    | Some ep =>
        match socketio_run (Endpoint.ip ep) (Endpoint.port ep) with
        | Terminated => st_ret tt
        | Failed e => st_raise e
        | BindFailed =>
            let* st := st_lift (ServerState_.getattr "INIT") in
            let* cls := st_get in
            st_put (set_state cls st) >>
            st_raise AttributeError
        end
    end.

End Run.

End SocketAPI.

Module VideoChatServer.

(** The attributes of a [VideoChatServer] the broker reads and writes,
    with the class attributes of its [socket_api_class]. *)
Record t : Type := mk
  { websocket_endpoint : option Endpoint.t;
    user_manager : gmap string (option User.t);
    socket_api_class : SocketAPI.t }.

(** Run a method of the user manager on the server's registry. *)
Definition on_user_manager {A} (m : M storage A) : M t A :=
  fun w =>
    let '(r, users) := m (user_manager w) in
    (r, mk (websocket_endpoint w) users (socket_api_class w)).

(** Run a class method of [SocketAPI]. *)
Definition on_socket_api {A} (m : M SocketAPI.t A) : M t A :=
  fun w =>
    let '(r, cls) := m (socket_api_class w) in
    (r, mk (websocket_endpoint w) (user_manager w) cls).

(** [get_user_by_id(user_id)]: the method calls
    [self.user_manager.get_user_by_id(user_id)], and [UserManager] declares
    no method of that name (its lookup is [get_user]), so the attribute
    access raises [AttributeError]; the clause [except UserNotFound] of
    the method does not catch it. *)
Definition get_user_by_id (user_id : string) : M t User.t :=
  st_raise AttributeError.

Definition set_user_state (user_id : string) (state : UserState)
    (peer : option string) : M t unit :=
  on_user_manager (UserManager.set_user_state user_id state peer).

(** [user_id, sess_token = s]: unpacking a string into two names. *)
Definition unpack_pair (s : string) : result (string * string) :=
  match list_ascii_of_string s with
  | [a; b] => ret (String a EmptyString, String b EmptyString)
  | _ => raise ValueError
  end.

(** [add_user(endpoint)]: calls [self.user_manager.add_user(endpoint)],
    one positional argument, and unpacks what it returns. *)
Definition add_user (draw : string) (endpoint : json_endpoint)
    : M t (string * string) :=
  let* r := on_user_manager (UserManager.add_user draw 1) in
  st_lift (unpack_pair r).

Section Broker.

(** [requests.post(str(endpoint(route)), json=json)]: the network's
    answer, an exception or the status code of the response, as a function
    of the user's endpoint, the route and the body. *)
Variable post : Endpoint.t -> string -> notification -> result Z.

(** [contact_client(user_id, route, json)] *)
Definition contact_client (user_id : string) (route : string)
    (json : notification) : M t Z :=
  let* user := get_user_by_id user_id in
  st_lift (post (User.api_endpoint user) route json).

(** [start_websocket(users)].  [SocketAPI.init] runs in the calling
    thread; [start()] then hands [run] to a new thread, which is not
    modelled. *)
Definition start_websocket (users : User.t * User.t) : M t unit :=
  let* self := st_get in
  match websocket_endpoint self with
  | None => st_raise ServerError
  | Some _ =>
      on_socket_api (SocketAPI.init (websocket_endpoint self) users)
  end.

(** [except UserNotFound: raise BadRequest(...)] *)
Definition not_found_is_bad_request {A} (e : exn) : M t A :=
  match e with
  | UserNotFound => st_raise BadRequest
  | _ => st_raise e
  end.

(** [handle_peer_connection(user_id, peer_id)] *)
Definition handle_peer_connection (user_id peer_id : string)
    : M t (option Endpoint.t * option string) :=
  if String.eqb user_id peer_id then st_raise BadRequest
  else
    let* requester := st_catch (get_user_by_id user_id) not_found_is_bad_request in
    let* host := st_catch (get_user_by_id peer_id) not_found_is_bad_request in
    if negb (bool_decide (User.state host = IDLE)) then st_raise InvalidState
    else if negb (bool_decide (User.state requester = IDLE)) then st_raise InvalidState
    else
      start_websocket (requester, host) >>
      let* self := st_get in
      let* response :=
        st_catch
          (match websocket_endpoint self with
           | None => st_raise TypeError
           | Some ep =>
               contact_client peer_id "/peer_connection"
                 (Notification (User.sess_token host) (User.id requester) ep
                    (SocketAPI.conn_token (socket_api_class self)))
           end)
          (fun _ => st_raise BadGateway) in
      if negb (response =? 200) then st_raise BadGateway
      else
        let* self := st_get in
        st_ret (websocket_endpoint self,
                SocketAPI.conn_token (socket_api_class self)).

End Broker.

(** [remove_user(user_id)]: the user manager has logged and dropped
    [UserNotFound] already. *)
Definition remove_user (user_id : string) : M t unit :=
  on_user_manager (UserManager.remove_user user_id).

End VideoChatServer.

(** [VideoChatServerBuilder] and the life-cycle state of the server it
    builds. *)
Module VideoChatServerBuilder.

(** The attributes of the server under construction that the builder
    checks; each is [None] until its setter has run. *)
Record t : Type := mk
  { server_state : ServerState;
    api_endpoint : option Endpoint.t;
    websocket_endpoint : option Endpoint.t;
    user_manager : option storage }.

(** [VideoChatServer.__init__] *)
Definition init : t := mk NEW None None None.

(** What [set_server_state] evaluates to: [None], or the exception
    object that the method returns without raising it. *)
Inductive returned : Type :=
  | ReturnedNone
  | ReturnedNotImplementedError.

(** [set_server_state(state)] *)
Definition set_server_state (state : ServerState) (self : t) : returned * t :=
  if ServerState_.lt state (server_state self)
  then (ReturnedNotImplementedError, self)
  else (ReturnedNone,
        mk state (api_endpoint self) (websocket_endpoint self) (user_manager self)).

(** [build()]: the server, or [BaseException]. *)
Definition build (self : t) : exn_more + t :=
  if negb (bool_decide (server_state self = NEW)) then inl BaseException
  else if bool_decide (api_endpoint self = None) then inl BaseException
  else if bool_decide (websocket_endpoint self = None) then inl BaseException
  else if bool_decide (user_manager self = None) then inl BaseException
  else inr (snd (set_server_state INITIALIZED self)).

End VideoChatServerBuilder.

Module APIState.

Inductive t : Type := INIT | IDLE | LIVE.

#[global] Instance eq_dec : EqDecision t.
Proof. solve_decision. Defined.

End APIState.

Module ServerAPI.

(** A response: the JSON body and the status code. *)
Definition response : Type := (list (string * json) * Z)%type.

Section Handlers.

(** What an [except] branch of [HandleExceptions] evaluates to for a
    handled exception ([jsonify] and [remove_last_period] belong to
    modules outside the sources). *)
Variable error_response : exn -> result response.

(** The decorator [HandleExceptions]: four exception classes are turned
    into a response, every other exception leaves the handler. *)
Definition HandleExceptions (endpoint_handler : M VideoChatServer.t response)
    : M VideoChatServer.t response :=
  st_catch endpoint_handler
    (fun e =>
       match e with
       | BadAuthentication | BadRequest | ServerError | BadGateway =>
           st_lift (error_response e)
       | _ => st_raise e
       end).

(** The global [request] that the handlers read: the module imports
    [Flask] and [jsonify] from [flask] and never binds the name [request],
    so evaluating [request.json] raises [NameError]. *)
Definition request_json : result (gmap string json) := raise NameError.

(** [create_user()], with [draw] the characters the id generator
    picks. *)
Definition create_user (draw : string) : M VideoChatServer.t response :=
  HandleExceptions
    (let* request_json := st_lift request_json in
     let* params := st_lift (get_parameters request_json ["api_endpoint"%string]) in
     match params with
     | [api_endpoint] =>
         let* endpoint := st_lift (endpoint_of_json api_endpoint) in
         let* ids := VideoChatServer.add_user draw endpoint in
         st_ret ([("sess_token"%string, JStr (snd ids));
                  ("user_id"%string, JStr (fst ids))], 200)
     | _ => st_raise ValueError
     end).

End Handlers.

(** The class attributes of [ServerAPI] that [init], [start] and [kill]
    read and write.  [http_server] is [None] until [start] has created a
    server; a server is told by the address it was created for. *)
Record cls : Type := Cls
  { state : APIState.t;
    endpoint : option Endpoint.t;
    http_server : option (list Endpoint.item) }.

(** The class as the module defines it. *)
Definition fresh : cls := Cls APIState.INIT None None.

(** [init(server)], with [api_endpoint] the attribute of [server] it
    reads. *)
Definition init (api_endpoint : option Endpoint.t) : M cls unit :=
  let* c := st_get in
  if bool_decide (state c = APIState.LIVE) then st_raise ServerError
  else st_put (Cls APIState.IDLE api_endpoint (http_server c)).

Section Serving.

(** [WSGIServer(address, app)], which returns the server or raises, and
    [http_server.serve_forever()], the blocking call, which returns once
    the server is stopped or raises. *)
Variable WSGIServer : list Endpoint.item -> result unit.
Variable serve_forever : list Endpoint.item -> result unit.

(** [start()].  The state is assigned first; [tuple(None)] raises
    [TypeError]; the server is assigned to [http_server] once the
    constructor has returned. *)
Definition start : M cls unit :=
  let* c := st_get in
  if bool_decide (state c = APIState.INIT) then st_raise ServerError
  else if bool_decide (state c = APIState.LIVE) then st_raise ServerError
  else
    st_put (Cls APIState.LIVE (endpoint c) (http_server c)) >>
    match endpoint c with
    | None => st_raise TypeError
    | Some ep =>
        let address := Endpoint.iter (Endpoint.to_object ep) in
        st_lift (WSGIServer address) >>
        st_put (Cls APIState.LIVE (endpoint c) (Some address)) >>
        st_lift (serve_forever address)
    end.

End Serving.

(** [kill()].  [cls.http_server.stop()] on the [None] the class starts
    with raises [AttributeError]; on a server it is taken to return. *)
Definition kill : M cls unit :=
  let* c := st_get in
  if negb (bool_decide (state c = APIState.LIVE)) then st_raise ServerError
  else
    match http_server c with
    | None => st_raise AttributeError
    | Some _ => st_put (Cls APIState.IDLE (endpoint c) (http_server c))
    end.

End ServerAPI.

(** ** [av_controller.py]: the key-generation loop *)

Module AVController.

(** The variables of [gen_keys]: the local [key_idx] and the attribute
    [self.keys]. *)
Record t : Type := mk { key_idx : Z; keys : list pyval }.

(** [self.keys = []] and [key_idx = 0] *)
Definition init : t := mk 0 [].

Section GenKeys.

(** The key generator comes from [client.encryption], which is not among
    the sources: [key_gen n] is the bit array [get_key()] returns after
    the [n]-th call of [generate_key(key_length=128)]. *)
Variable key_gen : nat -> bitarray.

(** One turn of the [while True] loop:
    [self.keys += (key_idx, self.key_gen.get_key().tobytes())] extends the
    list by the two elements of the tuple, then [key_idx += 1]. *)
Definition gen_keys_step (n : nat) (s : t) : t :=
  mk (key_idx s + 1)
     (keys s ++ [PyInt (key_idx s); PyBytes (Bitarray.tobytes (key_gen n))]).

(** The loop after [n] turns. *)
Fixpoint gen_keys (n : nat) : t :=
  match n with
  | O => init
  | S n' => gen_keys_step n' (gen_keys n')
  end.

End GenKeys.

End AVController.

(** ** [audio_namespace.py] and [video_namespace.py]: the receive handlers

    The handlers first call [on_message] of their base class
    ([base_namespaces.py], not among the sources), taken to return
    normally. *)

Module AudioClientNamespace.

Section OnMessage.

(** [self.av_controller.encryption.decrypt], an object of the absent
    module [client.encryption]. *)
Variable decrypt : bytes -> pyval -> result bytes.

(** [x[1]] on an element of the key list. *)
Definition subscript_1 (v : pyval) : result pyval :=
  match v with
  | PyInt _ => raise TypeError
  | PyBytes b => let! x := py_index b 1 in ret (PyInt x)
  end.

(** [on_message(user_id, msg)].  [ret None]: the handler returns without
    writing to the output stream; [ret (Some data)]: [data] is written to
    the stream; [raise e]: [e] leaves the handler. *)
Definition on_message (own_id : string) (keys : list pyval)
    (user_id : string) (msg : bytes) : result (option bytes) :=
  if String.eqb user_id own_id then ret None
  else
    let key_idx := from_bytes_big (firstn 4 msg) in
    let! entry := py_index keys key_idx in
    let! key := subscript_1 entry in
    let data := skipn 4 msg in
    let! data := decrypt data key in
    ret (Some data).

End OnMessage.

End AudioClientNamespace.

Module VideoClientNamespace.

Section OnMessage.

(** [self.av.encryption.decrypt] and the decoding of the decrypted payload
    into a frame ([self.output.run] of ffmpeg, then
    [np.frombuffer(...).reshape(...)]): external collaborators. *)
Variable decrypt : bytes -> bytes -> result bytes.
Variable decode : bytes -> result bytes.

(** [on_message(user_id, msg)], with [av_key] the pair [self.av.key].
    [ret (Some frame)]: [frame] is stored in [self.cls.video[user_id]];
    [ret None]: the handler returns without storing anything. *)
Definition on_message (own_id : string) (av_key : Z * bytes)
    (user_id : string) (msg : bytes) : result (option bytes) :=
  if String.eqb user_id own_id then ret None
  else
    let '(cur_key_idx, key) := av_key in
    let key_idx := from_bytes_big (firstn 4 msg) in
    if negb (key_idx =? cur_key_idx) then ret None
    else
      let data := skipn 4 msg in
      let! data := decrypt data key in
      let! data := decode data in
      ret (Some data).

End OnMessage.

Section Send.

(** [self.av.encryption.encrypt], an external collaborator as [decrypt]
    is. *)
Variable encrypt : bytes -> bytes -> result bytes.

(** [x.to_bytes(4, 'big')]: a negative number and a number of more than
    32 bits raise [OverflowError]. *)
Definition to_bytes_4 (x : Z) : result_more bytes :=
  if (x <? 0) || (2 ^ 32 <=? x) then raise_more OverflowError
  else inr (to_bytes_big 4 x).

(** One turn of the loop of [send_video], from the encoded frame [data]:
    the message handed to [self.send]. *)
Definition send_video_message (av_key : Z * bytes) (data : bytes)
    : result_more bytes :=
  let '(cur_key_idx, key) := av_key in
  match more (encrypt data key) with
  | inl e => inl e
  | inr data =>
      match to_bytes_4 cur_key_idx with
      | inl e => inl e
      | inr header => inr (header ++ data)
      end
  end.

End Send.

End VideoClientNamespace.

(** * Part II: test vectors and properties *)

(** ** Test vectors for the library models *)

Definition hex_range (from count : nat) : bytes := map Z.of_nat (seq from count).

Example sha256_constants :
  nth 0 Sha256.K 0 = 0x428a2f98 /\ nth 63 Sha256.K 0 = 0xc67178f2
  /\ nth 0 Sha256.H0 0 = 0x6a09e667 /\ nth 7 Sha256.H0 0 = 0x5be0cd19.
Proof. vm_compute. repeat split; reflexivity. Qed.

Example sha256_abc :
  Sha256.hexdigest (encode "abc")
  = "ba7816bf8f01cfea414140de5dae2223b00361a396177a9cb410ff61f20015ad"%string.
Proof. vm_compute. reflexivity. Qed.

Example sha256_two_blocks :
  Sha256.hexdigest (repeat 97 100)
  = "2816597888e4a0d3a36b82b83316ab32680eb8f00f8cd3b904d681246d285a0e"%string.
Proof. vm_compute. reflexivity. Qed.

Example tobytes_partial_byte :
  Bitarray.tobytes [true; false; true; true; false; false; false; false; true; true]
  = [0xb0; 0xc0].
Proof. vm_compute. reflexivity. Qed.

Example aes128_fips197 :
  Aes.encrypt_block (hex_range 0 16)
    [0x00; 0x11; 0x22; 0x33; 0x44; 0x55; 0x66; 0x77;
     0x88; 0x99; 0xaa; 0xbb; 0xcc; 0xdd; 0xee; 0xff]
  = [0x69; 0xc4; 0xe0; 0xd8; 0x6a; 0x7b; 0x04; 0x30;
     0xd8; 0xcd; 0xb7; 0x80; 0x70; 0xb4; 0xc5; 0x5a].
Proof. vm_compute. reflexivity. Qed.

Example aes192_fips197 :
  Aes.encrypt_block (hex_range 0 24)
    [0x00; 0x11; 0x22; 0x33; 0x44; 0x55; 0x66; 0x77;
     0x88; 0x99; 0xaa; 0xbb; 0xcc; 0xdd; 0xee; 0xff]
  = [0xdd; 0xa9; 0x7c; 0xa4; 0x86; 0x4c; 0xdf; 0xe0;
     0x6e; 0xaf; 0x70; 0xa0; 0xec; 0x0d; 0x71; 0x91].
Proof. vm_compute. reflexivity. Qed.

Example aes256_fips197 :
  Aes.encrypt_block (hex_range 0 32)
    [0x00; 0x11; 0x22; 0x33; 0x44; 0x55; 0x66; 0x77;
     0x88; 0x99; 0xaa; 0xbb; 0xcc; 0xdd; 0xee; 0xff]
  = [0x8e; 0xa2; 0xb7; 0xca; 0x51; 0x67; 0x45; 0xbf;
     0xea; 0xfc; 0x49; 0x90; 0x4b; 0x49; 0x60; 0x89].
Proof. vm_compute. reflexivity. Qed.

Example aes128_fips197_inverse :
  Aes.decrypt_block (hex_range 0 16)
    [0x69; 0xc4; 0xe0; 0xd8; 0x6a; 0x7b; 0x04; 0x30;
     0xd8; 0xcd; 0xb7; 0x80; 0x70; 0xb4; 0xc5; 0x5a]
  = [0x00; 0x11; 0x22; 0x33; 0x44; 0x55; 0x66; 0x77;
     0x88; 0x99; 0xaa; 0xbb; 0xcc; 0xdd; 0xee; 0xff].
Proof. vm_compute. reflexivity. Qed.

Example cbc_aes128_hello :
  AESEncryption.encrypt (hex_range 16 16)
    (Bitarray.frombytes (encode "hello")) (Bitarray.frombytes (hex_range 0 16))
  = ret (Bitarray.frombytes
           (hex_range 16 16 ++ [0x32; 0xf6; 0xd6; 0xea; 0x1e; 0xc8; 0x87; 0x2d;
              0xeb; 0xcc; 0xea; 0x85; 0x96; 0xd9; 0xc3; 0xc3])).
Proof. vm_compute. reflexivity. Qed.

Example cbc_aes256_three_blocks :
  AESEncryption.encrypt (hex_range 16 16)
    (Bitarray.frombytes (encode "sixteen byte msgsixteen byte msg!"))
    (Bitarray.frombytes (hex_range 0 32))
  = ret (Bitarray.frombytes
           (hex_range 16 16 ++ [0x46; 0x5d; 0x53; 0x5a; 0x92; 0x0d; 0xdb; 0x68;
              0xab; 0xd6; 0x0d; 0xff; 0xea; 0xac; 0xb2; 0x88;
              0x46; 0x63; 0xc8; 0x16; 0x1a; 0x52; 0x52; 0x88;
              0x71; 0x10; 0xfb; 0xff; 0x9c; 0x97; 0xc7; 0x89;
              0x4e; 0x0e; 0x7f; 0x28; 0x8f; 0x0c; 0x2d; 0xb6;
              0xae; 0x9c; 0x70; 0xc4; 0x7f; 0xd9; 0x5c; 0xd5])).
Proof. vm_compute. reflexivity. Qed.

Example cbc_aes128_hello_back :
  AESEncryption.decrypt
    (Bitarray.frombytes
       (hex_range 16 16 ++ [0x32; 0xf6; 0xd6; 0xea; 0x1e; 0xc8; 0x87; 0x2d;
              0xeb; 0xcc; 0xea; 0x85; 0x96; 0xd9; 0xc3; 0xc3]))
    (Bitarray.frombytes (hex_range 0 16))
  = ret (Bitarray.frombytes (encode "hello")).
Proof. vm_compute. reflexivity. Qed.

(** ** The XOR codec *)

Lemma zip_xor_length (data key : bitarray) :
  List.length (XOREncryption.zip_xor data key)
  = Nat.min (List.length data) (List.length key).
Proof.
  revert key; induction data as [|b data IH]; intros [|c key]; simpl; auto.
Qed.

Lemma zip_xor_twice (data key : bitarray) :
  (List.length data <= List.length key)%nat ->
  XOREncryption.zip_xor (XOREncryption.zip_xor data key) key = data.
Proof.
  revert key; induction data as [|b data IH]; intros [|c key] Hlen; simpl in *.
  - reflexivity.
  - reflexivity.
  - lia.
  - rewrite IH by lia. f_equal. destruct b, c; reflexivity.
Qed.

(** C9.  For every payload [p] and key [k] with [len(k) >= len(p)],
    [XOREncryption.decrypt(XOREncryption.encrypt(p, k), k) == p]; and
    [encrypt] and [decrypt] are the same operation on every pair of
    arguments. *)
Theorem xor_roundtrip (p k : bitarray) :
  (List.length p <= List.length k)%nat ->
  XOREncryption.decrypt (XOREncryption.encrypt p k) k = p
  /\ (forall data key : bitarray,
        XOREncryption.encrypt data key = XOREncryption.decrypt data key).
Proof.
  intros Hlen. split.
  - unfold XOREncryption.decrypt, XOREncryption.encrypt.
    now apply zip_xor_twice.
  - intros data key. reflexivity.
Qed.

Lemma xor_roundtrip_witness :
  (List.length [true; false; true] <= List.length [false; false; true; true])%nat
  /\ XOREncryption.decrypt
       (XOREncryption.encrypt [true; false; true] [false; false; true; true])
       [false; false; true; true] = [true; false; true].
Proof.
  split; [simpl; lia|].
  apply (xor_roundtrip [true; false; true] [false; false; true; true]).
  simpl; lia.
Defined.

(** ** Tokens *)

Example conn_token_ab3f9_k0z12 :
  forall ua ub, User.id ua = "ab3f9"%string -> User.id ub = "k0z12"%string ->
  SocketAPI.generate_conn_token (ua, ub)
  = "4e25a44a2a1dfe723b2342cd60ae8e319d016e783c293e0a352a4959a48f7995"%string.
Proof.
  intros ua ub Ha Hb. unfold SocketAPI.generate_conn_token; simpl.
  rewrite Ha, Hb. vm_compute. reflexivity.
Qed.

Lemma zip_xor_bytes_comm (x y : bytes) :
  SocketAPI.zip_xor_bytes x y = SocketAPI.zip_xor_bytes y x.
Proof.
  revert y; induction x as [|a x IH]; intros [|b y]; simpl; try reflexivity.
  now rewrite Z.lxor_comm, IH.
Qed.

(** C4.  The connection token is commutative: for all users (hence all
    user-id strings) [a] and [b], [generate_conn_token((a, b))] equals
    [generate_conn_token((b, a))]. *)
Theorem conn_token_commutative (a b : User.t) :
  SocketAPI.generate_conn_token (a, b) = SocketAPI.generate_conn_token (b, a).
Proof.
  unfold SocketAPI.generate_conn_token; simpl.
  f_equal. apply zip_xor_bytes_comm.
Qed.

Lemma on_connect_outcome (auth : string * string) (cls : SocketAPI.t) :
  fst (SocketAPI.on_connect auth cls) = ret None
  \/ fst (SocketAPI.on_connect auth cls)
     = ret (Some (SocketAPI.generate_sess_token (fst auth))).
Proof.
  unfold SocketAPI.on_connect, st_bind, st_get, st_ret, st_put; simpl.
  destruct (negb (bool_decide (SocketAPI.state cls = LIVE))); [now left|].
  destruct (negb (SocketAPI.verify_connection cls auth)); [now left|].
  now right.
Qed.

(** C10.  For every user id, the token the signaling channel issues on
    connect ([SocketAPI.generate_sess_token]) is the registry token
    ([UserManager.generate_token]): both are the SHA-256 hex digest of the
    encoded id, a function of the id alone; and whatever the state of the
    channel, a connection it accepts is answered with that token. *)
Theorem sess_token_is_registry_token (user_id : string) :
  SocketAPI.generate_sess_token user_id = UserManager.generate_token user_id
  /\ SocketAPI.generate_sess_token user_id = Sha256.hexdigest (encode user_id)
  /\ (forall (conn_token : string) (cls : SocketAPI.t),
        fst (SocketAPI.on_connect (user_id, conn_token) cls) = ret None
        \/ fst (SocketAPI.on_connect (user_id, conn_token) cls)
           = ret (Some (UserManager.generate_token user_id))).
Proof.
  split; [reflexivity|]. split; [reflexivity|].
  intros conn_token cls. apply (on_connect_outcome (user_id, conn_token) cls).
Qed.

(** ** The key-generation loop *)



(** The debug generator of [encryption.py] as the loop's key generator:
    every key is the alternating pattern on 128 bits. *)
Definition debug_key_gen (n : nat) : bitarray :=
  DebugKeyGenerator.speficied_keylength 128.

Example debug_key_bytes :
  Bitarray.tobytes (debug_key_gen 0) = repeat 0x55 16.
Proof. vm_compute. reflexivity. Qed.

Example gen_keys_two_turns :
  AVController.keys (AVController.gen_keys debug_key_gen 2)
  = [PyInt 0; PyBytes (repeat 0x55 16); PyInt 1; PyBytes (repeat 0x55 16)].
Proof. vm_compute. reflexivity. Qed.









(** ** The media receive handlers *)

(** The Debug codec on the [bytes] the handlers pass around. *)
Definition debug_decrypt_audio (data : bytes) (key : pyval) : result bytes := ret data.
Definition debug_decrypt_video (data key : bytes) : result bytes := ret data.
(** A codec that rejects every payload. *)
Definition failing_decrypt (data key : bytes) : result bytes := raise ValueError.

Example audio_frame_index_0 :
  AudioClientNamespace.on_message debug_decrypt_audio "ab3f9"
    (AVController.keys (AVController.gen_keys debug_key_gen 3))
    "k0z12" [0; 0; 0; 0; 1; 2; 3] = raise TypeError.
Proof. vm_compute. reflexivity. Qed.

Example audio_frame_index_1 :
  AudioClientNamespace.on_message debug_decrypt_audio "ab3f9"
    (AVController.keys (AVController.gen_keys debug_key_gen 3))
    "k0z12" [0; 0; 0; 1; 1; 2; 3] = ret (Some [1; 2; 3]).
Proof. vm_compute. reflexivity. Qed.

Example video_frame_other_index :
  VideoClientNamespace.on_message debug_decrypt_video ret "ab3f9"
    (2, repeat 0x55 16) "k0z12" [0; 0; 0; 1; 1; 2; 3] = ret None.
Proof. vm_compute. reflexivity. Qed.

Example video_frame_current_index :
  VideoClientNamespace.on_message debug_decrypt_video ret "ab3f9"
    (2, repeat 0x55 16) "k0z12" [0; 0; 0; 2; 1; 2; 3] = ret (Some [1; 2; 3]).
Proof. vm_compute. reflexivity. Qed.

(** C5 as stated fails: a frame whose key index is beyond the stored keys
    makes the audio handler raise [IndexError], and a frame whose
    decryption raises makes the video handler raise the same error; neither
    is dropped silently. *)
Lemma media_receive_raises :
  AudioClientNamespace.on_message debug_decrypt_audio "ab3f9"
    (AVController.keys (AVController.gen_keys debug_key_gen 3))
    "k0z12" [0; 0; 0; 7; 1; 2; 3] = raise IndexError
  /\ VideoClientNamespace.on_message failing_decrypt ret "ab3f9"
       (2, repeat 0x55 16) "k0z12" [0; 0; 0; 2; 1; 2; 3] = raise ValueError.
Proof. split; vm_compute; reflexivity. Qed.

Lemma eqb_neq_false (a b : string) : a <> b -> String.eqb a b = false.
Proof. intros H. now apply String.eqb_neq. Qed.

(** C5, as the handlers are written.  The video handler compares the
    frame's 4-byte big-endian index with the current key index only: a
    frame with another index is dropped without error; a frame with the
    current index is decrypted with the current key and, when decryption
    and decoding succeed, delivered; when decryption raises, the error
    leaves the handler and nothing is delivered.  The audio handler makes no
    window check: an index at or beyond the end of the key list raises
    [IndexError]. *)
Theorem media_receive_behaviour :
  (forall decrypt decode own_id cur key user_id msg,
      user_id <> own_id ->
      from_bytes_big (firstn 4 msg) <> cur ->
      VideoClientNamespace.on_message decrypt decode own_id (cur, key) user_id msg
      = ret None)
  /\ (forall decrypt decode own_id cur key user_id msg data frame,
      user_id <> own_id ->
      from_bytes_big (firstn 4 msg) = cur ->
      decrypt (skipn 4 msg) key = ret data ->
      decode data = ret frame ->
      VideoClientNamespace.on_message decrypt decode own_id (cur, key) user_id msg
      = ret (Some frame))
  /\ (forall decrypt decode own_id cur key user_id msg e,
      user_id <> own_id ->
      from_bytes_big (firstn 4 msg) = cur ->
      decrypt (skipn 4 msg) key = raise e ->
      VideoClientNamespace.on_message decrypt decode own_id (cur, key) user_id msg
      = raise e)
  /\ (forall decrypt own_id keys user_id msg,
      user_id <> own_id ->
      Z.of_nat (List.length keys) <= from_bytes_big (firstn 4 msg) ->
      AudioClientNamespace.on_message decrypt own_id keys user_id msg
      = raise IndexError).
Proof.
  repeat split.
  - intros decrypt decode own_id cur key user_id msg Hid Hidx.
    unfold VideoClientNamespace.on_message.
    rewrite (eqb_neq_false _ _ Hid).
    destruct (Z.eqb_spec (from_bytes_big (firstn 4 msg)) cur); [contradiction|].
    reflexivity.
  - intros decrypt decode own_id cur key user_id msg data frame Hid Hidx Hd Hf.
    unfold VideoClientNamespace.on_message.
    rewrite (eqb_neq_false _ _ Hid), Hidx, Z.eqb_refl. simpl.
    rewrite Hd. simpl. rewrite Hf. reflexivity.
  - intros decrypt decode own_id cur key user_id msg e Hid Hidx Hd.
    unfold VideoClientNamespace.on_message.
    rewrite (eqb_neq_false _ _ Hid), Hidx, Z.eqb_refl. simpl.
    rewrite Hd. reflexivity.
  - intros decrypt own_id keys user_id msg Hid Hlen.
    unfold AudioClientNamespace.on_message.
    rewrite (eqb_neq_false _ _ Hid).
    unfold py_index. rewrite lookup_ge_None_2 by lia. reflexivity.
Qed.

(** ** The broker *)

Lemma st_bind_run {W A B} (m : M W A) (k : A -> M W B) (w : W) :
  st_bind m k w = match m w with
                | (inl e, w') => (inl e, w')
                | (inr a, w') => k a w'
                end.
Proof. reflexivity. Qed.

Lemma st_catch_run {W A} (m : M W A) (h : exn -> M W A) (w : W) :
  st_catch m h w = match m w with
                 | (inl e, w') => h e w'
                 | (inr a, w') => (inr a, w')
                 end.
Proof. reflexivity. Qed.

Definition endpoint_a : Endpoint.t := Endpoint.init "10.0.0.1" 5001 None.
Definition endpoint_b : Endpoint.t := Endpoint.init "10.0.0.2" 5002 None.

Definition user_a : User.t :=
  User.mk "ab3f9" (UserManager.generate_token "ab3f9") endpoint_a IDLE None.
Definition user_b : User.t :=
  User.mk "k0z12" (UserManager.generate_token "k0z12") endpoint_b IDLE None.

(** Two registered idle users, a configured signaling endpoint, and the
    [SocketAPI] class untouched. *)
Definition server0 : VideoChatServer.t :=
  VideoChatServer.mk
    (Some (Endpoint.init "10.0.0.9" 3000 None))
    (<["k0z12" := Some user_b]> (<["ab3f9" := Some user_a]> ∅))
    SocketAPI.fresh.

(** A peer that accepts every request, and one that cannot be reached. *)
Definition accepting_peer (e : Endpoint.t) (route : string) (n : notification)
    : result Z := ret 200.
Definition unreachable_peer (e : Endpoint.t) (route : string) (n : notification)
    : result Z := raise ConnectionError.

(** The lookup fails whatever the registry holds. *)
Lemma get_user_by_id_run (user_id : string) (w : VideoChatServer.t) :
  VideoChatServer.get_user_by_id user_id w = (raise AttributeError, w).
Proof. reflexivity. Qed.

Lemma socket_init_outcome (ep : option Endpoint.t) (users : User.t * User.t)
    (cls : SocketAPI.t) :
  exists e cls', SocketAPI.init ep users cls = (raise e, cls')
                 /\ (e = ServerError \/ e = AttributeError).
Proof.
  unfold SocketAPI.init, st_bind, st_get, st_put, st_raise, st_lift; simpl.
  destruct (ServerState_.ge (SocketAPI.state cls) LIVE).
  - eexists _, _. split; [reflexivity | now left].
  - eexists _, _. split; [reflexivity | now right].
Qed.

Lemma start_websocket_outcome (users : User.t * User.t) (w : VideoChatServer.t) :
  exists e w', VideoChatServer.start_websocket users w = (raise e, w')
               /\ (e = ServerError \/ e = AttributeError)
               /\ VideoChatServer.user_manager w' = VideoChatServer.user_manager w.
Proof.
  destruct w as [ep reg cls].
  unfold VideoChatServer.start_websocket, st_bind, st_get, st_raise; simpl.
  destruct ep as [ep|].
  - unfold VideoChatServer.on_socket_api; simpl.
    destruct (socket_init_outcome (Some ep) users cls) as (e & cls' & Hrun & He).
    rewrite Hrun. eexists _, _. split; [reflexivity|]. split; [exact He | reflexivity].
  - eexists _, _. split; [reflexivity|]. split; [now left | reflexivity].
Qed.

(** The run of the broker by cases: a request of a user for itself is
    refused, and for two different ids the lookup of the requester ends
    the call, before the state checks, [start_websocket] and
    [contact_client]. *)
Lemma handle_peer_connection_run
    (post : Endpoint.t -> string -> notification -> result Z)
    (user_id peer_id : string) (w : VideoChatServer.t) :
  VideoChatServer.handle_peer_connection post user_id peer_id w
  = (if String.eqb user_id peer_id then raise BadRequest else raise AttributeError, w).
Proof.
  unfold VideoChatServer.handle_peer_connection.
  destruct (String.eqb user_id peer_id); [reflexivity|].
  rewrite st_bind_run, st_catch_run, get_user_by_id_run. reflexivity.
Qed.

(** C1, as the broker is written.  Whatever the two users, their states
    and the answer of the peer, [handle_peer_connection] makes no
    transition: the registry after the call is the registry before it, so
    every user keeps the state and the peer it had; no user is moved to
    CONNECTING and no peer is recorded. *)
Theorem peer_connection_makes_no_transition
    (post : Endpoint.t -> string -> notification -> result Z)
    (user_id peer_id : string) (w : VideoChatServer.t) :
  let run := VideoChatServer.handle_peer_connection post user_id peer_id w in
  VideoChatServer.user_manager (snd run) = VideoChatServer.user_manager w
  /\ (forall id u,
        VideoChatServer.user_manager w !! id = Some (Some u) ->
        VideoChatServer.user_manager (snd run) !! id = Some (Some u)).
Proof.
  intros run. subst run. rewrite handle_peer_connection_run. cbn [snd].
  split; [reflexivity|]. intros id u Hu. exact Hu.
Qed.

Definition user_b_connected : User.t :=
  User.mk "k0z12" (UserManager.generate_token "k0z12") endpoint_b CONNECTED (Some "zz999").

Definition server_busy : VideoChatServer.t :=
  VideoChatServer.mk
    (Some (Endpoint.init "10.0.0.9" 3000 None))
    (<["k0z12" := Some user_b_connected]> (<["ab3f9" := Some user_a]> ∅))
    SocketAPI.fresh.

(** C1 as stated fails.  With both users IDLE and a peer that accepts,
    the call does not return the endpoint and the token, and neither user
    leaves IDLE or gets a peer: both records are unchanged.  With a peer
    that is not IDLE the call does not fail with [InvalidState]: it has
    ended with [AttributeError] before the states are looked at. *)
Lemma peer_connection_accept_no_transition :
  let run := VideoChatServer.handle_peer_connection
               accepting_peer "ab3f9" "k0z12" server0 in
  User.state user_a = IDLE /\ User.state user_b = IDLE
  /\ fst run = raise AttributeError
  /\ VideoChatServer.user_manager (snd run) !! "ab3f9" = Some (Some user_a)
  /\ VideoChatServer.user_manager (snd run) !! "k0z12" = Some (Some user_b)
  /\ User.state user_b_connected <> IDLE
  /\ VideoChatServer.handle_peer_connection accepting_peer "ab3f9" "k0z12" server_busy
     = (raise AttributeError, server_busy).
Proof. vm_compute. repeat split; try reflexivity. discriminate. Qed.

(** C2 on the code.  With both users IDLE and a peer that cannot be
    reached, the broker raises [AttributeError], not [BadGateway], and
    leaves the server as it was: the lookup of the requester calls a
    method that the user manager does not have, before the peer is
    contacted.  No run of the broker ends in [BadGateway] or returns;
    every run for two different ids ends in that [AttributeError].  Behind
    it, [start_websocket] never returns either: [SocketAPI.init] assigns
    [ServerState.INIT], which is no member of the enumeration. *)
Theorem peer_unreachable_no_bad_gateway :
  VideoChatServer.handle_peer_connection unreachable_peer "ab3f9" "k0z12" server0
  = (raise AttributeError, server0)
  /\ (forall post user_id peer_id w,
        fst (VideoChatServer.handle_peer_connection post user_id peer_id w)
        <> raise BadGateway)
  /\ (forall post user_id peer_id w v,
        fst (VideoChatServer.handle_peer_connection post user_id peer_id w)
        <> ret v)
  /\ (forall post user_id peer_id w,
        user_id <> peer_id ->
        VideoChatServer.handle_peer_connection post user_id peer_id w
        = (raise AttributeError, w))
  /\ (forall users w,
        exists e w',
          VideoChatServer.start_websocket users w = (raise e, w')
          /\ (e = ServerError \/ e = AttributeError)).
Proof.
  split; [reflexivity|]. split; [|split; [|split]].
  - intros post user_id peer_id w. rewrite handle_peer_connection_run. cbn [fst].
    destruct (String.eqb user_id peer_id); discriminate.
  - intros post user_id peer_id w v. rewrite handle_peer_connection_run. cbn [fst].
    destruct (String.eqb user_id peer_id); discriminate.
  - intros post user_id peer_id w Hne.
    now rewrite handle_peer_connection_run, (eqb_neq_false _ _ Hne).
  - intros users w.
    destruct (start_websocket_outcome users w) as (e & w' & Hrun & He & _).
    eauto.
Qed.

(** ** The [/create_user] handler *)

Definition no_error_response (e : exn) : result ServerAPI.response := raise e.

Definition empty_server : VideoChatServer.t :=
  VideoChatServer.mk (Some (Endpoint.init "10.0.0.9" 3000 None)) ∅ SocketAPI.fresh.

(** The user manager's own [add_user], called as it is declared, returns
    the id alone and stores [None]; no token is generated. *)
Example user_manager_add_user :
  UserManager.add_user "Ab3F9" 0 ∅ = (ret "ab3f9"%string, {[ "ab3f9"%string := None ]}).
Proof. vm_compute. reflexivity. Qed.

(** The endpoint of a request body: a host and a port, a host that is
    not a string, and a value that cannot be unpacked. *)
Example endpoint_of_json_shapes :
  endpoint_of_json (JList [JStr "http://10.0.0.1"; JInt 5001; JStr "/api"])
  = ret (JsonEndpoint "10.0.0.1" (JInt 5001) (Some "api"%string))
  /\ endpoint_of_json (JList [JInt 10; JInt 5001]) = raise AttributeError
  /\ endpoint_of_json (JList [JStr "10.0.0.1"]) = raise TypeError
  /\ endpoint_of_json (JInt 5001) = raise TypeError.
Proof. vm_compute. repeat split; reflexivity. Qed.

(** C3 on the code.  No [POST /create_user] gets the 200 response with
    [user_id] and [sess_token]: the handler reads the request body from
    the name [request], which the module never binds, so it raises
    [NameError] before it looks at the body; [HandleExceptions] does not
    handle it, and no user is stored.  Behind it,
    [VideoChatServer.add_user] raises [TypeError] for every endpoint: it
    passes the endpoint to [UserManager.add_user], which takes no
    argument and returns one id rather than a pair. *)
Theorem create_user_raises_name_error :
  ServerAPI.create_user no_error_response "Ab3F9" empty_server
  = (raise NameError, empty_server)
  /\ (forall error_response draw w,
        ServerAPI.create_user error_response draw w = (raise NameError, w))
  /\ (forall draw endpoint w,
        VideoChatServer.add_user draw endpoint w = (raise TypeError, w)).
Proof.
  split; [reflexivity|]. split.
  - intros error_response draw w. reflexivity.
  - intros draw endpoint [ep reg cls]. reflexivity.
Qed.

(** ** AES-CBC *)

(** *** Proof by enumeration over the bytes *)

Definition all_bytes : list Z := map Z.of_nat (seq 0 256).

Lemma byte_ok_in_all (b : Z) : byte_ok b -> In b all_bytes.
Proof.
  intros [Hlo Hhi]. unfold all_bytes.
  rewrite <- (Z2Nat.id b) by lia.
  apply in_map, in_seq. lia.
Qed.

Lemma forall_bytes (P : Z -> bool) :
  forallb P all_bytes = true -> forall b, byte_ok b -> P b = true.
Proof.
  intros H b Hb. rewrite forallb_forall in H. apply H. now apply byte_ok_in_all.
Qed.

Lemma forall_bytes2 (P : Z -> Z -> bool) :
  forallb (fun a => forallb (P a) all_bytes) all_bytes = true ->
  forall a b, byte_ok a -> byte_ok b -> P a b = true.
Proof.
  intros H a b Ha Hb.
  apply (forall_bytes (P a)); [|exact Hb].
  apply (forall_bytes (fun a => forallb (P a) all_bytes)); assumption.
Qed.

Lemma byte_okb_ok (b : Z) : byte_okb b = true -> byte_ok b.
Proof. unfold byte_okb, byte_ok. lia. Qed.

Lemma lxor_byte_ok (a b : Z) : byte_ok a -> byte_ok b -> byte_ok (Z.lxor a b).
Proof.
  intros Ha Hb. apply byte_okb_ok.
  apply (forall_bytes2 (fun a b => byte_okb (Z.lxor a b))); [|assumption..].
  vm_compute. reflexivity.
Qed.

Lemma land_255_byte_ok (x : Z) : byte_ok (Z.land x 0xff).
Proof.
  change 0xff with (Z.ones 8). rewrite Z.land_ones by lia.
  unfold byte_ok. change (2 ^ 8) with 256. apply Z.mod_pos_bound. lia.
Qed.

Lemma land_255_id (a : Z) : byte_ok a -> Z.land a 0xff = a.
Proof.
  intros Ha. change 0xff with (Z.ones 8). rewrite Z.land_ones by lia.
  apply Z.mod_small. exact Ha.
Qed.

Lemma xor8_involutive (a k : Z) :
  byte_ok a -> Z.land (Z.lxor (Z.land (Z.lxor a k) 0xff) k) 0xff = a.
Proof.
  intros Ha. rewrite <- (land_255_id a Ha) at 2.
  apply Z.bits_inj'. intros n Hn.
  rewrite !Z.land_spec, !Z.lxor_spec, !Z.land_spec, !Z.lxor_spec.
  destruct (Z.testbit a n), (Z.testbit k n), (Z.testbit 255 n); reflexivity.
Qed.

(** *** The steps of a round and their inverses *)

Lemma sub_byte_ok (b : Z) : byte_ok b -> byte_ok (Aes.sub_byte b).
Proof.
  intros Hb. apply byte_okb_ok.
  apply (forall_bytes (fun b => byte_okb (Aes.sub_byte b))); [|exact Hb].
  vm_compute. reflexivity.
Qed.

Lemma inv_sub_byte_sub_byte (b : Z) : byte_ok b -> Aes.inv_sub_byte (Aes.sub_byte b) = b.
Proof.
  intros Hb. apply Z.eqb_eq.
  apply (forall_bytes (fun b => Aes.inv_sub_byte (Aes.sub_byte b) =? b)); [|exact Hb].
  vm_compute. reflexivity.
Qed.

Lemma sub_bytes_ok (s : bytes) : bytes_ok s -> bytes_ok (Aes.sub_bytes s).
Proof.
  unfold bytes_ok, Aes.sub_bytes. intros Hs.
  induction Hs as [|b s Hb Hs IH]; simpl; constructor; auto using sub_byte_ok.
Qed.

Lemma inv_sub_bytes_sub_bytes (s : bytes) :
  bytes_ok s -> Aes.inv_sub_bytes (Aes.sub_bytes s) = s.
Proof.
  unfold bytes_ok, Aes.inv_sub_bytes, Aes.sub_bytes. intros Hs.
  induction Hs as [|b s Hb Hs IH]; simpl; [reflexivity|].
  now rewrite inv_sub_byte_sub_byte, IH.
Qed.

(** A block: sixteen bytes, each in range. *)
Definition block_ok (s : bytes) : Prop := List.length s = 16%nat /\ bytes_ok s.

Lemma block_16 (s : bytes) :
  List.length s = 16%nat ->
  exists s0 s1 s2 s3 s4 s5 s6 s7 s8 s9 s10 s11 s12 s13 s14 s15,
    s = [s0; s1; s2; s3; s4; s5; s6; s7; s8; s9; s10; s11; s12; s13; s14; s15].
Proof.
  intros H.
  do 16 (destruct s as [|? s]; [discriminate H|]).
  destruct s; [|discriminate H].
  repeat eexists.
Qed.

Ltac explode_block s H :=
  let Hlen := fresh "Hlen" in
  let Hok := fresh "Hok" in
  destruct H as [Hlen Hok];
  destruct (block_16 s Hlen)
    as (?s0 & ?s1 & ?s2 & ?s3 & ?s4 & ?s5 & ?s6 & ?s7
        & ?s8 & ?s9 & ?s10 & ?s11 & ?s12 & ?s13 & ?s14 & ?s15 & ->).

Ltac bytes_ok_inv H :=
  unfold bytes_ok in H;
  repeat match type of H with
         | Forall _ (_ :: _) =>
             let Hb := fresh "Hb" in
             let Hr := fresh "Hr" in
             apply Forall_cons_iff in H; destruct H as [Hb H]
         end.

Lemma sub_bytes_block (s : bytes) : block_ok s -> block_ok (Aes.sub_bytes s).
Proof.
  intros [Hlen Hok]. split.
  - unfold Aes.sub_bytes. now rewrite length_map.
  - now apply sub_bytes_ok.
Qed.

Lemma shift_rows_block (s : bytes) : block_ok s -> block_ok (Aes.shift_rows s).
Proof.
  intros H. explode_block s H. bytes_ok_inv Hok.
  split; [reflexivity|]. unfold bytes_ok. simpl.
  repeat (constructor; [assumption|]). constructor.
Qed.

Lemma inv_shift_rows_shift_rows (s : bytes) :
  List.length s = 16%nat -> Aes.inv_shift_rows (Aes.shift_rows s) = s.
Proof.
  intros H. destruct (block_16 s H)
    as (s0 & s1 & s2 & s3 & s4 & s5 & s6 & s7
        & s8 & s9 & s10 & s11 & s12 & s13 & s14 & s15 & ->).
  reflexivity.
Qed.

Lemma xor_block_ok (s k : bytes) : bytes_ok (Aes.xor_block s k).
Proof.
  revert k. induction s as [|a s IH]; intros k; simpl; constructor.
  - apply land_255_byte_ok.
  - apply IH.
Qed.

Lemma xor_block_length (s k : bytes) : List.length (Aes.xor_block s k) = List.length s.
Proof.
  revert k. induction s as [|a s IH]; intros k; simpl; [reflexivity|].
  now rewrite IH.
Qed.

Lemma xor_block_involutive (s k : bytes) :
  bytes_ok s -> Aes.xor_block (Aes.xor_block s k) k = s.
Proof.
  unfold bytes_ok. intros Hs. revert k.
  induction Hs as [|a s Ha Hs IH]; intros k; simpl; [reflexivity|].
  now rewrite xor8_involutive, IH.
Qed.

Lemma add_round_key_block (rk s : bytes) :
  List.length s = 16%nat -> block_ok (Aes.add_round_key rk s).
Proof.
  intros H. split.
  - unfold Aes.add_round_key. now rewrite xor_block_length.
  - apply xor_block_ok.
Qed.

Lemma add_round_key_involutive (rk s : bytes) :
  bytes_ok s -> Aes.add_round_key rk (Aes.add_round_key rk s) = s.
Proof. apply xor_block_involutive. Qed.

(** *** MixColumns *)

Lemma xtime_ok (b : Z) : byte_ok b -> byte_ok (Aes.xtime b).
Proof.
  intros Hb. apply byte_okb_ok.
  apply (forall_bytes (fun b => byte_okb (Aes.xtime b))); [|exact Hb].
  vm_compute. reflexivity.
Qed.

Ltac by_bytes P :=
  match goal with
  | H : byte_ok ?b |- _ = _ =>
      apply Z.eqb_eq; apply (forall_bytes P); [vm_compute; reflexivity | exact H]
  end.

Ltac by_bytes2 P :=
  match goal with
  | Ha : byte_ok ?a, Hb : byte_ok ?b |- _ = _ =>
      apply Z.eqb_eq; apply (forall_bytes2 P); [vm_compute; reflexivity | exact Ha | exact Hb]
  end.

Lemma mul2_ok b : byte_ok b -> byte_ok (Aes.mul2 b).
Proof. apply xtime_ok. Qed.
Lemma mul3_ok b : byte_ok b -> byte_ok (Aes.mul3 b).
Proof. intros H. unfold Aes.mul3. auto using lxor_byte_ok, xtime_ok. Qed.
Lemma mul9_ok b : byte_ok b -> byte_ok (Aes.mul9 b).
Proof. intros H. unfold Aes.mul9. auto using lxor_byte_ok, xtime_ok. Qed.
Lemma mul11_ok b : byte_ok b -> byte_ok (Aes.mul11 b).
Proof. intros H. unfold Aes.mul11. auto 10 using lxor_byte_ok, xtime_ok. Qed.
Lemma mul13_ok b : byte_ok b -> byte_ok (Aes.mul13 b).
Proof. intros H. unfold Aes.mul13. auto 10 using lxor_byte_ok, xtime_ok. Qed.
Lemma mul14_ok b : byte_ok b -> byte_ok (Aes.mul14 b).
Proof. intros H. unfold Aes.mul14. auto 10 using lxor_byte_ok, xtime_ok. Qed.

Lemma xor4_ok a b c d :
  byte_ok a -> byte_ok b -> byte_ok c -> byte_ok d -> byte_ok (Aes.xor4 a b c d).
Proof. intros. unfold Aes.xor4. auto using lxor_byte_ok. Qed.

Create HintDb byte_ok.
#[local] Hint Resolve lxor_byte_ok xtime_ok mul2_ok mul3_ok mul9_ok mul11_ok
  mul13_ok mul14_ok xor4_ok : byte_ok.

Lemma mul9_linear a b :
  byte_ok a -> byte_ok b -> Aes.mul9 (Z.lxor a b) = Z.lxor (Aes.mul9 a) (Aes.mul9 b).
Proof.
  intros Ha Hb.
  by_bytes2 (fun a b => Aes.mul9 (Z.lxor a b) =? Z.lxor (Aes.mul9 a) (Aes.mul9 b)).
Qed.

Lemma mul11_linear a b :
  byte_ok a -> byte_ok b -> Aes.mul11 (Z.lxor a b) = Z.lxor (Aes.mul11 a) (Aes.mul11 b).
Proof.
  intros Ha Hb.
  by_bytes2 (fun a b => Aes.mul11 (Z.lxor a b) =? Z.lxor (Aes.mul11 a) (Aes.mul11 b)).
Qed.

Lemma mul13_linear a b :
  byte_ok a -> byte_ok b -> Aes.mul13 (Z.lxor a b) = Z.lxor (Aes.mul13 a) (Aes.mul13 b).
Proof.
  intros Ha Hb.
  by_bytes2 (fun a b => Aes.mul13 (Z.lxor a b) =? Z.lxor (Aes.mul13 a) (Aes.mul13 b)).
Qed.

Lemma mul14_linear a b :
  byte_ok a -> byte_ok b -> Aes.mul14 (Z.lxor a b) = Z.lxor (Aes.mul14 a) (Aes.mul14 b).
Proof.
  intros Ha Hb.
  by_bytes2 (fun a b => Aes.mul14 (Z.lxor a b) =? Z.lxor (Aes.mul14 a) (Aes.mul14 b)).
Qed.

Lemma xor4_transpose (a1 a2 a3 a4 b1 b2 b3 b4 c1 c2 c3 c4 d1 d2 d3 d4 : Z) :
  Aes.xor4 (Aes.xor4 a1 a2 a3 a4) (Aes.xor4 b1 b2 b3 b4)
           (Aes.xor4 c1 c2 c3 c4) (Aes.xor4 d1 d2 d3 d4)
  = Aes.xor4 (Aes.xor4 a1 b1 c1 d1) (Aes.xor4 a2 b2 c2 d2)
             (Aes.xor4 a3 b3 c3 d3) (Aes.xor4 a4 b4 c4 d4).
Proof.
  unfold Aes.xor4. apply Z.bits_inj'. intros n Hn.
  rewrite !Z.lxor_spec. btauto.
Qed.

Section Linear4.

Variable f : Z -> Z.
Hypothesis f_ok : forall a, byte_ok a -> byte_ok (f a).
Hypothesis f_linear :
  forall a b, byte_ok a -> byte_ok b -> f (Z.lxor a b) = Z.lxor (f a) (f b).

Lemma linear_xor4 (a b c d : Z) :
  byte_ok a -> byte_ok b -> byte_ok c -> byte_ok d ->
  f (Aes.xor4 a b c d) = Aes.xor4 (f a) (f b) (f c) (f d).
Proof.
  intros Ha Hb Hc Hd. unfold Aes.xor4.
  rewrite !f_linear by auto using lxor_byte_ok. reflexivity.
Qed.

End Linear4.

Definition mul9_xor4 := linear_xor4 Aes.mul9 mul9_linear.
Definition mul11_xor4 := linear_xor4 Aes.mul11 mul11_linear.
Definition mul13_xor4 := linear_xor4 Aes.mul13 mul13_linear.
Definition mul14_xor4 := linear_xor4 Aes.mul14 mul14_linear.

(** The products of the rows of the inverse matrix with the columns of
    the MixColumns matrix, one byte at a time: one on the diagonal, zero
    elsewhere. *)
Definition mix_diag (b : Z) : bool :=
  (Aes.xor4 (Aes.mul14 (Aes.mul2 b)) (Aes.mul11 b) (Aes.mul13 b) (Aes.mul9 (Aes.mul3 b)) =? b)
  && (Aes.xor4 (Aes.mul9 (Aes.mul3 b)) (Aes.mul14 (Aes.mul2 b)) (Aes.mul11 b) (Aes.mul13 b) =? b)
  && (Aes.xor4 (Aes.mul13 b) (Aes.mul9 (Aes.mul3 b)) (Aes.mul14 (Aes.mul2 b)) (Aes.mul11 b) =? b)
  && (Aes.xor4 (Aes.mul11 b) (Aes.mul13 b) (Aes.mul9 (Aes.mul3 b)) (Aes.mul14 (Aes.mul2 b)) =? b).

Definition mix_off (b : Z) : bool :=
  (Aes.xor4 (Aes.mul14 (Aes.mul3 b)) (Aes.mul11 (Aes.mul2 b)) (Aes.mul13 b) (Aes.mul9 b) =? 0)
  && (Aes.xor4 (Aes.mul14 b) (Aes.mul11 (Aes.mul3 b)) (Aes.mul13 (Aes.mul2 b)) (Aes.mul9 b) =? 0)
  && (Aes.xor4 (Aes.mul14 b) (Aes.mul11 b) (Aes.mul13 (Aes.mul3 b)) (Aes.mul9 (Aes.mul2 b)) =? 0)
  && (Aes.xor4 (Aes.mul9 (Aes.mul2 b)) (Aes.mul14 b) (Aes.mul11 b) (Aes.mul13 (Aes.mul3 b)) =? 0)
  && (Aes.xor4 (Aes.mul9 b) (Aes.mul14 (Aes.mul3 b)) (Aes.mul11 (Aes.mul2 b)) (Aes.mul13 b) =? 0)
  && (Aes.xor4 (Aes.mul9 b) (Aes.mul14 b) (Aes.mul11 (Aes.mul3 b)) (Aes.mul13 (Aes.mul2 b)) =? 0)
  && (Aes.xor4 (Aes.mul13 (Aes.mul2 b)) (Aes.mul9 b) (Aes.mul14 b) (Aes.mul11 (Aes.mul3 b)) =? 0)
  && (Aes.xor4 (Aes.mul13 (Aes.mul3 b)) (Aes.mul9 (Aes.mul2 b)) (Aes.mul14 b) (Aes.mul11 b) =? 0)
  && (Aes.xor4 (Aes.mul13 b) (Aes.mul9 b) (Aes.mul14 (Aes.mul3 b)) (Aes.mul11 (Aes.mul2 b)) =? 0)
  && (Aes.xor4 (Aes.mul11 (Aes.mul2 b)) (Aes.mul13 b) (Aes.mul9 b) (Aes.mul14 (Aes.mul3 b)) =? 0)
  && (Aes.xor4 (Aes.mul11 (Aes.mul3 b)) (Aes.mul13 (Aes.mul2 b)) (Aes.mul9 b) (Aes.mul14 b) =? 0)
  && (Aes.xor4 (Aes.mul11 b) (Aes.mul13 (Aes.mul3 b)) (Aes.mul9 (Aes.mul2 b)) (Aes.mul14 b) =? 0).

Lemma mix_diag_all (b : Z) : byte_ok b -> mix_diag b = true.
Proof. apply forall_bytes. vm_compute. reflexivity. Qed.

Lemma mix_off_all (b : Z) : byte_ok b -> mix_off b = true.
Proof. apply forall_bytes. vm_compute. reflexivity. Qed.

Lemma xor4_unit_1 a : Aes.xor4 a 0 0 0 = a.
Proof. unfold Aes.xor4. cbn. rewrite ?Z.lxor_0_r. reflexivity. Qed.
Lemma xor4_unit_2 a : Aes.xor4 0 a 0 0 = a.
Proof. unfold Aes.xor4. cbn. rewrite ?Z.lxor_0_r. reflexivity. Qed.
Lemma xor4_unit_3 a : Aes.xor4 0 0 a 0 = a.
Proof. unfold Aes.xor4. cbn. rewrite ?Z.lxor_0_r. reflexivity. Qed.
Lemma xor4_unit_4 a : Aes.xor4 0 0 0 a = a.
Proof. unfold Aes.xor4. cbn. rewrite ?Z.lxor_0_r. reflexivity. Qed.

Ltac use_mix_tables :=
  repeat match goal with
         | H : byte_ok ?x |- _ =>
             pose proof (mix_diag_all x H); pose proof (mix_off_all x H); clear H
         end;
  unfold mix_diag, mix_off in *;
  repeat match goal with
         | H : _ && _ = true |- _ => apply andb_prop in H; destruct H
         end;
  repeat match goal with
         | H : (_ =? _) = true |- _ => apply Z.eqb_eq in H
         end;
  repeat match goal with
         | H : Aes.xor4 _ _ _ _ = _ |- _ => rewrite ?H; clear H
         end.

Lemma inv_mix_component_0 (a b c d : Z) :
  byte_ok a -> byte_ok b -> byte_ok c -> byte_ok d ->
  Aes.xor4 (Aes.mul14 (Aes.xor4 (Aes.mul2 a) (Aes.mul3 b) c d))
           (Aes.mul11 (Aes.xor4 a (Aes.mul2 b) (Aes.mul3 c) d))
           (Aes.mul13 (Aes.xor4 a b (Aes.mul2 c) (Aes.mul3 d)))
           (Aes.mul9 (Aes.xor4 (Aes.mul3 a) b c (Aes.mul2 d))) = a.
Proof.
  intros Ha Hb Hc Hd.
  rewrite mul9_xor4, mul11_xor4, mul13_xor4, mul14_xor4 by auto with byte_ok.
  rewrite xor4_transpose. use_mix_tables. apply xor4_unit_1.
Qed.

Lemma inv_mix_component_1 (a b c d : Z) :
  byte_ok a -> byte_ok b -> byte_ok c -> byte_ok d ->
  Aes.xor4 (Aes.mul9 (Aes.xor4 (Aes.mul2 a) (Aes.mul3 b) c d))
           (Aes.mul14 (Aes.xor4 a (Aes.mul2 b) (Aes.mul3 c) d))
           (Aes.mul11 (Aes.xor4 a b (Aes.mul2 c) (Aes.mul3 d)))
           (Aes.mul13 (Aes.xor4 (Aes.mul3 a) b c (Aes.mul2 d))) = b.
Proof.
  intros Ha Hb Hc Hd.
  rewrite mul9_xor4, mul11_xor4, mul13_xor4, mul14_xor4 by auto with byte_ok.
  rewrite xor4_transpose. use_mix_tables. apply xor4_unit_2.
Qed.

Lemma inv_mix_component_2 (a b c d : Z) :
  byte_ok a -> byte_ok b -> byte_ok c -> byte_ok d ->
  Aes.xor4 (Aes.mul13 (Aes.xor4 (Aes.mul2 a) (Aes.mul3 b) c d))
           (Aes.mul9 (Aes.xor4 a (Aes.mul2 b) (Aes.mul3 c) d))
           (Aes.mul14 (Aes.xor4 a b (Aes.mul2 c) (Aes.mul3 d)))
           (Aes.mul11 (Aes.xor4 (Aes.mul3 a) b c (Aes.mul2 d))) = c.
Proof.
  intros Ha Hb Hc Hd.
  rewrite mul9_xor4, mul11_xor4, mul13_xor4, mul14_xor4 by auto with byte_ok.
  rewrite xor4_transpose. use_mix_tables. apply xor4_unit_3.
Qed.

Lemma inv_mix_component_3 (a b c d : Z) :
  byte_ok a -> byte_ok b -> byte_ok c -> byte_ok d ->
  Aes.xor4 (Aes.mul11 (Aes.xor4 (Aes.mul2 a) (Aes.mul3 b) c d))
           (Aes.mul13 (Aes.xor4 a (Aes.mul2 b) (Aes.mul3 c) d))
           (Aes.mul9 (Aes.xor4 a b (Aes.mul2 c) (Aes.mul3 d)))
           (Aes.mul14 (Aes.xor4 (Aes.mul3 a) b c (Aes.mul2 d))) = d.
Proof.
  intros Ha Hb Hc Hd.
  rewrite mul9_xor4, mul11_xor4, mul13_xor4, mul14_xor4 by auto with byte_ok.
  rewrite xor4_transpose. use_mix_tables. apply xor4_unit_4.
Qed.

Lemma inv_mix_column_mix_column (a b c d : Z) :
  byte_ok a -> byte_ok b -> byte_ok c -> byte_ok d ->
  Aes.inv_mix_column
    (Aes.xor4 (Aes.mul2 a) (Aes.mul3 b) c d)
    (Aes.xor4 a (Aes.mul2 b) (Aes.mul3 c) d)
    (Aes.xor4 a b (Aes.mul2 c) (Aes.mul3 d))
    (Aes.xor4 (Aes.mul3 a) b c (Aes.mul2 d)) = [a; b; c; d].
Proof.
  intros Ha Hb Hc Hd. unfold Aes.inv_mix_column.
  rewrite inv_mix_component_0, inv_mix_component_1,
    inv_mix_component_2, inv_mix_component_3 by assumption.
  reflexivity.
Qed.

Lemma mix_columns_block (s : bytes) : block_ok s -> block_ok (Aes.mix_columns s).
Proof.
  intros H. explode_block s H. bytes_ok_inv Hok.
  split; [reflexivity|]. unfold bytes_ok. simpl.
  repeat (constructor; [auto with byte_ok|]). constructor.
Qed.

Lemma inv_mix_columns_mix_columns (s : bytes) :
  block_ok s -> Aes.inv_mix_columns (Aes.mix_columns s) = s.
Proof.
  intros H. explode_block s H. bytes_ok_inv Hok.
  cbn [Aes.mix_columns Aes.mix_column app Aes.inv_mix_columns].
  rewrite !inv_mix_column_mix_column by assumption.
  reflexivity.
Qed.

(** *** The cipher and its inverse *)

Lemma block_ok_length (s : bytes) : block_ok s -> List.length s = 16%nat.
Proof. now intros [H _]. Qed.

Lemma block_ok_bytes (s : bytes) : block_ok s -> bytes_ok s.
Proof. now intros [_ H]. Qed.

Lemma round_step_inverse (rk s : bytes) :
  block_ok s ->
  Aes.inv_sub_bytes
    (Aes.inv_shift_rows
       (Aes.inv_mix_columns
          (Aes.add_round_key rk
             (Aes.add_round_key rk
                (Aes.mix_columns (Aes.shift_rows (Aes.sub_bytes s)))))))
  = s.
Proof.
  intros Hs.
  pose proof (sub_bytes_block s Hs) as H1.
  pose proof (shift_rows_block _ H1) as H2.
  pose proof (mix_columns_block _ H2) as H3.
  rewrite add_round_key_involutive by (apply block_ok_bytes, H3).
  rewrite inv_mix_columns_mix_columns by exact H2.
  rewrite inv_shift_rows_shift_rows by (apply block_ok_length, H1).
  apply inv_sub_bytes_sub_bytes, block_ok_bytes, Hs.
Qed.

Lemma final_step_inverse (rk s : bytes) :
  block_ok s ->
  Aes.inv_sub_bytes
    (Aes.inv_shift_rows
       (Aes.add_round_key rk
          (Aes.add_round_key rk (Aes.shift_rows (Aes.sub_bytes s)))))
  = s.
Proof.
  intros Hs.
  pose proof (sub_bytes_block s Hs) as H1.
  pose proof (shift_rows_block _ H1) as H2.
  rewrite add_round_key_involutive by (apply block_ok_bytes, H2).
  rewrite inv_shift_rows_shift_rows by (apply block_ok_length, H1).
  apply inv_sub_bytes_sub_bytes, block_ok_bytes, Hs.
Qed.

Lemma rounds_block (rks : list bytes) (s : bytes) :
  block_ok s -> block_ok (Aes.rounds rks s).
Proof.
  revert s. induction rks as [|rk more IH]; intros s Hs; [exact Hs|].
  cbn [Aes.rounds]. destruct more as [|rk' more'].
  - apply add_round_key_block, block_ok_length, shift_rows_block, sub_bytes_block, Hs.
  - apply IH. apply add_round_key_block, block_ok_length, mix_columns_block,
      shift_rows_block, sub_bytes_block, Hs.
Qed.

Lemma inv_rounds_rounds (rks : list bytes) (s : bytes) :
  block_ok s -> Aes.inv_rounds rks (Aes.rounds rks s) = s.
Proof.
  revert s. induction rks as [|rk more IH]; intros s Hs; [reflexivity|].
  cbn [Aes.rounds Aes.inv_rounds]. destruct more as [|rk' more'].
  - now apply final_step_inverse.
  - rewrite IH.
    + now apply round_step_inverse.
    + apply add_round_key_block, block_ok_length, mix_columns_block,
        shift_rows_block, sub_bytes_block, Hs.
Qed.

Lemma cipher_block (rks : list bytes) (s : bytes) :
  block_ok s -> block_ok (Aes.cipher rks s).
Proof.
  intros Hs. destruct rks as [|rk0 rest]; [exact Hs|].
  apply rounds_block, add_round_key_block, block_ok_length, Hs.
Qed.

Lemma inv_cipher_cipher (rks : list bytes) (s : bytes) :
  block_ok s -> Aes.inv_cipher rks (Aes.cipher rks s) = s.
Proof.
  intros Hs. destruct rks as [|rk0 rest]; [reflexivity|].
  cbn [Aes.cipher Aes.inv_cipher].
  rewrite inv_rounds_rounds by (apply add_round_key_block, block_ok_length, Hs).
  apply add_round_key_involutive, block_ok_bytes, Hs.
Qed.

(** Decryption of a block inverts its encryption, under every key. *)
Lemma decrypt_block_encrypt_block (key block : bytes) :
  block_ok block -> Aes.decrypt_block key (Aes.encrypt_block key block) = block.
Proof. apply inv_cipher_cipher. Qed.

Lemma encrypt_block_ok (key block : bytes) :
  block_ok block -> block_ok (Aes.encrypt_block key block).
Proof. apply cipher_block. Qed.

(** *** Bit arrays and bytes *)

Lemma frombytes_cons (b : Z) (l : bytes) :
  Bitarray.frombytes (b :: l) = Bitarray.byte_bits b ++ Bitarray.frombytes l.
Proof. reflexivity. Qed.

Lemma frombytes_app (l1 l2 : bytes) :
  Bitarray.frombytes (l1 ++ l2) = Bitarray.frombytes l1 ++ Bitarray.frombytes l2.
Proof. unfold Bitarray.frombytes. apply flat_map_app. Qed.

Lemma frombytes_length (l : bytes) :
  List.length (Bitarray.frombytes l) = (8 * List.length l)%nat.
Proof.
  induction l as [|b l IH]; [reflexivity|].
  rewrite frombytes_cons, length_app, IH. simpl. lia.
Qed.

Lemma byte_of_bits (b : Z) :
  byte_ok b ->
  2 * (2 * (2 * (2 * (2 * (2 * (2 * (2 * 0 + Z.b2z (Z.testbit b 7))
    + Z.b2z (Z.testbit b 6)) + Z.b2z (Z.testbit b 5)) + Z.b2z (Z.testbit b 4))
    + Z.b2z (Z.testbit b 3)) + Z.b2z (Z.testbit b 2)) + Z.b2z (Z.testbit b 1))
    + Z.b2z (Z.testbit b 0) = b.
Proof.
  intros Hb.
  by_bytes (fun b =>
    2 * (2 * (2 * (2 * (2 * (2 * (2 * (2 * 0 + Z.b2z (Z.testbit b 7))
      + Z.b2z (Z.testbit b 6)) + Z.b2z (Z.testbit b 5)) + Z.b2z (Z.testbit b 4))
      + Z.b2z (Z.testbit b 3)) + Z.b2z (Z.testbit b 2)) + Z.b2z (Z.testbit b 1))
      + Z.b2z (Z.testbit b 0) =? b).
Qed.

Lemma tobytes_byte_bits (b : Z) (rest : bitarray) :
  byte_ok b ->
  Bitarray.tobytes (Bitarray.byte_bits b ++ rest) = b :: Bitarray.tobytes rest.
Proof.
  intros Hb. unfold Bitarray.tobytes, Bitarray.byte_bits.
  cbn [app Bitarray.tobytes_from].
  f_equal. now apply byte_of_bits.
Qed.

Lemma tobytes_frombytes (l : bytes) :
  bytes_ok l -> Bitarray.tobytes (Bitarray.frombytes l) = l.
Proof.
  unfold bytes_ok. induction 1 as [|b l Hb Hl IH]; [reflexivity|].
  rewrite frombytes_cons, tobytes_byte_bits by assumption. now rewrite IH.
Qed.

Lemma tobytes_eight (b7 b6 b5 b4 b3 b2 b1 b0 : bool) (rest : bitarray) :
  exists v, byte_ok v
    /\ Bitarray.byte_bits v = [b7; b6; b5; b4; b3; b2; b1; b0]
    /\ Bitarray.tobytes (b7 :: b6 :: b5 :: b4 :: b3 :: b2 :: b1 :: b0 :: rest)
       = v :: Bitarray.tobytes rest.
Proof.
  eexists. split; [|split].
  3: { unfold Bitarray.tobytes. cbn [Bitarray.tobytes_from]. reflexivity. }
  - destruct b7, b6, b5, b4, b3, b2, b1, b0; vm_compute; split; congruence.
  - destruct b7, b6, b5, b4, b3, b2, b1, b0; reflexivity.
Qed.

(** A bit array of [8 * n] bits is the bit array of its [n] bytes. *)
Lemma tobytes_whole (n : nat) (p : bitarray) :
  List.length p = (8 * n)%nat ->
  bytes_ok (Bitarray.tobytes p)
  /\ List.length (Bitarray.tobytes p) = n
  /\ Bitarray.frombytes (Bitarray.tobytes p) = p.
Proof.
  revert p. induction n as [|n IH]; intros p Hlen.
  - destruct p; [|discriminate Hlen]. repeat split. constructor.
  - do 8 (destruct p as [|? p]; [simpl in Hlen; lia|]).
    destruct (IH p) as (Hok & Hn & Hback); [simpl in Hlen; lia|].
    destruct (tobytes_eight b b0 b1 b2 b3 b4 b5 b6 p) as (v & Hv & Hbits & Hrun).
    rewrite Hrun. split; [|split].
    + constructor; assumption.
    + simpl. now rewrite Hn.
    + rewrite frombytes_cons, Hbits, Hback. reflexivity.
Qed.

Lemma frombytes_inj (l1 l2 : bytes) :
  bytes_ok l1 -> bytes_ok l2 ->
  Bitarray.frombytes l1 = Bitarray.frombytes l2 -> l1 = l2.
Proof.
  intros H1 H2 Heq.
  rewrite <- (tobytes_frombytes l1 H1), <- (tobytes_frombytes l2 H2).
  now rewrite Heq.
Qed.

(** *** Padding *)

Lemma pad_length (data : bytes) :
  exists k : nat, List.length (Padding.pad data 16) = (16 * S k)%nat.
Proof.
  unfold Padding.pad. rewrite length_app, repeat_length.
  exists (List.length data / 16)%nat.
  pose proof (Nat.div_mod_eq (List.length data) 16) as Hdm.
  pose proof (Nat.mod_upper_bound (List.length data) 16) as Hub.
  lia.
Qed.

Lemma pad_ok (data : bytes) : bytes_ok data -> bytes_ok (Padding.pad data 16).
Proof.
  intros Hd. unfold Padding.pad, bytes_ok.
  apply Forall_app. split; [exact Hd|].
  pose proof (Nat.mod_upper_bound (List.length data) 16) as Hub.
  apply Forall_forall. intros x Hx. apply list_elem_of_In, repeat_spec in Hx. subst x.
  unfold byte_ok. lia.
Qed.

Lemma last_app_repeat (data : bytes) (x : Z) (n : nat) :
  List.last (data ++ repeat x (S n)) 0 = x.
Proof.
  replace (repeat x (S n)) with (repeat x n ++ [x]).
  - rewrite app_assoc. apply last_last.
  - change [x] with (repeat x 1). rewrite <- repeat_app. f_equal. lia.
Qed.

Lemma unpad_pad (data : bytes) :
  Padding.unpad (Padding.pad data 16) 16 = ret data.
Proof.
  destruct (pad_length data) as [k Hk].
  unfold Padding.unpad. rewrite Hk.
  pose proof (Nat.mod_upper_bound (List.length data) 16 ltac:(lia)) as Hub.
  set (n := (16 - List.length data mod 16)%nat) in *.
  assert (Hn : (1 <= n <= 16)%nat) by (subst n; lia).
  assert (Hpad : Padding.pad data 16 = data ++ repeat (Z.of_nat n) n) by reflexivity.
  assert (Hlen : (16 * S k = List.length data + n)%nat).
  { rewrite <- Hk, Hpad, length_app, repeat_length. reflexivity. }
  replace ((16 * S k =? 0)%nat) with false by (symmetry; apply Nat.eqb_neq; lia).
  replace ((16 * S k) mod 16)%nat with 0%nat
    by (symmetry; rewrite Nat.mul_comm; apply Nat.Div0.mod_mul).
  cbn [Nat.eqb negb].
  rewrite Hpad.
  destruct n as [|n']; [lia|].
  rewrite last_app_repeat.
  replace (Z.of_nat (S n') <? 1) with false by (symmetry; apply Z.ltb_ge; lia).
  replace (Z.of_nat (Nat.min 16 (16 * S k)) <? Z.of_nat (S n')) with false
    by (symmetry; apply Z.ltb_ge; lia).
  cbn [orb]. rewrite Nat2Z.id.
  replace (16 * S k - S n')%nat with (List.length data) by lia.
  rewrite skipn_app, skipn_all, Nat.sub_diag. cbn [skipn app].
  rewrite bool_decide_eq_true_2 by reflexivity. cbn [negb].
  rewrite firstn_app, firstn_all, Nat.sub_diag. cbn [firstn].
  now rewrite app_nil_r.
Qed.

(** *** CBC chaining *)

Lemma blocks_fuel_concat (bs : list bytes) (fuel : nat) :
  Forall (fun b => List.length b = 16%nat) bs ->
  (List.length bs <= fuel)%nat ->
  chunks fuel 16 (concat bs) = bs.
Proof.
  intros Hbs. revert fuel. induction Hbs as [|b bs Hb Hbs IH]; intros fuel Hfuel.
  - destruct fuel; reflexivity.
  - destruct fuel as [|fuel]; [simpl in Hfuel; lia|].
    cbn [concat chunks].
    destruct (b ++ concat bs) as [|x rest] eqn:E.
    { destruct b; [discriminate Hb | discriminate E]. }
    rewrite <- E.
    rewrite firstn_app, firstn_all2 by lia.
    rewrite skipn_app, skipn_all2 by lia.
    rewrite Hb, Nat.sub_diag. cbn [firstn skipn app].
    rewrite app_nil_r, IH by (simpl in Hfuel; lia). reflexivity.
Qed.

Lemma concat_blocks_length (bs : list bytes) :
  Forall (fun b => List.length b = 16%nat) bs ->
  List.length (concat bs) = (16 * List.length bs)%nat.
Proof.
  induction 1 as [|b bs Hb Hbs IH]; [reflexivity|].
  cbn [concat]. rewrite length_app, IH, Hb. simpl. lia.
Qed.

Lemma blocks_concat (bs : list bytes) :
  Forall (fun b => List.length b = 16%nat) bs ->
  CbcMode.blocks (concat bs) = bs.
Proof.
  intros Hbs. unfold CbcMode.blocks. apply blocks_fuel_concat; [exact Hbs|].
  rewrite concat_blocks_length by exact Hbs. lia.
Qed.

(** Data that fills [k] blocks is the concatenation of [k] blocks. *)
Lemma split_blocks (k : nat) (l : bytes) :
  List.length l = (16 * k)%nat -> bytes_ok l ->
  exists bs, l = concat bs /\ Forall block_ok bs.
Proof.
  revert l. induction k as [|k IH]; intros l Hlen Hok.
  - destruct l; [|discriminate Hlen]. exists []. split; [reflexivity | constructor].
  - assert (Hparts : bytes_ok (firstn 16 l) /\ bytes_ok (skipn 16 l)).
    { unfold bytes_ok in *. rewrite <- (firstn_skipn 16 l) in Hok.
      now apply Forall_app in Hok. }
    destruct Hparts as [Hfirst Hrest].
    destruct (IH (skipn 16 l)) as (bs & Hcat & Hbs).
    + rewrite length_skipn. lia.
    + exact Hrest.
    + exists (firstn 16 l :: bs). split.
      * cbn [concat]. rewrite <- Hcat. symmetry. apply firstn_skipn.
      * constructor; [|exact Hbs]. split.
        -- rewrite length_firstn. lia.
        -- exact Hfirst.
Qed.

Lemma block_ok_lengths (bs : list bytes) :
  Forall block_ok bs -> Forall (fun b => List.length b = 16%nat) bs.
Proof.
  induction 1 as [|b bs Hb Hbs IH]; constructor; [apply Hb | exact IH].
Qed.

Lemma encrypt_blocks_ok (key prev : bytes) (bs : list bytes) :
  Forall block_ok bs -> Forall block_ok (CbcMode.encrypt_blocks key prev bs).
Proof.
  intros Hbs. revert prev. induction Hbs as [|b bs Hb Hbs IH]; intros prev.
  - constructor.
  - cbn [CbcMode.encrypt_blocks]. constructor; [|apply IH].
    apply encrypt_block_ok. split.
    + rewrite xor_block_length. apply Hb.
    + apply xor_block_ok.
Qed.

Lemma decrypt_blocks_encrypt_blocks (key prev : bytes) (bs : list bytes) :
  Forall block_ok bs ->
  CbcMode.decrypt_blocks key prev (CbcMode.encrypt_blocks key prev bs) = bs.
Proof.
  intros Hbs. revert prev. induction Hbs as [|b bs Hb Hbs IH]; intros prev.
  - reflexivity.
  - cbn [CbcMode.encrypt_blocks CbcMode.decrypt_blocks].
    rewrite decrypt_block_encrypt_block.
    + rewrite xor_block_involutive by apply Hb. now rewrite IH.
    + split; [rewrite xor_block_length; apply Hb | apply xor_block_ok].
Qed.

Lemma concat_bytes_ok (bs : list bytes) : Forall block_ok bs -> bytes_ok (concat bs).
Proof.
  induction 1 as [|b bs Hb Hbs IH]; [constructor|].
  cbn [concat]. unfold bytes_ok in *. apply Forall_app. split; [apply Hb | exact IH].
Qed.

Lemma cbc_new_ok (key iv : bytes) :
  Aes.valid_key key = true -> List.length iv = 16%nat ->
  CbcMode.new key iv = ret (CbcMode.mk key iv).
Proof.
  intros Hk Hiv. unfold CbcMode.new. rewrite Hk, Hiv. reflexivity.
Qed.

(** CBC decryption inverts CBC encryption of whole blocks; the ciphertext
    is well formed and as long as the plaintext. *)
Lemma cbc_roundtrip (key iv data : bytes) (k : nat) :
  List.length data = (16 * k)%nat -> bytes_ok data ->
  exists ct,
    CbcMode.encrypt (CbcMode.mk key iv) data = ret ct
    /\ bytes_ok ct
    /\ List.length ct = (16 * k)%nat
    /\ CbcMode.decrypt (CbcMode.mk key iv) ct = ret data.
Proof.
  intros Hlen Hok.
  destruct (split_blocks k data Hlen Hok) as (bs & -> & Hbs).
  pose proof (encrypt_blocks_ok key iv bs Hbs) as Hcs.
  assert (Hmod : forall n : nat, ((16 * n) mod Aes.block_size =? 0)%nat = true).
  { intros n. apply Nat.eqb_eq. unfold Aes.block_size.
    rewrite Nat.mul_comm. apply Nat.Div0.mod_mul. }
  assert (Hcount : List.length (CbcMode.encrypt_blocks key iv bs) = List.length bs).
  { clear. revert iv. induction bs as [|b bs IH]; intros iv; [reflexivity|].
    cbn [CbcMode.encrypt_blocks List.length]. now rewrite IH. }
  assert (Hk : List.length bs = k).
  { rewrite concat_blocks_length in Hlen by now apply block_ok_lengths. lia. }
  exists (concat (CbcMode.encrypt_blocks key iv bs)).
  split; [|split; [|split]].
  - unfold CbcMode.encrypt. cbn [CbcMode.key CbcMode.iv].
    rewrite Hlen, Hmod. cbn [negb].
    now rewrite blocks_concat by now apply block_ok_lengths.
  - now apply concat_bytes_ok.
  - rewrite concat_blocks_length by now apply block_ok_lengths.
    now rewrite Hcount, Hk.
  - unfold CbcMode.decrypt. cbn [CbcMode.key CbcMode.iv].
    rewrite concat_blocks_length by now apply block_ok_lengths.
    rewrite Hmod. cbn [negb].
    rewrite blocks_concat by now apply block_ok_lengths.
    now rewrite decrypt_blocks_encrypt_blocks.
Qed.

Definition key_bits_ok (key : bitarray) : Prop :=
  List.length key = 128%nat \/ List.length key = 192%nat \/ List.length key = 256%nat.

Lemma key_bits_valid (key : bitarray) :
  key_bits_ok key -> Aes.valid_key (Bitarray.tobytes key) = true.
Proof.
  unfold Aes.valid_key. intros [H | [H | H]].
  - destruct (tobytes_whole 16 key H) as (_ & -> & _). reflexivity.
  - destruct (tobytes_whole 24 key H) as (_ & -> & _). reflexivity.
  - destruct (tobytes_whole 32 key H) as (_ & -> & _). reflexivity.
Qed.

(** One encryption under a drawn IV, and its decryption. *)
Lemma aes_encrypt_decrypt (iv : bytes) (p key : bitarray) (n : nat) :
  List.length p = (8 * n)%nat -> key_bits_ok key -> block_ok iv ->
  exists ct,
    AESEncryption.encrypt iv p key
    = ret (Bitarray.frombytes iv ++ Bitarray.frombytes ct)
    /\ AESEncryption.decrypt (Bitarray.frombytes iv ++ Bitarray.frombytes ct) key
       = ret p.
Proof.
  intros Hp Hkey [Hivlen Hivok].
  destruct (tobytes_whole n p Hp) as (Hdok & Hdlen & Hback).
  destruct (pad_length (Bitarray.tobytes p)) as [k Hk].
  destruct (cbc_roundtrip (Bitarray.tobytes key) iv
              (Padding.pad (Bitarray.tobytes p) 16) (S k) Hk (pad_ok _ Hdok))
    as (ct & Henc & Hctok & Hctlen & Hdec).
  exists ct. split.
  - unfold AESEncryption.encrypt.
    rewrite cbc_new_ok by (auto using key_bits_valid).
    cbn [rbind ret]. unfold Aes.block_size. rewrite Henc. reflexivity.
  - unfold AESEncryption.decrypt.
    assert (H128 : List.length (Bitarray.frombytes iv) = 128%nat)
      by (rewrite frombytes_length, Hivlen; reflexivity).
    rewrite firstn_app, skipn_app, H128, Nat.sub_diag.
    rewrite firstn_all2, skipn_all2 by lia.
    cbn [firstn skipn app]. rewrite ?skipn_O, ?firstn_O, app_nil_r.
    rewrite !tobytes_frombytes by assumption.
    rewrite cbc_new_ok by (auto using key_bits_valid).
    cbn [rbind ret]. rewrite Hdec. cbn [rbind ret].
    unfold Aes.block_size. rewrite unpad_pad. cbn [rbind ret].
    now rewrite Hback.
Qed.

(** C7.  For every byte payload [p] (a bit array of whole bytes) and
    every key of 128, 192 or 256 bits, decryption inverts encryption under
    whatever IV is drawn; and two encryptions of [p] under the same key
    that draw different IVs give different ciphertexts, both of which
    decrypt to [p]. *)
Theorem aes_cbc_roundtrip (p key : bitarray) (iv1 iv2 : bytes) :
  (List.length p mod 8 = 0)%nat ->
  key_bits_ok key ->
  block_ok iv1 -> block_ok iv2 -> iv1 <> iv2 ->
  exists c1 c2,
    AESEncryption.encrypt iv1 p key = ret c1
    /\ AESEncryption.encrypt iv2 p key = ret c2
    /\ c1 <> c2
    /\ AESEncryption.decrypt c1 key = ret p
    /\ AESEncryption.decrypt c2 key = ret p.
Proof.
  intros Hp Hkey Hiv1 Hiv2 Hne.
  assert (Hn : List.length p = (8 * (List.length p / 8))%nat).
  { pose proof (Nat.div_mod_eq (List.length p) 8). lia. }
  destruct (aes_encrypt_decrypt iv1 p key _ Hn Hkey Hiv1) as (ct1 & He1 & Hd1).
  destruct (aes_encrypt_decrypt iv2 p key _ Hn Hkey Hiv2) as (ct2 & He2 & Hd2).
  eexists _, _. split; [exact He1|]. split; [exact He2|].
  split; [|split; assumption].
  intros Heq. apply Hne.
  destruct Hiv1 as [Hl1 Hok1], Hiv2 as [Hl2 Hok2].
  apply app_inj_1 in Heq.
  - destruct Heq as [Heq _]. now apply frombytes_inj.
  - rewrite !frombytes_length, Hl1, Hl2. reflexivity.
Qed.

Lemma bytes_okb_ok (l : bytes) : forallb byte_okb l = true -> bytes_ok l.
Proof.
  intros H. apply Forall_forall. intros b Hb.
  apply byte_okb_ok. rewrite forallb_forall in H. now apply H, list_elem_of_In.
Qed.

Definition payload_hello : bitarray := Bitarray.frombytes (encode "hello").
Definition key_128 : bitarray := Bitarray.frombytes (hex_range 0 16).
Definition other_key_128 : bitarray := Bitarray.frombytes (hex_range 1 16).

Lemma aes_cbc_roundtrip_witness :
  exists c1 c2,
    AESEncryption.encrypt (hex_range 16 16) payload_hello key_128 = ret c1
    /\ AESEncryption.encrypt (hex_range 32 16) payload_hello key_128 = ret c2
    /\ c1 <> c2
    /\ AESEncryption.decrypt c1 key_128 = ret payload_hello
    /\ AESEncryption.decrypt c2 key_128 = ret payload_hello.
Proof.
  apply (aes_cbc_roundtrip payload_hello key_128 (hex_range 16 16) (hex_range 32 16)).
  - reflexivity.
  - left. reflexivity.
  - split; [reflexivity | apply bytes_okb_ok; reflexivity].
  - split; [reflexivity | apply bytes_okb_ok; reflexivity].
  - discriminate.
Defined.

(** The ciphertext of ["hello"] under [key_128] and the IV [10 11 ... 1f]. *)
Definition hello_ciphertext : bitarray :=
  Bitarray.frombytes
    (hex_range 16 16
     ++ [0x32; 0xf6; 0xd6; 0xea; 0x1e; 0xc8; 0x87; 0x2d;
         0xeb; 0xcc; 0xea; 0x85; 0x96; 0xd9; 0xc3; 0xc3]).

(** C8 as stated fails: an input with no room for the IV, and a
    ciphertext decrypted under another key so that padding removal fails,
    both end in the library's [ValueError], which is not the
    [InvalidCiphertext] of the claim. *)
Lemma aes_decrypt_raises_value_error :
  AESEncryption.decrypt [] key_128 = raise ValueError
  /\ AESEncryption.decrypt (repeat true 127) key_128 = raise ValueError
  /\ AESEncryption.decrypt hello_ciphertext other_key_128 = raise ValueError
  /\ AESEncryption.decrypt hello_ciphertext other_key_128 <> raise InvalidCiphertext.
Proof.
  repeat split; try (vm_compute; reflexivity).
  vm_compute. discriminate.
Qed.

Lemma cbc_new_error (key iv : bytes) (e : exn) :
  CbcMode.new key iv = raise e -> e = ValueError.
Proof.
  unfold CbcMode.new.
  destruct (negb (Aes.valid_key key)); [now intros [= <-]|].
  destruct (negb (List.length iv =? Aes.block_size)%nat); [now intros [= <-]|].
  discriminate.
Qed.

Lemma cbc_decrypt_error (c : CbcMode.t) (ct : bytes) (e : exn) :
  CbcMode.decrypt c ct = raise e -> e = ValueError.
Proof.
  unfold CbcMode.decrypt.
  destruct (negb (List.length ct mod Aes.block_size =? 0)%nat); [now intros [= <-]|].
  discriminate.
Qed.

Lemma unpad_error (padded : bytes) (bs : nat) (e : exn) :
  Padding.unpad padded bs = raise e -> e = ValueError.
Proof.
  unfold Padding.unpad.
  repeat match goal with
         | |- (if ?c then _ else _) = _ -> _ => destruct c; [now intros [= <-]|]
         end.
  discriminate.
Qed.

Lemma aes_decrypt_error (data key : bitarray) (e : exn) :
  AESEncryption.decrypt data key = raise e -> e = ValueError.
Proof.
  unfold AESEncryption.decrypt. cbv zeta.
  destruct (CbcMode.new _ _) as [e1|cipher] eqn:Hnew; cbn [rbind].
  { intros [= <-]. now apply cbc_new_error in Hnew. }
  destruct (CbcMode.decrypt _ _) as [e2|decrypted] eqn:Hdec; cbn [rbind].
  { intros [= <-]. now apply cbc_decrypt_error in Hdec. }
  destruct (Padding.unpad _ _) as [e3|orig] eqn:Hun; cbn [rbind].
  { intros [= <-]. now apply unpad_error in Hun. }
  discriminate.
Qed.

Lemma aes_decrypt_short (data key : bitarray) :
  (List.length data < 128)%nat -> AESEncryption.decrypt data key = raise ValueError.
Proof.
  intros Hshort. unfold AESEncryption.decrypt. cbv zeta.
  rewrite (skipn_all2 (n := 128)) by lia.
  destruct (CbcMode.new _ _) as [e1|cipher] eqn:Hnew; cbn [rbind].
  { apply cbc_new_error in Hnew. now subst. }
  reflexivity.
Qed.

(** C8, as the codec is written.  Decryption fails for every input
    shorter than 128 bits, and it fails whenever the padding cannot be
    removed after block decryption; every failure of [decrypt] is the
    library's [ValueError], raised as it is: the code declares no
    [InvalidCiphertext] and wraps nothing. *)
Theorem aes_decrypt_failures :
  (forall data key : bitarray,
      (List.length data < 128)%nat ->
      AESEncryption.decrypt data key = raise ValueError)
  /\ (forall (data key : bitarray) cipher decrypted,
      CbcMode.new (Bitarray.tobytes key) (Bitarray.tobytes (firstn 128 data))
      = ret cipher ->
      CbcMode.decrypt cipher (Bitarray.tobytes (skipn 128 data)) = ret decrypted ->
      Padding.unpad decrypted Aes.block_size = raise ValueError ->
      AESEncryption.decrypt data key = raise ValueError)
  /\ (forall (data key : bitarray) (e : exn),
      AESEncryption.decrypt data key = raise e -> e = ValueError).
Proof.
  split; [exact aes_decrypt_short|]. split; [|exact aes_decrypt_error].
  intros data key cipher decrypted Hnew Hdec Hun.
  unfold AESEncryption.decrypt. cbv zeta.
  rewrite Hnew. cbn [rbind ret]. rewrite Hdec. cbn [rbind ret]. now rewrite Hun.
Qed.

(** * Part III: further properties of the code

    Properties of the functions around those of Part II: the other methods
    of the codecs and key generators, of the user storage and manager, of
    the server and its two APIs, the endpoint helpers and the framing of
    media messages. *)

(** ** The codecs of [encryption.py] *)

Lemma zip_xor_twice_prefix (data key : bitarray) :
  XOREncryption.zip_xor (XOREncryption.zip_xor data key) key
  = firstn (List.length key) data.
Proof.
  revert key; induction data as [|b data IH]; intros [|c key]; simpl;
    try reflexivity.
  rewrite IH. f_equal. destruct b, c; reflexivity.
Qed.

(** X1.  Whatever the lengths of payload and key, the XOR codec works on
    the common prefix only: the ciphertext has the length of the shorter
    of the two, and decrypting it gives the payload cut to the length of
    the key.  A payload longer than the key loses its tail without any
    error. *)
Theorem xor_roundtrip_truncates (p k : bitarray) :
  List.length (XOREncryption.encrypt p k)
  = Nat.min (List.length p) (List.length k)
  /\ XOREncryption.decrypt (XOREncryption.encrypt p k) k
     = firstn (List.length k) p.
Proof.
  split.
  - apply zip_xor_length.
  - apply zip_xor_twice_prefix.
Qed.

(** *** Bit arrays that do not fill whole bytes *)

(** The zero bits that [tobytes] appends to fill the last byte. *)
Definition fill_bits (n : nat) : bitarray := repeat false ((8 - n mod 8) mod 8).

Definition packs (p : bitarray) : Prop :=
  bytes_ok (Bitarray.tobytes p)
  /\ List.length (Bitarray.tobytes p) = ((List.length p + 7) / 8)%nat
  /\ Bitarray.frombytes (Bitarray.tobytes p) = p ++ fill_bits (List.length p).

Lemma packs_short (p : bitarray) : (List.length p < 8)%nat -> packs p.
Proof.
  intros Hlen.
  destruct p as [|b0 [|b1 [|b2 [|b3 [|b4 [|b5 [|b6 [|b7 p]]]]]]]];
    [..|simpl in Hlen; lia]; clear Hlen;
    repeat match goal with b : bool |- _ => destruct b end;
    (split; [|split; reflexivity]);
    repeat constructor; unfold byte_ok; cbn; lia.
Qed.

Lemma packs_eight (b7 b6 b5 b4 b3 b2 b1 b0 : bool) (rest : bitarray) :
  packs rest -> packs (b7 :: b6 :: b5 :: b4 :: b3 :: b2 :: b1 :: b0 :: rest).
Proof.
  intros (Hok & Hlen & Hback).
  destruct (tobytes_eight b7 b6 b5 b4 b3 b2 b1 b0 rest) as (v & Hv & Hbits & Hrun).
  unfold packs. rewrite Hrun. split; [|split].
  - constructor; assumption.
  - cbn [List.length]. rewrite Hlen.
    replace (S (S (S (S (S (S (S (S (List.length rest)))))))) + 7)%nat
      with ((List.length rest + 7) + 1 * 8)%nat by lia.
    rewrite Nat.div_add by lia. lia.
  - rewrite frombytes_cons, Hbits, Hback. cbn [app List.length]. unfold fill_bits.
    replace (S (S (S (S (S (S (S (S (List.length rest)))))))))
      with (List.length rest + 1 * 8)%nat by lia.
    rewrite Nat.Div0.mod_add. reflexivity.
Qed.

Lemma tobytes_packs (p : bitarray) : packs p.
Proof.
  assert (H : forall n p, (List.length p < 8 * S n)%nat -> packs p).
  { clear p. induction n as [|n IH]; intros p Hlen.
    - apply packs_short. lia.
    - destruct (Nat.lt_ge_cases (List.length p) 8) as [Hs | Hl].
      + now apply packs_short.
      + do 8 (destruct p as [|? p]; [simpl in Hl; lia|]).
        apply packs_eight, IH. simpl in Hlen. lia. }
  apply (H (List.length p)). lia.
Qed.

Lemma pad_length_exact (data : bytes) :
  List.length (Padding.pad data 16) = (16 * S (List.length data / 16))%nat.
Proof.
  unfold Padding.pad. rewrite length_app, repeat_length.
  pose proof (Nat.div_mod_eq (List.length data) 16) as Hdm.
  pose proof (Nat.mod_upper_bound (List.length data) 16) as Hub.
  lia.
Qed.

(** One encryption and its decryption, for a payload of any length and a
    key whose bytes the cipher accepts. *)
Lemma aes_encrypt_decrypt_any (iv : bytes) (p key : bitarray) :
  Aes.valid_key (Bitarray.tobytes key) = true -> block_ok iv ->
  exists ct,
    List.length ct = (16 * S (List.length (Bitarray.tobytes p) / 16))%nat
    /\ AESEncryption.encrypt iv p key
       = ret (Bitarray.frombytes iv ++ Bitarray.frombytes ct)
    /\ AESEncryption.decrypt (Bitarray.frombytes iv ++ Bitarray.frombytes ct) key
       = ret (p ++ fill_bits (List.length p)).
Proof.
  intros Hkey [Hivlen Hivok].
  destruct (tobytes_packs p) as (Hdok & Hdlen & Hback).
  destruct (tobytes_packs key) as (Hkok & _ & _).
  destruct (cbc_roundtrip (Bitarray.tobytes key) iv
              (Padding.pad (Bitarray.tobytes p) 16) _
              (pad_length_exact _) (pad_ok _ Hdok))
    as (ct & Henc & Hctok & Hctlen & Hdec).
  exists ct. split; [exact Hctlen|]. split.
  - unfold AESEncryption.encrypt.
    rewrite cbc_new_ok by assumption.
    cbn [rbind ret]. unfold Aes.block_size. rewrite Henc. reflexivity.
  - unfold AESEncryption.decrypt.
    assert (H128 : List.length (Bitarray.frombytes iv) = 128%nat)
      by (rewrite frombytes_length, Hivlen; reflexivity).
    rewrite firstn_app, skipn_app, H128, Nat.sub_diag.
    rewrite firstn_all2, skipn_all2 by lia.
    cbn [firstn skipn app]. rewrite ?skipn_O, ?firstn_O, app_nil_r.
    rewrite !tobytes_frombytes by assumption.
    rewrite cbc_new_ok by assumption.
    cbn [rbind ret]. rewrite Hdec. cbn [rbind ret].
    unfold Aes.block_size. rewrite unpad_pad. cbn [rbind ret].
    now rewrite Hback.
Qed.

(** X2.  The AES codec works on whole bytes: for a payload whose length
    is not a multiple of eight bits, decryption does not give the payload
    back but the payload followed by the zero bits that fill its last
    byte; the payload is a prefix of what comes back, and comes back
    unchanged exactly when it fills whole bytes. *)
Theorem aes_roundtrip_fills_last_byte (iv : bytes) (p key : bitarray) :
  key_bits_ok key -> block_ok iv ->
  exists c,
    AESEncryption.encrypt iv p key = ret c
    /\ AESEncryption.decrypt c key
       = ret (p ++ repeat false ((8 - List.length p mod 8) mod 8))
    /\ (AESEncryption.decrypt c key = ret p <-> (List.length p mod 8 = 0)%nat).
Proof.
  intros Hkey Hiv.
  destruct (aes_encrypt_decrypt_any iv p key (key_bits_valid key Hkey) Hiv)
    as (ct & _ & Henc & Hdec).
  eexists. split; [exact Henc|]. split; [exact Hdec|].
  rewrite Hdec. unfold fill_bits.
  pose proof (Nat.mod_upper_bound (List.length p) 8 ltac:(lia)) as Hub.
  set (m := (List.length p mod 8)%nat) in *.
  split.
  - intros Heq.
    assert (Heq' : p ++ repeat false ((8 - m) mod 8)%nat = p)
      by (unfold ret in Heq; congruence).
    apply (f_equal (@List.length bool)) in Heq'.
    rewrite length_app, repeat_length in Heq'.
    destruct (Nat.eq_dec m 0%nat) as [H0 | Hne]; [exact H0|].
    rewrite Nat.mod_small in Heq' by lia. lia.
  - intros H0. rewrite H0. cbn. now rewrite app_nil_r.
Qed.

Lemma aes_roundtrip_fills_last_byte_witness :
  exists c,
    AESEncryption.encrypt (hex_range 16 16) [true; false; true] key_128 = ret c
    /\ AESEncryption.decrypt c key_128
       = ret [true; false; true; false; false; false; false; false].
Proof.
  destruct (aes_roundtrip_fills_last_byte (hex_range 16 16) [true; false; true] key_128)
    as (c & Henc & Hdec & _).
  - left. vm_compute. reflexivity.
  - split; [reflexivity|]. apply bytes_okb_ok. vm_compute. reflexivity.
  - exists c. split; [exact Henc | exact Hdec].
Defined.

(** X3.  What [AESEncryption.encrypt] returns starts with the 128 bits
    of the initialisation vector in clear, and its length is fixed by the
    length of the payload alone: the IV block, then one ciphertext block
    for every sixteen payload bytes begun, and a further block when the
    payload fills whole blocks (a payload of [n] bits gives
    [128 * (2 + ((n + 7) / 8) / 16)] bits). *)
Theorem aes_ciphertext_layout (iv : bytes) (p key c : bitarray) :
  bytes_ok iv ->
  AESEncryption.encrypt iv p key = ret c ->
  firstn 128 c = Bitarray.frombytes iv
  /\ List.length c = (128 * (2 + ((List.length p + 7) / 8) / 16))%nat.
Proof.
  intros Hivok Henc.
  assert (Hnew : Aes.valid_key (Bitarray.tobytes key) = true
                 /\ List.length iv = 16%nat).
  { unfold AESEncryption.encrypt, CbcMode.new in Henc.
    destruct (Aes.valid_key (Bitarray.tobytes key)); [|discriminate Henc].
    cbn [negb] in Henc.
    destruct (Nat.eqb_spec (List.length iv) Aes.block_size) as [Hl|];
      [|discriminate Henc].
    split; [reflexivity | exact Hl]. }
  destruct Hnew as [Hkey Hivlen].
  destruct (aes_encrypt_decrypt_any iv p key Hkey (conj Hivlen Hivok))
    as (ct & Hctlen & Henc' & _).
  rewrite Henc' in Henc. injection Henc as <-.
  destruct (tobytes_packs p) as (_ & Hplen & _).
  assert (H128 : List.length (Bitarray.frombytes iv) = 128%nat)
    by (rewrite frombytes_length, Hivlen; reflexivity).
  split.
  - rewrite firstn_app, H128, Nat.sub_diag, firstn_all2 by lia.
    cbn [firstn]. now rewrite app_nil_r.
  - rewrite length_app, H128, frombytes_length, Hctlen, Hplen. lia.
Qed.

Lemma aes_ciphertext_layout_witness :
  firstn 128 hello_ciphertext = Bitarray.frombytes (hex_range 16 16)
  /\ List.length hello_ciphertext = 256%nat.
Proof.
  apply (aes_ciphertext_layout (hex_range 16 16) payload_hello key_128).
  - apply bytes_okb_ok. vm_compute. reflexivity.
  - vm_compute. reflexivity.
Defined.

(** X4.  [AESEncryption.encrypt] accepts a key by the number of bytes it
    packs into, not by its number of bits: it returns a ciphertext when
    the key has 121 to 128, 185 to 192 or 249 to 256 bits (a key that
    does not fill its last byte is completed with zero bits), and raises
    [ValueError] for every other key length. *)
Theorem aes_accepted_key_lengths (iv : bytes) (p key : bitarray) :
  block_ok iv ->
  let n := List.length key in
  ((120 < n <= 128 \/ 184 < n <= 192 \/ 248 < n <= 256)%nat ->
     exists c, AESEncryption.encrypt iv p key = ret c)
  /\ (~ (120 < n <= 128 \/ 184 < n <= 192 \/ 248 < n <= 256)%nat ->
     AESEncryption.encrypt iv p key = raise ValueError).
Proof.
  intros Hiv n.
  destruct (tobytes_packs key) as (_ & Hklen & _). fold n in Hklen.
  pose proof (Nat.div_mod_eq (n + 7) 8) as Hdm.
  pose proof (Nat.mod_upper_bound (n + 7) 8 ltac:(lia)) as Hub.
  split.
  - intros Hn.
    assert (Hkey : Aes.valid_key (Bitarray.tobytes key) = true).
    { unfold Aes.valid_key. rewrite Hklen.
      destruct Hn as [Hn | [Hn | Hn]].
      - replace ((n + 7) / 8)%nat with 16%nat by lia. reflexivity.
      - replace ((n + 7) / 8)%nat with 24%nat by lia. reflexivity.
      - replace ((n + 7) / 8)%nat with 32%nat by lia. reflexivity. }
    destruct (aes_encrypt_decrypt_any iv p key Hkey Hiv) as (ct & _ & Henc & _).
    eexists. exact Henc.
  - intros Hn.
    assert (Hkey : Aes.valid_key (Bitarray.tobytes key) = false).
    { unfold Aes.valid_key. rewrite Hklen.
      repeat (apply orb_false_intro); apply Nat.eqb_neq; lia. }
    unfold AESEncryption.encrypt, CbcMode.new. rewrite Hkey. reflexivity.
Qed.

Lemma aes_accepted_key_lengths_witness :
  (exists c, AESEncryption.encrypt (hex_range 16 16) payload_hello
               (firstn 121 key_128) = ret c)
  /\ AESEncryption.encrypt (hex_range 16 16) payload_hello (firstn 120 key_128)
     = raise ValueError.
Proof.
  assert (Hiv : block_ok (hex_range 16 16)).
  { split; [reflexivity|]. apply bytes_okb_ok. vm_compute. reflexivity. }
  split.
  - apply (aes_accepted_key_lengths (hex_range 16 16) payload_hello
             (firstn 121 key_128) Hiv).
    left. vm_compute. lia.
  - apply (aes_accepted_key_lengths (hex_range 16 16) payload_hello
             (firstn 120 key_128) Hiv).
    vm_compute. lia.
Defined.

(** ** The key generators of [encryption.py] *)

Lemma odd_seq_shift (start len : nat) :
  map (fun i => Nat.odd i) (seq (S (S start)) len)
  = map (fun i => Nat.odd i) (seq start len).
Proof.
  revert start. induction len as [|len IH]; intros start; [reflexivity|].
  cbn [seq map]. rewrite IH. reflexivity.
Qed.

Lemma alternating_bytes (m : nat) :
  Bitarray.tobytes (DebugKeyGenerator.speficied_keylength (8 * m)) = repeat 0x55 m.
Proof.
  unfold DebugKeyGenerator.speficied_keylength.
  induction m as [|m IH]; [reflexivity|].
  replace (8 * S m)%nat with (8 + 8 * m)%nat by lia.
  rewrite seq_app, map_app.
  cbn [Nat.add]. rewrite !odd_seq_shift.
  change (map (fun i => Nat.odd i) (seq 0 8)) with (Bitarray.byte_bits 0x55).
  rewrite tobytes_byte_bits by (unfold byte_ok; lia).
  now rewrite IH.
Qed.

(** X5.  The debug key generator installs a key only through
    [key_length]: a call with a non-zero length stores the alternating
    bits 0, 1, 0, 1, ... of that length, whatever the generator held
    before, so every call with the same length gives the same key, and a
    length of [8 * m] bits packs into [m] bytes 0x55.  A call that passes
    a key raises [TypeError], a call without arguments raises
    [ValueError] and [specified_key] raises for every argument; all leave
    the generator as it was, which for a generator from the factory is an
    empty key. *)
Theorem debug_generate_key_behaviour (g : DebugKeyGeneratorObject.t) :
  (forall n : nat, n <> 0%nat ->
     exists g',
       DebugKeyGeneratorObject.generate_key None n g = (ret tt, g')
       /\ DebugKeyGeneratorObject.key_length g' = n
       /\ List.length (DebugKeyGeneratorObject.get_key g') = n
       /\ (forall i : nat, (i < n)%nat ->
             DebugKeyGeneratorObject.get_key g' !! i = Some (Nat.odd i))
       /\ (forall g0, snd (DebugKeyGeneratorObject.generate_key None n g0) = g')
       /\ (forall m : nat, n = (8 * m)%nat ->
             Bitarray.tobytes (DebugKeyGeneratorObject.get_key g') = repeat 0x55 m))
  /\ (forall key n,
        DebugKeyGeneratorObject.generate_key (Some key) n g = (raise TypeError, g))
  /\ DebugKeyGeneratorObject.generate_key None 0 g = (raise ValueError, g)
  /\ (forall key, exists e,
        DebugKeyGeneratorObject.specified_key key g = (raise e, g))
  /\ KeyGeneratorFactory.create_key_generator "DEBUG"
     = ret (DebugGenerator DebugKeyGeneratorObject.init)
  /\ DebugKeyGeneratorObject.get_key DebugKeyGeneratorObject.init = [].
Proof.
  split; [|split; [reflexivity|split; [reflexivity|split; [|split; reflexivity]]]].
  2: { intros [b|s|]; eexists; reflexivity. }
  intros n Hn.
  exists (DebugKeyGeneratorObject.mk (DebugKeyGenerator.speficied_keylength n) n).
  assert (Hrun : forall g0,
             DebugKeyGeneratorObject.generate_key None n g0
             = (ret tt, DebugKeyGeneratorObject.mk
                          (DebugKeyGenerator.speficied_keylength n) n)).
  { intros g0. unfold DebugKeyGeneratorObject.generate_key.
    destruct (Nat.eqb_spec n 0) as [|_]; [contradiction|]. reflexivity. }
  split; [apply Hrun|]. split; [reflexivity|].
  unfold DebugKeyGeneratorObject.get_key. cbn [DebugKeyGeneratorObject.key].
  split; [|split; [|split]].
  - unfold DebugKeyGenerator.speficied_keylength. now rewrite length_map, length_seq.
  - intros i Hi. unfold DebugKeyGenerator.speficied_keylength.
    rewrite list_lookup_fmap, lookup_seq_lt by exact Hi. reflexivity.
  - intros g0. now rewrite Hrun.
  - intros m ->. apply alternating_bytes.
Qed.

(** *** The random generator *)

Lemma bits_be_length (w : nat) (v : Z) :
  List.length (RandomKeyGenerator.bits_be w v) = w.
Proof.
  unfold RandomKeyGenerator.bits_be. now rewrite length_map, length_rev, length_seq.
Qed.

Lemma bits_be_S (w : nat) (v : Z) :
  RandomKeyGenerator.bits_be (S w) v
  = Z.testbit v (Z.of_nat w) :: RandomKeyGenerator.bits_be w v.
Proof.
  unfold RandomKeyGenerator.bits_be.
  rewrite seq_S, rev_app_distr. reflexivity.
Qed.

Lemma bits_be_split (n k : nat) (v : Z) :
  RandomKeyGenerator.bits_be (n + k) v
  = RandomKeyGenerator.bits_be n (Z.shiftr v (Z.of_nat k))
    ++ RandomKeyGenerator.bits_be k v.
Proof.
  induction n as [|n IH]; [reflexivity|].
  cbn [Nat.add]. rewrite !bits_be_S, IH. cbn [app]. f_equal.
  rewrite Z.shiftr_spec by lia. f_equal. lia.
Qed.

Lemma bits_be_zero (w : nat) : RandomKeyGenerator.bits_be w 0 = repeat false w.
Proof.
  induction w as [|w IH]; [reflexivity|].
  rewrite bits_be_S, IH. now rewrite Z.bits_0.
Qed.

Lemma bits_be_mod (w : nat) (v : Z) :
  RandomKeyGenerator.bits_be w (v mod 2 ^ Z.of_nat w) = RandomKeyGenerator.bits_be w v.
Proof.
  assert (H : forall k : nat, (k <= w)%nat ->
             RandomKeyGenerator.bits_be k (v mod 2 ^ Z.of_nat w)
             = RandomKeyGenerator.bits_be k v).
  { induction k as [|k IH]; intros Hk; [reflexivity|].
    rewrite !bits_be_S, IH by lia. f_equal.
    apply Z.mod_pow2_bits_low. lia. }
  now apply H.
Qed.

Lemma from_bytes_big_snoc (l : bytes) (b : Z) :
  from_bytes_big (l ++ [b]) = 256 * from_bytes_big l + b.
Proof. unfold from_bytes_big. now rewrite fold_left_app. Qed.

Lemma from_bytes_big_bound (l : bytes) :
  bytes_ok l -> 0 <= from_bytes_big l < 2 ^ Z.of_nat (8 * List.length l).
Proof.
  induction l as [|b l IH] using rev_ind; intros Hok.
  - cbn. lia.
  - apply Forall_app in Hok. destruct Hok as [Hl Hb].
    apply Forall_inv in Hb. specialize (IH Hl).
    rewrite from_bytes_big_snoc, length_app. cbn [List.length].
    replace (Z.of_nat (8 * (List.length l + 1)))
      with (8 + Z.of_nat (8 * List.length l)) by lia.
    rewrite Z.pow_add_r by lia. change (2 ^ 8) with 256.
    unfold byte_ok in Hb. nia.
Qed.

Lemma bits_be_from_bytes (l : bytes) :
  bytes_ok l ->
  RandomKeyGenerator.bits_be (8 * List.length l) (from_bytes_big l)
  = Bitarray.frombytes l.
Proof.
  induction l as [|b l IH] using rev_ind; intros Hok; [reflexivity|].
  apply Forall_app in Hok. destruct Hok as [Hl Hb]. apply Forall_inv in Hb.
  rewrite from_bytes_big_snoc, length_app, frombytes_app, <- (IH Hl).
  cbn [List.length].
  replace (8 * (List.length l + 1))%nat with (8 * List.length l + 8)%nat by lia.
  rewrite bits_be_split. f_equal.
  - f_equal. rewrite Z.shiftr_div_pow2 by lia. change (2 ^ Z.of_nat 8) with 256.
    unfold byte_ok in Hb.
    rewrite Z.add_comm, Z.mul_comm, Z.div_add by lia.
    rewrite Z.div_small by lia. reflexivity.
  - rewrite <- bits_be_mod. change (2 ^ Z.of_nat 8) with 256.
    unfold byte_ok in Hb.
    rewrite Z.add_comm, Z.mul_comm, Z.mod_add by lia.
    rewrite Z.mod_small by lia. cbn [Bitarray.frombytes flat_map].
    now rewrite app_nil_r.
Qed.

Lemma format_0b_length (w : nat) (v : Z) :
  (w <= List.length (RandomKeyGenerator.format_0b w v))%nat.
Proof.
  unfold RandomKeyGenerator.format_0b. rewrite length_app, repeat_length. lia.
Qed.

(** Below [2 ^ w], the zero-filled digits are the [w] low bits. *)
Lemma format_0b_bits (w : nat) (v : Z) :
  (1 <= w)%nat -> 0 <= v < 2 ^ Z.of_nat w ->
  RandomKeyGenerator.format_0b w v = RandomKeyGenerator.bits_be w v.
Proof.
  intros Hw Hv. unfold RandomKeyGenerator.format_0b, RandomKeyGenerator.bin.
  destruct (Z.eqb_spec v 0) as [->|Hne].
  - rewrite bits_be_zero. cbn [List.length].
    destruct w as [|w]; [lia|].
    replace (S w - 1)%nat with w by lia.
    change [false] with (repeat false 1). rewrite <- repeat_app.
    f_equal. lia.
  - assert (Hlog : Z.log2 v < Z.of_nat w) by (apply Z.log2_lt_pow2; lia).
    pose proof (Z.log2_nonneg v) as Hnn.
    set (d := Z.to_nat (Z.log2 v + 1)).
    rewrite bits_be_length.
    replace w with ((w - d) + d)%nat at 2 by lia.
    rewrite bits_be_split. f_equal.
    rewrite Z.shiftr_eq_0 by lia.
    now rewrite bits_be_zero.
Qed.

(** From [2 ^ w] on, there are more digits than [w] and the first one is
    a one. *)
Lemma format_0b_overflow (w : nat) (v : Z) :
  2 ^ Z.of_nat w <= v ->
  exists rest,
    RandomKeyGenerator.format_0b w v = true :: rest /\ (w <= List.length rest)%nat.
Proof.
  intros Hv.
  assert (Hpos : 0 < v) by (pose proof (Z.pow_pos_nonneg 2 (Z.of_nat w)); lia).
  assert (Hlog : Z.of_nat w <= Z.log2 v) by (apply Z.log2_le_pow2; lia).
  unfold RandomKeyGenerator.format_0b, RandomKeyGenerator.bin.
  destruct (Z.eqb_spec v 0) as [|_]; [lia|].
  replace (Z.to_nat (Z.log2 v + 1)) with (S (Z.to_nat (Z.log2 v))) by lia.
  rewrite bits_be_length.
  replace (w - S (Z.to_nat (Z.log2 v)))%nat with 0%nat by lia.
  cbn [repeat app]. rewrite bits_be_S, Z2Nat.id by lia.
  rewrite Z.bit_log2 by lia.
  eexists. split; [reflexivity|]. rewrite bits_be_length. lia.
Qed.

(** X6.  The random generator needs a length once: a call with a non-zero
    [key_length] stores that length and a key of exactly that many bits,
    whatever bytes the operating system hands out; a later call without a
    length reuses the stored one; and on a generator that never had a
    length (as the factory creates it) a call without a length raises
    [ValueError] and changes nothing. *)
Theorem random_key_has_requested_length
    (urandom : nat -> bytes) (g : RandomKeyGenerator.t) (n : nat) :
  let len := if (n =? 0)%nat then RandomKeyGenerator.key_length g else n in
  (len <> 0%nat ->
     exists k,
       RandomKeyGenerator.generate_key urandom n g
       = (ret tt, RandomKeyGenerator.mk len (Some k))
       /\ List.length k = len)
  /\ (len = 0%nat ->
      RandomKeyGenerator.generate_key urandom n g = (raise ValueError, g))
  /\ KeyGeneratorFactory.create_key_generator "RANDOM"
     = ret (RandomGenerator (RandomKeyGenerator.init 0))
  /\ RandomKeyGenerator.generate_key urandom 0 (RandomKeyGenerator.init 0)
     = (raise ValueError, RandomKeyGenerator.init 0).
Proof.
  intros len. split; [|split; [|split; reflexivity]].
  - intros Hlen.
    exists (firstn len (RandomKeyGenerator.format_0b len
                          (from_bytes_big (urandom ((len + 7) / 8)%nat)))).
    split.
    + unfold RandomKeyGenerator.generate_key. subst len.
      destruct (Nat.eqb_spec n 0) as [Hn|Hn]; cbn [negb].
      * destruct (Nat.ltb_spec (RandomKeyGenerator.key_length g) 1) as [Hlt|_];
          [lia|]. reflexivity.
      * reflexivity.
    + rewrite length_firstn.
      pose proof (format_0b_length len
                    (from_bytes_big (urandom ((len + 7) / 8)%nat))) as Hge.
      lia.
  - intros Hlen. unfold RandomKeyGenerator.generate_key. subst len.
    destruct (Nat.eqb_spec n 0) as [Hn|Hn]; [|contradiction].
    cbn [negb]. rewrite Hlen. reflexivity.
Qed.

(** X7.  When the requested length is a whole number [m >= 1] of bytes
    and the operating system hands out [m] bytes, the random key is
    exactly the bits of those bytes, leading zero bits included: it packs
    back into the bytes drawn. *)
Theorem random_key_of_whole_bytes
    (urandom : nat -> bytes) (g : RandomKeyGenerator.t) (m : nat) :
  (1 <= m)%nat ->
  List.length (urandom m) = m -> bytes_ok (urandom m) ->
  RandomKeyGenerator.generate_key urandom (8 * m) g
  = (ret tt, RandomKeyGenerator.mk (8 * m) (Some (Bitarray.frombytes (urandom m))))
  /\ Bitarray.tobytes (Bitarray.frombytes (urandom m)) = urandom m.
Proof.
  intros Hm Hlen Hok. split; [|now apply tobytes_frombytes].
  unfold RandomKeyGenerator.generate_key.
  destruct (Nat.eqb_spec (8 * m) 0) as [|_]; [lia|]. cbn [negb].
  cbn [RandomKeyGenerator.key_length].
  replace ((8 * m + 7) / 8)%nat with m.
  2: { apply Nat.div_unique with 7%nat; lia. }
  pose proof (from_bytes_big_bound _ Hok) as Hb. rewrite Hlen in Hb.
  rewrite format_0b_bits by (lia || exact Hb).
  rewrite firstn_all2 by (rewrite bits_be_length; lia).
  pose proof (bits_be_from_bytes _ Hok) as Hbits. rewrite Hlen in Hbits.
  now rewrite Hbits.
Qed.

(** The operating system's bytes of the examples: [n] bytes 0xA5. *)
Definition urandom_a5 (n : nat) : bytes := repeat 0xA5 n.

Lemma random_key_of_whole_bytes_witness :
  RandomKeyGenerator.generate_key urandom_a5 16 (RandomKeyGenerator.init 0)
  = (ret tt, RandomKeyGenerator.mk 16 (Some (Bitarray.frombytes [0xA5; 0xA5])))
  /\ Bitarray.tobytes (Bitarray.frombytes [0xA5; 0xA5]) = [0xA5; 0xA5].
Proof.
  apply (random_key_of_whole_bytes urandom_a5 (RandomKeyGenerator.init 0) 2).
  - lia.
  - reflexivity.
  - repeat constructor; unfold byte_ok; lia.
Defined.

(** X8.  When the requested length [n] is not a whole number of bytes,
    the bytes drawn can hold a number of more than [n] binary digits;
    the key is then the first [n] of those digits, and its first bit is
    always a one.  The keys of such a length are not uniform. *)
Theorem random_key_leading_one
    (urandom : nat -> bytes) (g : RandomKeyGenerator.t) (n : nat) :
  (1 <= n)%nat ->
  2 ^ Z.of_nat n <= from_bytes_big (urandom ((n + 7) / 8)%nat) ->
  exists rest,
    RandomKeyGenerator.generate_key urandom n g
    = (ret tt, RandomKeyGenerator.mk n (Some (true :: rest))).
Proof.
  intros Hn Hv.
  destruct (format_0b_overflow n _ Hv) as (rest & Hfmt & Hrest).
  unfold RandomKeyGenerator.generate_key.
  destruct (Nat.eqb_spec n 0) as [|_]; [lia|]. cbn [negb].
  cbn [RandomKeyGenerator.key_length]. rewrite Hfmt.
  destruct n as [|n]; [lia|]. cbn [firstn].
  eexists. reflexivity.
Qed.

Lemma random_key_leading_one_witness :
  exists rest,
    RandomKeyGenerator.generate_key urandom_a5 5 (RandomKeyGenerator.init 0)
    = (ret tt, RandomKeyGenerator.mk 5 (Some (true :: rest))).
Proof.
  apply (random_key_leading_one urandom_a5 (RandomKeyGenerator.init 0) 5).
  - lia.
  - vm_compute. discriminate.
Defined.

(** *** The factories *)

(** The payloads and keys a scheme is made for: whole bytes and a key of
    128, 192 or 256 bits for AES, a key at least as long as the payload
    for XOR. *)
Definition fits (scheme : EncryptionScheme.t) (p k : bitarray) : Prop :=
  match scheme with
  | EncryptionScheme.AES _ => (List.length p mod 8 = 0)%nat /\ key_bits_ok k
  | EncryptionScheme.XOR => (List.length p <= List.length k)%nat
  | EncryptionScheme.Debug => True
  end.

(** X9.  The encryption factory knows the three names ["AES"], ["XOR"]
    and ["DEBUG"], in this spelling, and raises [ValueError] for every
    other name; a scheme it creates is named ["AES-128"], ["XOR"] or
    ["Debug"], and decrypts what it encrypts for every payload and key
    it is made for. *)
Theorem factory_scheme_roundtrip :
  (forall type : string,
     type <> "AES"%string -> type <> "XOR"%string -> type <> "DEBUG"%string ->
     EncryptionFactory.create_encryption_scheme type = raise ValueError)
  /\ (forall (type : string) (scheme : EncryptionScheme.t),
        EncryptionFactory.create_encryption_scheme type = ret scheme ->
        In (EncryptionScheme.get_name scheme)
           ["AES-128"%string; "XOR"%string; "Debug"%string]
        /\ forall (iv : bytes) (p k : bitarray),
             fits scheme p k -> block_ok iv ->
             exists c,
               EncryptionScheme.encrypt iv scheme p k = ret c
               /\ EncryptionScheme.decrypt scheme c k = ret p).
Proof.
  split.
  - intros type H1 H2 H3. unfold EncryptionFactory.create_encryption_scheme.
    now rewrite !eqb_neq_false by assumption.
  - intros type scheme Hcreate.
    assert (Hs : scheme = EncryptionScheme.AES 128
                 \/ scheme = EncryptionScheme.XOR
                 \/ scheme = EncryptionScheme.Debug).
    { unfold EncryptionFactory.create_encryption_scheme, ret, raise in Hcreate.
      repeat match type of Hcreate with
             | (if ?c then _ else _) = _ => destruct c
             end; try discriminate Hcreate; injection Hcreate as <-; auto. }
    destruct Hs as [-> | [-> | ->]].
    + split; [left; reflexivity|].
      intros iv p k [Hp Hk] Hiv. cbn [EncryptionScheme.encrypt EncryptionScheme.decrypt].
      assert (Hn : List.length p = (8 * (List.length p / 8))%nat).
      { pose proof (Nat.div_mod_eq (List.length p) 8). lia. }
      destruct (aes_encrypt_decrypt iv p k _ Hn Hk Hiv) as (ct & He & Hd).
      eexists. split; [exact He | exact Hd].
    + split; [right; left; reflexivity|].
      intros iv p k Hfit _. cbn [EncryptionScheme.encrypt EncryptionScheme.decrypt].
      eexists. split; [reflexivity|].
      unfold XOREncryption.decrypt, XOREncryption.encrypt.
      now rewrite zip_xor_twice.
    + split; [right; right; left; reflexivity|].
      intros iv p k _ _. eexists. split; reflexivity.
Qed.

(** ** The user storage and the user manager of [user_manager.py] *)

(** X10.  The dictionary storage refuses a second record under an id it
    holds: [add_user] raises [DuplicateUser] and changes nothing.  Under a
    fresh id it stores the record, which [get_user] then returns and
    [has_user] reports, while every other id reads as before. *)
Theorem storage_add_then_get (users : storage) (user_id : string) (info : user_info) :
  (is_Some (users !! user_id) ->
     DictUserStorage.add_user user_id info users = (raise DuplicateUser, users))
  /\ (users !! user_id = None ->
      exists users',
        DictUserStorage.add_user user_id info users = (ret tt, users')
        /\ DictUserStorage.get_user user_id users' = (ret info, users')
        /\ DictUserStorage.has_user user_id users' = (ret true, users')
        /\ forall other, other <> user_id ->
             fst (DictUserStorage.get_user other users')
             = fst (DictUserStorage.get_user other users)).
Proof.
  split.
  - intros [x Hx]. unfold DictUserStorage.add_user. now rewrite Hx.
  - intros Hnone. exists (<[user_id := info]> users).
    unfold DictUserStorage.add_user, DictUserStorage.get_user,
      DictUserStorage.has_user.
    rewrite Hnone, lookup_insert_eq.
    split; [reflexivity|]. split; [reflexivity|]. split; [reflexivity|].
    intros other Hne. rewrite lookup_insert_ne by congruence.
    destruct (users !! other); reflexivity.
Qed.

(** X11.  Removing a record undoes adding it: after [add_user] under a
    fresh id and [remove_user] of that id the storage is the one before,
    and the id is unknown again to [get_user], [has_user] and
    [update_user].  [update_user] never creates a record, and
    [remove_user] of an unknown id raises [UserNotFound]; both leave the
    storage as it was. *)
Theorem storage_remove_undoes_add (users : storage) (user_id : string)
    (info info' : user_info) :
  users !! user_id = None ->
  (DictUserStorage.add_user user_id info >> DictUserStorage.remove_user user_id) users
  = (ret tt, users)
  /\ DictUserStorage.get_user user_id users = (raise UserNotFound, users)
  /\ DictUserStorage.has_user user_id users = (ret false, users)
  /\ DictUserStorage.update_user user_id info' users = (raise UserNotFound, users)
  /\ DictUserStorage.remove_user user_id users = (raise UserNotFound, users).
Proof.
  intros Hnone.
  unfold st_bind, DictUserStorage.add_user, DictUserStorage.remove_user,
    DictUserStorage.get_user, DictUserStorage.has_user, DictUserStorage.update_user.
  rewrite Hnone, lookup_insert_eq, delete_insert_id by exact Hnone.
  repeat split.
Qed.

Lemma storage_remove_undoes_add_witness :
  (DictUserStorage.add_user "k0z12" (Some user_b) >> DictUserStorage.remove_user "k0z12")
    (<["ab3f9" := Some user_a]> ∅)
  = (ret tt, <["ab3f9" := Some user_a]> ∅).
Proof.
  apply (storage_remove_undoes_add (<["ab3f9" := Some user_a]> ∅) "k0z12"
           (Some user_b) None).
  vm_compute. reflexivity.
Defined.

(** The outcome of [set_user_state] by cases. *)
Lemma set_user_state_run (users : storage) (user_id : string)
    (state : UserState) (peer : option string) :
  UserManager.set_user_state user_id state peer users
  = if UserManager.state_peer_mismatch state peer then (raise InvalidState, users)
    else match users !! user_id with
         | None => (raise UserNotFound, users)
         | Some None => (raise AttributeError, users)
         | Some (Some u) =>
             (ret tt,
              <[user_id := Some (User.set_peer (User.set_state u state) peer)]> users)
         end.
Proof.
  unfold UserManager.set_user_state.
  destruct (UserManager.state_peer_mismatch state peer); [reflexivity|].
  unfold st_bind, DictUserStorage.get_user, DictUserStorage.update_user.
  destruct (users !! user_id) as [[u|]|] eqn:Hu; try reflexivity.
  unfold ret. cbn beta iota. now rewrite Hu.
Qed.

Lemma state_peer_mismatch_false (state : UserState) (peer : option string) :
  (state = IDLE <-> peer = None) ->
  UserManager.state_peer_mismatch state peer = false.
Proof.
  intros Hiff. unfold UserManager.state_peer_mismatch.
  destruct (decide (state = IDLE)) as [Hs | Hs].
  - rewrite !bool_decide_eq_true_2 by tauto. reflexivity.
  - rewrite !bool_decide_eq_false_2 by tauto. reflexivity.
Qed.

Lemma state_peer_mismatch_true (state : UserState) (peer : option string) :
  ~ (state = IDLE <-> peer = None) ->
  UserManager.state_peer_mismatch state peer = true.
Proof.
  intros Hiff. unfold UserManager.state_peer_mismatch.
  destruct (decide (state = IDLE)) as [Hs | Hs];
    destruct (decide (peer = None)) as [Hp | Hp]; try tauto.
  - rewrite bool_decide_eq_true_2, bool_decide_eq_false_2 by assumption. reflexivity.
  - rewrite bool_decide_eq_false_2, bool_decide_eq_true_2 by assumption. reflexivity.
Qed.

(** The outcome of [add_user], called as it is declared, by cases. *)
Lemma add_user_run (users : storage) (draw : string) :
  UserManager.add_user draw 0 users
  = match users !! UserManager.generate_user_id draw with
    | Some _ => (raise DuplicateUser, users)
    | None =>
        (ret (UserManager.generate_user_id draw),
         <[UserManager.generate_user_id draw := None]> users)
    end.
Proof.
  unfold UserManager.add_user, st_bind, DictUserStorage.add_user.
  destruct (users !! UserManager.generate_user_id draw); reflexivity.
Qed.

(** X12.  [UserManager.set_user_state] checks the pair of state and peer
    before it looks the user up: IDLE with a peer, or another state
    without one, raises [InvalidState] whether the user exists or not.
    With a consistent pair, an unknown id raises [UserNotFound] and a
    stored [None] raises [AttributeError].  In all three cases the
    storage stays as it was. *)
Theorem set_user_state_failures (users : storage) (user_id : string)
    (state : UserState) (peer : option string) :
  ((state = IDLE /\ peer <> None) \/ (state <> IDLE /\ peer = None) ->
     UserManager.set_user_state user_id state peer users = (raise InvalidState, users))
  /\ ((state = IDLE <-> peer = None) ->
      (users !! user_id = None ->
         UserManager.set_user_state user_id state peer users
         = (raise UserNotFound, users))
      /\ (users !! user_id = Some None ->
          UserManager.set_user_state user_id state peer users
          = (raise AttributeError, users))).
Proof.
  rewrite set_user_state_run. split.
  - intros H. rewrite state_peer_mismatch_true; [reflexivity|].
    destruct H as [[Hs Hp] | [Hs Hp]]; tauto.
  - intros Hiff. rewrite state_peer_mismatch_false by exact Hiff.
    split; intros ->; reflexivity.
Qed.



(** Every stored user is idle exactly when it has no peer. *)
Definition state_peer_consistent (users : storage) : Prop :=
  forall user_id u,
    users !! user_id = Some (Some u) ->
    (User.state u = IDLE <-> User.peer u = None).

(** X14.  The user manager keeps the registry consistent: when every
    stored user is idle exactly when it has no peer, this still holds
    after any call of [set_user_state], [add_user] or [remove_user],
    whether the call succeeds or raises. *)
Theorem user_manager_keeps_state_peer_consistent (users : storage) :
  state_peer_consistent users ->
  (forall user_id state peer,
     state_peer_consistent (snd (UserManager.set_user_state user_id state peer users)))
  /\ (forall draw extra_args,
        state_peer_consistent (snd (UserManager.add_user draw extra_args users)))
  /\ (forall user_id,
        state_peer_consistent (snd (UserManager.remove_user user_id users))).
Proof.
  intros Hc. split; [|split].
  - intros user_id state peer. rewrite set_user_state_run.
    destruct (UserManager.state_peer_mismatch state peer) eqn:Hx; [exact Hc|].
    destruct (users !! user_id) as [[u|]|] eqn:Hu; [|exact Hc|exact Hc].
    cbn [snd]. intros id v Hv.
    destruct (decide (user_id = id)) as [<-|Hne].
    + rewrite lookup_insert_eq in Hv. injection Hv as <-.
      cbn [User.set_peer User.set_state User.state User.peer].
      unfold UserManager.state_peer_mismatch in Hx.
      destruct (decide (state = IDLE)) as [Hs | Hs];
        destruct (decide (peer = None)) as [Hp | Hp]; try tauto.
      * rewrite bool_decide_eq_true_2, bool_decide_eq_false_2 in Hx by assumption.
        discriminate Hx.
      * rewrite bool_decide_eq_false_2, bool_decide_eq_true_2 in Hx by assumption.
        discriminate Hx.
    + rewrite lookup_insert_ne in Hv by exact Hne. now apply (Hc id).
  - intros draw [|k]; [|exact Hc].
    rewrite add_user_run.
    destruct (users !! UserManager.generate_user_id draw) eqn:Hu; [exact Hc|].
    cbn [snd]. intros id v Hv.
    destruct (decide (UserManager.generate_user_id draw = id)) as [<-|Hne].
    + rewrite lookup_insert_eq in Hv. discriminate Hv.
    + rewrite lookup_insert_ne in Hv by exact Hne. now apply (Hc id).
  - intros user_id.
    unfold UserManager.remove_user, st_catch, DictUserStorage.remove_user.
    destruct (users !! user_id) eqn:Hu; [|exact Hc].
    unfold ret. cbn [snd]. intros id v Hv.
    apply lookup_delete_Some in Hv. destruct Hv as [_ Hv]. now apply (Hc id).
Qed.

Lemma user_manager_keeps_state_peer_consistent_witness :
  state_peer_consistent
    (snd (UserManager.set_user_state "ab3f9" CONNECTED (Some "k0z12"%string)
            (<["ab3f9" := Some user_a]> ∅))).
Proof.
  apply (user_manager_keeps_state_peer_consistent (<["ab3f9" := Some user_a]> ∅)).
  intros id u Hu. apply lookup_insert_Some in Hu.
  destruct Hu as [[_ Hu] | [_ Hu]].
  - injection Hu as <-. split; reflexivity.
  - rewrite lookup_empty in Hu. discriminate Hu.
Defined.

(** X15.  What [UserManager.add_user] stores cannot be used: called as it
    is declared, with an id that is not taken, it returns the id and
    stores [None] under it, so that a later [get_user] of that id raises
    [TypeError] and a later [set_user_state] with a consistent pair
    raises [AttributeError]; with an id that is taken it raises
    [DuplicateUser] and stores nothing. *)
Theorem add_user_stores_no_record (users : storage) (draw : string) :
  let user_id := UserManager.generate_user_id draw in
  (users !! user_id = None ->
     exists users',
       UserManager.add_user draw 0 users = (ret user_id, users')
       /\ DictUserStorage.get_user user_id users' = (ret None, users')
       /\ UserManager.get_user user_id users' = (raise TypeError, users')
       /\ UserManager.set_user_state user_id CONNECTING (Some user_id) users'
          = (raise AttributeError, users')
       /\ UserManager.set_user_state user_id IDLE None users'
          = (raise AttributeError, users'))
  /\ (is_Some (users !! user_id) ->
      UserManager.add_user draw 0 users = (raise DuplicateUser, users)).
Proof.
  intros user_id. rewrite add_user_run. fold user_id. split.
  - intros Hnone. exists (<[user_id := None]> users).
    rewrite !set_user_state_run, Hnone.
    unfold UserManager.get_user, st_bind, DictUserStorage.get_user.
    rewrite lookup_insert_eq.
    repeat (split; [reflexivity|]). reflexivity.
  - intros [x Hx]. now rewrite Hx.
Qed.

(** An upper-case ASCII letter, and the code of a character put in
    lower case. *)
Definition is_upper (c : ascii) : bool :=
  (65 <=? nat_of_ascii c)%nat && (nat_of_ascii c <=? 90)%nat.

Definition lower_code (c : ascii) : nat :=
  if is_upper c then (nat_of_ascii c + 32)%nat else nat_of_ascii c.

(** Two characters that are equal or are the two cases of one letter. *)
Definition same_up_to_case (a b : ascii) : Prop :=
  a = b
  \/ (is_upper a = true /\ nat_of_ascii b = (nat_of_ascii a + 32)%nat)
  \/ (is_upper b = true /\ nat_of_ascii a = (nat_of_ascii b + 32)%nat).

Lemma is_upper_spec (c : ascii) :
  is_upper c = true <-> (65 <= nat_of_ascii c <= 90)%nat.
Proof.
  unfold is_upper. rewrite andb_true_iff, !Nat.leb_le. tauto.
Qed.

Lemma lower_ascii_code (c : ascii) : nat_of_ascii (lower_ascii c) = lower_code c.
Proof.
  unfold lower_ascii, lower_code, is_upper.
  destruct ((65 <=? nat_of_ascii c)%nat && (nat_of_ascii c <=? 90)%nat) eqn:E;
    [|reflexivity].
  apply andb_true_iff in E. destruct E as [_ E]. apply Nat.leb_le in E.
  apply nat_ascii_embedding. lia.
Qed.

Lemma ascii_code_inj (a b : ascii) : nat_of_ascii a = nat_of_ascii b -> a = b.
Proof.
  intros H. rewrite <- (ascii_nat_embedding a), <- (ascii_nat_embedding b).
  now rewrite H.
Qed.

Lemma lower_ascii_eq_iff (a b : ascii) :
  lower_ascii a = lower_ascii b <-> same_up_to_case a b.
Proof.
  unfold same_up_to_case. split.
  - intros H. apply (f_equal nat_of_ascii) in H.
    rewrite !lower_ascii_code in H. unfold lower_code in H.
    destruct (is_upper a) eqn:Ea, (is_upper b) eqn:Eb.
    + left. apply ascii_code_inj. lia.
    + right. left. split; [reflexivity | lia].
    + right. right. split; [reflexivity | lia].
    + left. now apply ascii_code_inj.
  - intros [-> | [[Ha Hb] | [Hb Ha]]]; [reflexivity| |];
      apply ascii_code_inj; rewrite !lower_ascii_code; unfold lower_code.
    + rewrite Ha. apply is_upper_spec in Ha.
      destruct (is_upper b) eqn:Eb; [apply is_upper_spec in Eb; lia | lia].
    + rewrite Hb. apply is_upper_spec in Hb.
      destruct (is_upper a) eqn:Ea; [apply is_upper_spec in Ea; lia | lia].
Qed.

Lemma map_eq_Forall2 {A B} (f : A -> B) (l1 l2 : list A) :
  map f l1 = map f l2 <-> Forall2 (fun a b => f a = f b) l1 l2.
Proof.
  revert l2. induction l1 as [|a l1 IH]; intros [|b l2]; cbn [map]; split;
    intros H; try discriminate H; try (now inversion H); try constructor.
  - now injection H.
  - apply IH. now injection H.
  - inversion H as [|? ? ? ? Hab Hrest]; subst. f_equal; [exact Hab|].
    now apply IH.
Qed.

Lemma string_of_list_ascii_inj (l1 l2 : list ascii) :
  string_of_list_ascii l1 = string_of_list_ascii l2 -> l1 = l2.
Proof.
  intros H. apply (f_equal list_ascii_of_string) in H.
  now rewrite !list_ascii_of_string_of_list_ascii in H.
Qed.

(** X16.  The id the user manager generates is the draw put in lower
    case: character by character it is the draw, with every upper-case
    ASCII letter replaced by its lower-case letter, so it is as long as
    the draw and holds no upper-case letter, and lowering it again changes
    nothing.  Two draws give the same id exactly when they are equal up to
    the case of their letters. *)
Theorem generate_user_id_lower_case (draw : string) :
  String.length (UserManager.generate_user_id draw) = String.length draw
  /\ map nat_of_ascii (list_ascii_of_string (UserManager.generate_user_id draw))
     = map lower_code (list_ascii_of_string draw)
  /\ Forall (fun c => ~ (65 <= nat_of_ascii c <= 90)%nat)
       (list_ascii_of_string (UserManager.generate_user_id draw))
  /\ UserManager.generate_user_id (UserManager.generate_user_id draw)
     = UserManager.generate_user_id draw
  /\ (forall other,
        UserManager.generate_user_id other = UserManager.generate_user_id draw
        <-> Forall2 same_up_to_case
              (list_ascii_of_string other) (list_ascii_of_string draw)).
Proof.
  assert (Hlow : forall c, ~ (65 <= nat_of_ascii (lower_ascii c) <= 90)%nat).
  { intros c. rewrite lower_ascii_code. unfold lower_code.
    destruct (is_upper c) eqn:E.
    - apply is_upper_spec in E. lia.
    - intros H. apply is_upper_spec in H. congruence. }
  assert (Hidem : forall c, lower_ascii (lower_ascii c) = lower_ascii c).
  { intros c. specialize (Hlow c). unfold lower_ascii at 1.
    destruct ((65 <=? nat_of_ascii (lower_ascii c))%nat
              && (nat_of_ascii (lower_ascii c) <=? 90)%nat) eqn:E; [|reflexivity].
    apply andb_true_iff in E. destruct E as [E1 E2].
    apply Nat.leb_le in E1, E2. lia. }
  assert (Hchars : forall d,
             list_ascii_of_string (UserManager.generate_user_id d)
             = map lower_ascii (list_ascii_of_string d)).
  { intros d. unfold UserManager.generate_user_id.
    apply list_ascii_of_string_of_list_ascii. }
  split; [|split; [|split; [|split]]].
  - unfold UserManager.generate_user_id.
    induction draw as [|c draw IH]; [reflexivity|].
    cbn [list_ascii_of_string map string_of_list_ascii String.length].
    now rewrite IH.
  - rewrite Hchars, map_map. apply map_ext. intros c. apply lower_ascii_code.
  - rewrite Hchars. apply Forall_forall. intros c Hc.
    apply list_elem_of_In, in_map_iff in Hc. destruct Hc as (c0 & <- & _).
    apply Hlow.
  - unfold UserManager.generate_user_id at 1. rewrite Hchars, map_map.
    unfold UserManager.generate_user_id. f_equal.
    apply map_ext. intros c. apply Hidem.
  - intros other. unfold UserManager.generate_user_id. split.
    + intros H. apply string_of_list_ascii_inj, map_eq_Forall2 in H.
      eapply Forall2_impl; [exact H|].
      intros a b Hab. now apply lower_ascii_eq_iff.
    + intros H. f_equal. apply map_eq_Forall2.
      eapply Forall2_impl; [exact H|].
      intros a b Hab. now apply lower_ascii_eq_iff.
Qed.

(** Two draws that differ in the case of two letters. *)
Example generate_user_id_collision :
  UserManager.generate_user_id "Ab3F9" = UserManager.generate_user_id "aB3f9".
Proof. reflexivity. Qed.

(** X17.  [UserManager.remove_user] never raises: it removes the record
    when there is one and returns normally when there is none, so that a
    second removal of the same id changes nothing; the id is unknown
    afterwards and every other id reads as before.  The server's
    [remove_user], which calls it, returns normally as well: its own
    [except UserNotFound] branch is never taken. *)
Theorem remove_user_never_raises (users : storage) (user_id : string) :
  (exists users',
     UserManager.remove_user user_id users = (ret tt, users')
     /\ UserManager.remove_user user_id users' = (ret tt, users')
     /\ DictUserStorage.has_user user_id users' = (ret false, users')
     /\ forall other, other <> user_id ->
          fst (DictUserStorage.get_user other users')
          = fst (DictUserStorage.get_user other users))
  /\ (forall w, fst (VideoChatServer.remove_user user_id w) = ret tt).
Proof.
  assert (Hrun : forall m : storage,
             UserManager.remove_user user_id m = (ret tt, delete user_id m)).
  { intros m.
    unfold UserManager.remove_user, st_catch, DictUserStorage.remove_user.
    destruct (m !! user_id) eqn:Hu; [reflexivity|].
    unfold raise, st_ret. now rewrite delete_id. }
  split.
  - exists (delete user_id users).
    split; [apply Hrun|]. split; [|split].
    + rewrite Hrun. f_equal. apply delete_id, lookup_delete_eq.
    + unfold DictUserStorage.has_user. rewrite lookup_delete_eq.
      rewrite bool_decide_eq_false_2; [reflexivity|]. intros [x Hx]. discriminate Hx.
    + intros other Hne. unfold DictUserStorage.get_user.
      rewrite lookup_delete_ne by congruence.
      destruct (users !! other); reflexivity.
  - intros w. unfold VideoChatServer.remove_user, VideoChatServer.on_user_manager.
    now rewrite Hrun.
Qed.

(** ** The signaling channel class [SocketAPI] *)

(** X20.  Nothing ever takes the signaling channel out of the state
    LIVE.  [kill] never returns normally and [init] never completes; they
    and the two event handlers leave the state as it was, and [run]
    either leaves it or sets it to LIVE.  ([init] and [kill] assign
    [ServerState.INIT], a name the enumeration does not have.) *)
Theorem socket_api_state_is_never_reset (cls : SocketAPI.t) :
  (exists e, fst (SocketAPI.kill cls) = raise e
             /\ (e = ServerError \/ e = AttributeError))
  /\ snd (SocketAPI.kill cls) = cls
  /\ (forall websocket_endpoint users,
        SocketAPI.state (snd (SocketAPI.init websocket_endpoint users cls))
        = SocketAPI.state cls)
  /\ (forall auth,
        SocketAPI.state (snd (SocketAPI.on_connect auth cls)) = SocketAPI.state cls)
  /\ (forall auth msg, snd (SocketAPI.on_message auth msg cls) = cls)
  /\ (forall socketio_run,
        let cls' := snd (SocketAPI.run socketio_run cls) in
        SocketAPI.state cls' = SocketAPI.state cls \/ SocketAPI.state cls' = LIVE).
Proof.
  destruct cls as [st ep tok users inst].
  split; [|split; [|split; [|split; [|split]]]].
  - unfold SocketAPI.kill, st_bind, st_get, st_raise, st_lift. cbn.
    destruct st; cbn; eauto.
  - unfold SocketAPI.kill, st_bind, st_get, st_raise, st_lift. cbn.
    destruct st; reflexivity.
  - intros wep us.
    unfold SocketAPI.init, st_bind, st_get, st_put, st_raise, st_lift. cbn.
    destruct st; reflexivity.
  - intros auth.
    unfold SocketAPI.on_connect, st_bind, st_get, st_put, st_ret. cbn.
    destruct (negb (bool_decide (st = LIVE))); [reflexivity|].
    destruct (negb _); reflexivity.
  - intros [user_id tk] msg.
    unfold SocketAPI.on_message, SocketAPI.verify_sess_token,
      st_bind, st_get, st_ret, st_raise. cbn.
    destruct (users !! user_id) as [[u|t]|]; try reflexivity.
    destruct (String.eqb tk t); reflexivity.
  - intros socketio_run.
    unfold SocketAPI.run, st_bind, st_get, st_put, st_raise, st_ret, st_lift. cbn.
    destruct st; cbn; auto;
      (destruct ep as [ep|]; cbn; auto;
       destruct (socketio_run (Endpoint.ip ep) (Endpoint.port ep)); cbn; auto).
Qed.

(** X21.  A serving thread whose address cannot be bound does not move
    to the next port: [run] calls [socketio.run] once, and when that
    raises [OSError] the thread ends with [AttributeError], the endpoint
    as it was and the class marked LIVE although nothing is served.
    After that, [kill] fails the same way and a second [run] is refused
    with [ServerError]. *)
Theorem run_does_not_retry_on_bind_failure
    (socketio_run : string -> Z -> SocketAPI.served)
    (cls : SocketAPI.t) (ep : Endpoint.t) :
  SocketAPI.state cls = INITIALIZED \/ SocketAPI.state cls = CLOSED ->
  SocketAPI.endpoint cls = Some ep ->
  socketio_run (Endpoint.ip ep) (Endpoint.port ep) = SocketAPI.BindFailed ->
  let stuck := SocketAPI.set_state cls LIVE in
  SocketAPI.run socketio_run cls = (raise AttributeError, stuck)
  /\ SocketAPI.endpoint stuck = Some ep
  /\ SocketAPI.kill stuck = (raise AttributeError, stuck)
  /\ SocketAPI.run socketio_run stuck = (raise ServerError, stuck).
Proof.
  destruct cls as [st e tok users inst]. cbn [SocketAPI.state SocketAPI.endpoint].
  intros Hst -> Hrun.
  unfold SocketAPI.run, SocketAPI.kill, SocketAPI.set_state,
    st_bind, st_get, st_put, st_raise, st_ret, st_lift.
  cbn [SocketAPI.state SocketAPI.endpoint SocketAPI.conn_token SocketAPI.users
       SocketAPI.instance].
  destruct Hst as [-> | ->]; cbn; rewrite Hrun; cbn; repeat split.
Qed.

(** A bind that always fails, and a class that [init] had completed. *)
Definition port_in_use (host : string) (port : Z) : SocketAPI.served :=
  SocketAPI.BindFailed.

Definition socket_api_initialized : SocketAPI.t :=
  SocketAPI.mk INITIALIZED (Some (Endpoint.init "10.0.0.9" 3000 None)) None ∅ false.

Lemma run_does_not_retry_on_bind_failure_witness :
  SocketAPI.run port_in_use socket_api_initialized
  = (raise AttributeError, SocketAPI.set_state socket_api_initialized LIVE).
Proof.
  apply (run_does_not_retry_on_bind_failure port_in_use socket_api_initialized
           (Endpoint.init "10.0.0.9" 3000 None)).
  - left. reflexivity.
  - reflexivity.
  - reflexivity.
Defined.

(** The run of [on_connect] by cases. *)
Lemma on_connect_run (auth : string * string) (cls : SocketAPI.t) :
  SocketAPI.on_connect auth cls
  = if negb (bool_decide (SocketAPI.state cls = LIVE)) then (ret None, cls)
    else if negb (SocketAPI.verify_connection cls auth) then (ret None, cls)
    else (ret (Some (SocketAPI.generate_sess_token (fst auth))),
          SocketAPI.set_user cls (fst auth)
            (inr (SocketAPI.generate_sess_token (fst auth)))).
Proof.
  unfold SocketAPI.on_connect, st_bind, st_get, st_put, st_ret; simpl.
  destruct (negb (bool_decide (SocketAPI.state cls = LIVE))); [reflexivity|].
  destruct (negb (SocketAPI.verify_connection cls auth)); reflexivity.
Qed.

Lemma on_connect_accepted (cls : SocketAPI.t) (user_id conn_token : string) :
  SocketAPI.state cls = LIVE ->
  is_Some (SocketAPI.users cls !! user_id) ->
  SocketAPI.conn_token cls = Some conn_token ->
  SocketAPI.on_connect (user_id, conn_token) cls
  = (ret (Some (SocketAPI.generate_sess_token user_id)),
     SocketAPI.set_user cls user_id (inr (SocketAPI.generate_sess_token user_id))).
Proof.
  intros Hs [v Hu] Ht.
  rewrite on_connect_run. unfold SocketAPI.verify_connection. cbn [fst].
  rewrite (bool_decide_eq_true_2 _ Hs), Hu, Ht.
  rewrite bool_decide_eq_false_2 by discriminate.
  rewrite bool_decide_eq_true_2 by reflexivity. reflexivity.
Qed.

(** X22.  [on_connect] accepts a connection in exactly one situation:
    the class is LIVE, the user id is one of the expected users and the
    token is the connection token of the class.  It then replaces what
    was stored for the user by the session token it emits and changes
    nothing else; in every other situation it returns [False] and
    changes nothing at all. *)
Theorem on_connect_accepts_iff (cls : SocketAPI.t) (user_id conn_token : string) :
  let accepted :=
    SocketAPI.state cls = LIVE
    /\ is_Some (SocketAPI.users cls !! user_id)
    /\ SocketAPI.conn_token cls = Some conn_token in
  (accepted ->
     SocketAPI.on_connect (user_id, conn_token) cls
     = (ret (Some (SocketAPI.generate_sess_token user_id)),
        SocketAPI.set_user cls user_id (inr (SocketAPI.generate_sess_token user_id))))
  /\ (~ accepted -> SocketAPI.on_connect (user_id, conn_token) cls = (ret None, cls)).
Proof.
  intros accepted. subst accepted. split.
  - intros (Hs & Hu & Ht). now apply on_connect_accepted.
  - intros Hn. rewrite on_connect_run. unfold SocketAPI.verify_connection.
    destruct (decide (SocketAPI.state cls = LIVE)) as [Hs | Hs].
    2: { now rewrite (bool_decide_eq_false_2 _ Hs). }
    rewrite (bool_decide_eq_true_2 _ Hs). cbn [negb].
    destruct (SocketAPI.users cls !! user_id) as [v|] eqn:Hu.
    2: { now rewrite bool_decide_eq_true_2 by reflexivity. }
    rewrite bool_decide_eq_false_2 by discriminate.
    destruct (decide (Some conn_token = SocketAPI.conn_token cls)) as [Ht | Ht].
    + exfalso. apply Hn. eauto.
    + now rewrite (bool_decide_eq_false_2 _ Ht).
Qed.

(** The run of [on_message] by cases. *)
Lemma on_message_run (user_id token msg : string) (cls : SocketAPI.t) :
  SocketAPI.on_message (user_id, token) msg cls
  = (match SocketAPI.users cls !! user_id with
     | None => raise UserNotFound
     | Some (inl _) => ret None
     | Some (inr issued) =>
         if String.eqb token issued then ret (Some (user_id, msg)) else ret None
     end, cls).
Proof.
  unfold SocketAPI.on_message, SocketAPI.verify_sess_token,
    st_bind, st_get, st_ret, st_raise; simpl.
  destruct (SocketAPI.users cls !! user_id) as [[u|issued]|]; try reflexivity.
  destruct (String.eqb token issued); reflexivity.
Qed.

(** X23.  A message is passed on only with the token that [on_connect]
    issued.  After an accepted connection of a user, [on_message] sends
    the pair of the user id and the message to every client when it
    comes with the issued token, and drops it for every other token.
    Before the connection, while the class still holds the [User] that
    [init] stored, every message of that user is dropped; and a message
    of an id the class does not know raises [UserNotFound].  The class
    is never changed. *)
Theorem on_message_needs_issued_token (cls : SocketAPI.t)
    (user_id conn_token msg : string) :
  (SocketAPI.state cls = LIVE ->
   is_Some (SocketAPI.users cls !! user_id) ->
   SocketAPI.conn_token cls = Some conn_token ->
   let cls' := snd (SocketAPI.on_connect (user_id, conn_token) cls) in
   SocketAPI.on_message (user_id, SocketAPI.generate_sess_token user_id) msg cls'
   = (ret (Some (user_id, msg)), cls')
   /\ forall token, token <> SocketAPI.generate_sess_token user_id ->
        SocketAPI.on_message (user_id, token) msg cls' = (ret None, cls'))
  /\ (forall u token, SocketAPI.users cls !! user_id = Some (inl u) ->
        SocketAPI.on_message (user_id, token) msg cls = (ret None, cls))
  /\ (forall token, SocketAPI.users cls !! user_id = None ->
        SocketAPI.on_message (user_id, token) msg cls = (raise UserNotFound, cls)).
Proof.
  split; [|split].
  - intros Hs Hu Ht cls'.
    subst cls'. rewrite on_connect_accepted by assumption. cbn [snd].
    split.
    + rewrite on_message_run. cbn [SocketAPI.users SocketAPI.set_user].
      now rewrite lookup_insert_eq, String.eqb_refl.
    + intros token Hne. rewrite on_message_run.
      cbn [SocketAPI.users SocketAPI.set_user].
      now rewrite lookup_insert_eq, (eqb_neq_false _ _ Hne).
  - intros u token Hu. now rewrite on_message_run, Hu.
  - intros token Hu. now rewrite on_message_run, Hu.
Qed.

(** ** Request parameters: [get_parameters] and its two helpers *)

(** The argument [a] names a key of [d] whose value [v] its validator
    accepts. *)
Definition accepted (d : gmap string json) (a : Parameters.key_arg) (v : json) : Prop :=
  d !! Parameters.param_of a = Some v /\ Parameters.validator_of a v = true.

Lemma from_dict_loop_accepted (d : gmap string json) (args : list Parameters.key_arg)
    (vals acc : list json) :
  Forall2 (accepted d) args vals ->
  Parameters.from_dict_loop d args acc = ret (acc ++ vals).
Proof.
  intros H. revert acc. induction H as [|a v args vals [Hv Hok] _ IH]; intros acc.
  - cbn. now rewrite app_nil_r.
  - cbn [Parameters.from_dict_loop]. rewrite Hv, Hok. cbn [negb].
    rewrite IH, <- app_assoc. reflexivity.
Qed.

Lemma from_dict_loop_returns (d : gmap string json) (args : list Parameters.key_arg)
    (acc r : list json) :
  Parameters.from_dict_loop d args acc = ret r ->
  exists vals, r = acc ++ vals /\ Forall2 (accepted d) args vals.
Proof.
  revert acc. induction args as [|a args IH]; intros acc Hrun.
  - cbn in Hrun. injection Hrun as <-. exists []. split; [now rewrite app_nil_r|constructor].
  - cbn [Parameters.from_dict_loop] in Hrun.
    destruct (d !! Parameters.param_of a) as [v|] eqn:Hv; [|discriminate Hrun].
    destruct (Parameters.validator_of a v) eqn:Hok; [|discriminate Hrun].
    cbn [negb] in Hrun. destruct (IH _ Hrun) as (vals & -> & Hvals).
    exists (v :: vals). split; [now rewrite <- app_assoc|].
    constructor; [split; assumption | exact Hvals].
Qed.

Lemma from_dict_loop_first_failure (d : gmap string json)
    (good : list Parameters.key_arg) (vals : list json)
    (bad : Parameters.key_arg) (rest : list Parameters.key_arg) (acc : list json) :
  Forall2 (accepted d) good vals ->
  Parameters.from_dict_loop d (good ++ bad :: rest) acc
  = match d !! Parameters.param_of bad with
    | None => raise ParameterError
    | Some v =>
        if negb (Parameters.validator_of bad v) then raise InvalidParameter
        else Parameters.from_dict_loop d rest (acc ++ vals ++ [v])
    end.
Proof.
  intros H. revert acc. induction H as [|a v args vals' [Hv Hok] _ IH]; intros acc.
  - cbn [app Parameters.from_dict_loop]. reflexivity.
  - cbn [app Parameters.from_dict_loop]. rewrite Hv, Hok. cbn [negb].
    rewrite IH. destruct (d !! Parameters.param_of bad); [|reflexivity].
    now rewrite <- !app_assoc.
Qed.

(** X24.  [get_parameters_from_dict] returns exactly when every argument
    names a key of the dictionary whose value its validator accepts, and
    then returns those values in the order of the arguments.  Otherwise
    the first argument that fails decides the error: [ParameterError]
    when its key is missing, [InvalidParameter] when its value is
    refused.  Without validators it is the lookup the HTTP handlers
    use. *)
Theorem get_parameters_from_dict_returns_iff (d : gmap string json) :
  (forall args vals,
     Parameters.get_parameters_from_dict d args = ret vals
     <-> Forall2 (accepted d) args vals)
  /\ (forall good vals bad rest,
        Forall2 (accepted d) good vals ->
        (d !! Parameters.param_of bad = None ->
           Parameters.get_parameters_from_dict d (good ++ bad :: rest)
           = raise ParameterError)
        /\ (forall v, d !! Parameters.param_of bad = Some v ->
              Parameters.validator_of bad v = false ->
              Parameters.get_parameters_from_dict d (good ++ bad :: rest)
              = raise InvalidParameter))
  /\ (forall names,
        Parameters.get_parameters_from_dict d (map Parameters.Key names)
        = get_parameters d names).
Proof.
  unfold Parameters.get_parameters_from_dict. split; [|split].
  - intros args vals. split.
    + intros Hrun. apply from_dict_loop_returns in Hrun.
      destruct Hrun as (vals' & -> & H). exact H.
    + intros H. now rewrite (from_dict_loop_accepted d args vals []).
  - intros good vals bad rest H.
    rewrite (from_dict_loop_first_failure d good vals bad rest [] H).
    split.
    + intros ->. reflexivity.
    + intros v -> ->. reflexivity.
  - intros names.
    assert (H : forall acc,
               Parameters.from_dict_loop d (map Parameters.Key names) acc
               = let! vals := get_parameters d names in ret (acc ++ vals)).
    { induction names as [|n names IH]; intros acc.
      - cbn. now rewrite app_nil_r.
      - cbn [map Parameters.from_dict_loop get_parameters Parameters.param_of
             Parameters.validator_of].
        destruct (d !! n) as [v|]; [|reflexivity].
        cbn [negb]. rewrite IH.
        destruct (get_parameters d names) as [e|vals]; [reflexivity|].
        cbn [rbind ret]. now rewrite <- app_assoc. }
    rewrite H. destruct (get_parameters d names); reflexivity.
Qed.

Lemma from_sequence_loop_length
    (items : list (json * option (json -> bool))) (acc : list json) :
  Forall (fun item => default (fun _ => true) (snd item) (fst item) = true) items ->
  exists vals,
    Parameters.from_sequence_loop items acc = ret vals
    /\ (List.length vals + 1 = 2 ^ List.length items * (List.length acc + 1))%nat.
Proof.
  intros H. revert acc. induction H as [|[v f] items Hok _ IH]; intros acc.
  - exists acc. split; [reflexivity|]. cbn. lia.
  - cbn [Parameters.from_sequence_loop]. cbn [fst snd] in Hok. rewrite Hok.
    cbn [negb]. destruct (IH (acc ++ (acc ++ [v]))) as (vals & Hrun & Hlen).
    exists vals. split; [exact Hrun|].
    rewrite Hlen, !length_app. cbn [List.length]. rewrite Nat.pow_succ_r'.
    generalize (2 ^ List.length items)%nat. intros p. nia.
Qed.

(** X25.  [get_parameters_from_sequence] returns the sequence unchanged
    only when it is given no validators.  Given one validator for every
    value, all of them accepting, it returns [2 ^ n - 1] values for a
    sequence of [n], since every turn of its loop appends the values
    collected so far once more: from two values on, the result is not
    the sequence.  A list of validators of another length raises
    [ParameterError].  Through [get_parameters] the function is never
    reached: a list or a tuple raises [TypeError] there. *)
Theorem get_parameters_from_sequence_repeats (l : list json)
    (validators : list (option (json -> bool))) :
  Parameters.get_parameters_from_sequence l [] = ret l
  /\ (validators <> [] -> List.length l <> List.length validators ->
      Parameters.get_parameters_from_sequence l validators = raise ParameterError)
  /\ (validators <> [] -> List.length l = List.length validators ->
      Forall (fun item => default (fun _ => true) (snd item) (fst item) = true)
        (combine l validators) ->
      exists vals,
        Parameters.get_parameters_from_sequence l validators = ret vals
        /\ (List.length vals = 2 ^ List.length l - 1)%nat
        /\ ((2 <= List.length l)%nat -> vals <> l))
  /\ (forall args,
        Parameters.get_parameters (Parameters.DataList l) args = more (raise TypeError)
        /\ Parameters.get_parameters (Parameters.DataTuple l) args
           = more (raise TypeError)).
Proof.
  split; [reflexivity|]. split; [|split; [|split; reflexivity]].
  - intros Hv Hlen. unfold Parameters.get_parameters_from_sequence.
    destruct validators as [|f validators]; [contradiction|].
    cbn [List.length Nat.eqb] in *.
    destruct (Nat.eqb_spec (List.length l) (S (List.length validators))); [lia|].
    reflexivity.
  - intros Hv Hlen Hok. unfold Parameters.get_parameters_from_sequence.
    destruct validators as [|f validators]; [contradiction|].
    cbn [List.length Nat.eqb]. cbn [List.length] in Hlen.
    rewrite <- Hlen, Nat.eqb_refl. cbn [negb].
    destruct (from_sequence_loop_length _ [] Hok) as (vals & Hrun & Hvals).
    exists vals. split; [exact Hrun|].
    rewrite length_combine in Hvals. cbn [List.length] in Hvals.
    rewrite <- Hlen, Nat.min_id in Hvals.
    split.
    { revert Hvals. generalize (2 ^ List.length l)%nat. intros p Hvals. lia. }
    intros Hn Heq. subst vals.
    assert (Hpow : forall n : nat, (2 <= n -> n + 1 < 2 ^ n)%nat).
    { induction n as [|n IHn]; [lia|]. intros H2.
      destruct (Nat.eq_dec n 1%nat) as [->|Hne]; [cbn; lia|].
      rewrite Nat.pow_succ_r'. specialize (IHn ltac:(lia)).
      revert IHn. generalize (2 ^ n)%nat. intros p IHn. lia. }
    specialize (Hpow _ Hn). revert Hvals Hpow.
    generalize (2 ^ List.length l)%nat. intros p Hvals Hpow. lia.
Qed.

(** Two values, each with a validator that asks for a string. *)
Lemma get_parameters_from_sequence_repeats_witness :
  exists vals,
    Parameters.get_parameters_from_sequence [JStr "ab3f9"; JStr "k0z12"]
      [Some Parameters.is_str; None] = ret vals
    /\ List.length vals = 3%nat.
Proof.
  destruct (get_parameters_from_sequence_repeats [JStr "ab3f9"; JStr "k0z12"]
              [Some Parameters.is_str; None]) as (_ & _ & H & _).
  destruct H as (vals & Hrun & Hlen & _).
  - discriminate.
  - reflexivity.
  - repeat constructor.
  - exists vals. split; [exact Hrun | exact Hlen].
Defined.

(** ** The server builder and the life cycle of the HTTP API *)

(** X26.  [set_server_state] never lowers the state of the server and
    never raises: a state below the current one is not assigned, and the
    method returns a [NotImplementedError] object instead of raising it;
    any other state is assigned.  The endpoints and the user manager are
    not touched. *)
Theorem set_server_state_never_lowers (state : ServerState)
    (self : VideoChatServerBuilder.t) :
  let current := VideoChatServerBuilder.server_state self in
  let r := fst (VideoChatServerBuilder.set_server_state state self) in
  let self' := snd (VideoChatServerBuilder.set_server_state state self) in
  ServerState_.index (VideoChatServerBuilder.server_state self')
  = Nat.max (ServerState_.index state) (ServerState_.index current)
  /\ (r = VideoChatServerBuilder.ReturnedNotImplementedError
      <-> (ServerState_.index state < ServerState_.index current)%nat)
  /\ VideoChatServerBuilder.api_endpoint self' = VideoChatServerBuilder.api_endpoint self
  /\ VideoChatServerBuilder.websocket_endpoint self'
     = VideoChatServerBuilder.websocket_endpoint self
  /\ VideoChatServerBuilder.user_manager self' = VideoChatServerBuilder.user_manager self.
Proof.
  intros current r self'. subst current r self'.
  unfold VideoChatServerBuilder.set_server_state, ServerState_.lt.
  destruct (Nat.ltb_spec (ServerState_.index state)
              (ServerState_.index (VideoChatServerBuilder.server_state self)))
    as [Hlt | Hge]; cbn [fst snd VideoChatServerBuilder.server_state
                         VideoChatServerBuilder.api_endpoint
                         VideoChatServerBuilder.websocket_endpoint
                         VideoChatServerBuilder.user_manager].
  - split; [lia|]. split; [tauto|]. repeat split.
  - split; [lia|]. split; [|repeat split].
    split; [discriminate | lia].
Qed.

(** X27.  A builder builds its server once.  [build] returns the server
    exactly when the server is NEW and the two endpoints and the user
    manager have been set; the server returned is INITIALIZED and
    otherwise as configured, and every further [build] of it raises
    [BaseException], as does a [build] with any of the three missing. *)
Theorem build_succeeds_once (self : VideoChatServerBuilder.t) :
  (forall server,
     VideoChatServerBuilder.build self = inr server
     <-> VideoChatServerBuilder.server_state self = NEW
         /\ is_Some (VideoChatServerBuilder.api_endpoint self)
         /\ is_Some (VideoChatServerBuilder.websocket_endpoint self)
         /\ is_Some (VideoChatServerBuilder.user_manager self)
         /\ server = VideoChatServerBuilder.mk INITIALIZED
                       (VideoChatServerBuilder.api_endpoint self)
                       (VideoChatServerBuilder.websocket_endpoint self)
                       (VideoChatServerBuilder.user_manager self))
  /\ (forall server,
        VideoChatServerBuilder.build self = inr server ->
        VideoChatServerBuilder.build server = inl BaseException)
  /\ (forall e, VideoChatServerBuilder.build self = inl e -> e = BaseException).
Proof.
  destruct self as [st api ws um].
  assert (Hrun : forall server,
             VideoChatServerBuilder.build (VideoChatServerBuilder.mk st api ws um)
             = inr server
             <-> st = NEW /\ is_Some api /\ is_Some ws /\ is_Some um
                 /\ server = VideoChatServerBuilder.mk INITIALIZED api ws um).
  { intros server. unfold VideoChatServerBuilder.build.
    cbn [VideoChatServerBuilder.server_state VideoChatServerBuilder.api_endpoint
         VideoChatServerBuilder.websocket_endpoint VideoChatServerBuilder.user_manager].
    destruct (decide (st = NEW)) as [-> | Hst].
    2: { rewrite (bool_decide_eq_false_2 _ Hst). cbn [negb].
         split; [discriminate | tauto]. }
    rewrite bool_decide_eq_true_2 by reflexivity. cbn [negb].
    destruct api as [api|].
    2: { rewrite bool_decide_eq_true_2 by reflexivity.
         split; [discriminate|]. intros (_ & [x Hx] & _). discriminate Hx. }
    rewrite bool_decide_eq_false_2 by discriminate.
    destruct ws as [ws|].
    2: { rewrite bool_decide_eq_true_2 by reflexivity.
         split; [discriminate|]. intros (_ & _ & [x Hx] & _). discriminate Hx. }
    rewrite bool_decide_eq_false_2 by discriminate.
    destruct um as [um|].
    2: { rewrite bool_decide_eq_true_2 by reflexivity.
         split; [discriminate|]. intros (_ & _ & _ & [x Hx] & _). discriminate Hx. }
    rewrite bool_decide_eq_false_2 by discriminate.
    cbn. split.
    - intros H. injection H as <-. eauto 10.
    - intros (_ & _ & _ & _ & ->). reflexivity. }
  split; [exact Hrun|]. split.
  - intros server Hb. apply Hrun in Hb. destruct Hb as (_ & _ & _ & _ & ->).
    reflexivity.
  - intros e Hb. unfold VideoChatServerBuilder.build in Hb.
    repeat match type of Hb with
           | (if ?c then _ else _) = _ => destruct c
           end; congruence.
Qed.

(** X28.  A start of the HTTP API that fails leaves the API marked LIVE.
    [start] sets the state before it creates the server and serves.  When
    [serve_forever] raises (the address is taken, say) the error leaves
    [start] with the state LIVE and the server stored: every later
    [start] and [init] is refused with [ServerError] until [kill] has set
    the state back to IDLE.  When the constructor of the server raises on
    a class that never had a server, none is stored: [kill] then raises
    [AttributeError] and leaves the state LIVE, and [start] and [init]
    are refused as well, so nothing takes the class out of LIVE.  On the
    class as the module defines it, [start] and [kill] raise
    [ServerError] and change nothing. *)
Theorem failed_start_leaves_api_live
    (WSGIServer serve_forever : list Endpoint.item -> result unit)
    (c : ServerAPI.cls) (ep : Endpoint.t) (e : exn) :
  ServerAPI.state c = APIState.IDLE ->
  ServerAPI.endpoint c = Some ep ->
  let address := Endpoint.iter (Endpoint.to_object ep) in
  let start := ServerAPI.start WSGIServer serve_forever in
  let live := ServerAPI.Cls APIState.LIVE (Some ep) in
  (WSGIServer address = ret tt -> serve_forever address = raise e ->
     start c = (raise e, live (Some address))
     /\ start (live (Some address)) = (raise ServerError, live (Some address))
     /\ (forall api_endpoint,
           ServerAPI.init api_endpoint (live (Some address))
           = (raise ServerError, live (Some address)))
     /\ ServerAPI.kill (live (Some address))
        = (ret tt, ServerAPI.Cls APIState.IDLE (Some ep) (Some address)))
  /\ (WSGIServer address = raise e ->
      start c = (raise e, live (ServerAPI.http_server c))
      /\ ServerAPI.kill (live None) = (raise AttributeError, live None)
      /\ start (live None) = (raise ServerError, live None)
      /\ (forall api_endpoint,
            ServerAPI.init api_endpoint (live None) = (raise ServerError, live None)))
  /\ start ServerAPI.fresh = (raise ServerError, ServerAPI.fresh)
  /\ ServerAPI.kill ServerAPI.fresh = (raise ServerError, ServerAPI.fresh).
Proof.
  destruct c as [st oep server].
  cbn [ServerAPI.state ServerAPI.endpoint ServerAPI.http_server].
  intros -> ->. cbv zeta.
  split; [|split; [|split; reflexivity]].
  - intros Hnew Hserve.
    unfold ServerAPI.start, ServerAPI.init, ServerAPI.kill,
      st_bind, st_get, st_put, st_raise, st_lift.
    cbn in Hnew, Hserve |- *. rewrite Hnew. cbn. rewrite Hserve.
    repeat split.
  - intros Hnew.
    unfold ServerAPI.start, ServerAPI.init, ServerAPI.kill,
      st_bind, st_get, st_put, st_raise, st_lift.
    cbn in Hnew |- *. rewrite Hnew. repeat split.
Qed.

(** A server that is created and whose address is taken when it serves. *)
Definition server_created (address : list Endpoint.item) : result unit := ret tt.
Definition address_in_use (address : list Endpoint.item) : result unit :=
  raise ConnectionError.

Lemma failed_start_leaves_api_live_witness :
  ServerAPI.start server_created address_in_use
    (ServerAPI.Cls APIState.IDLE (Some endpoint_a) None)
  = (raise ConnectionError,
     ServerAPI.Cls APIState.LIVE (Some endpoint_a)
       (Some (Endpoint.iter (Endpoint.to_object endpoint_a))))
  /\ ServerAPI.kill (ServerAPI.Cls APIState.LIVE (Some endpoint_a) None)
     = (raise AttributeError, ServerAPI.Cls APIState.LIVE (Some endpoint_a) None).
Proof.
  destruct (failed_start_leaves_api_live server_created address_in_use
              (ServerAPI.Cls APIState.IDLE (Some endpoint_a) None) endpoint_a
              ConnectionError eq_refl eq_refl) as (Hserve & _ & _).
  destruct (failed_start_leaves_api_live address_in_use address_in_use
              (ServerAPI.Cls APIState.IDLE (Some endpoint_a) None) endpoint_a
              ConnectionError eq_refl eq_refl) as (_ & Hnew & _).
  split.
  - apply Hserve; reflexivity.
  - apply Hnew. reflexivity.
Defined.

(** ** Endpoints: [utils.py] *)

(** The host an endpoint yields: ['localhost'] for an empty one. *)
Definition or_localhost (ip : string) : string :=
  if String.eqb ip "" then "localhost"%string else ip.

Lemma substring_all (s : string) : String.substring 0 (String.length s) s = s.
Proof. induction s as [|c s IH]; [reflexivity|]. cbn. now rewrite IH. Qed.

(** A route of more than a slash keeps something when its leading slash
    is taken off. *)
Lemma strip_slash_nonempty (route : string) :
  route <> ""%string -> route <> "/"%string ->
  Endpoint.strip_slash route <> ""%string.
Proof.
  intros Hne Hslash. unfold Endpoint.strip_slash.
  destruct route as [|c rest]; [contradiction|].
  destruct (String.prefix "/" (String c rest)) eqn:Hp; [|discriminate].
  cbn [String.prefix] in Hp.
  destruct (Ascii.ascii_dec "/" c) as [<-|]; [|discriminate Hp].
  replace (String.length (String "/" rest) - 1)%nat with (String.length rest)
    by (cbn [String.length]; lia).
  cbn [String.substring]. rewrite substring_all.
  intros ->. now apply Hslash.
Qed.

(** X29.  Calling an endpoint with a route gives a copy with that route
    in place of the old one, the host and the port kept, provided the
    port is not zero; the string of the copy is the URL
    [http://host:port/route].  An endpoint whose port is zero does not
    yield its port when it is copied: without a route of its own the call
    raises [TypeError], and with one the old route ends up as the port of
    the copy. *)
Theorem endpoint_call_outcome (e : Endpoint.t) (route : string) :
  route <> ""%string ->
  let host :=
    Endpoint.strip_scheme
      (or_localhost (Endpoint.strip_scheme (or_localhost (Endpoint.ip e)))) in
  let called := Endpoint.call (Endpoint.to_object e) (Some route) in
  (Endpoint.port e <> 0 ->
     called = ret (Endpoint.Object host (Endpoint.Number (Endpoint.port e))
                     (Endpoint.norm_route (Some route)))
     /\ (route <> "/"%string ->
         Endpoint.to_string
           (Endpoint.Object host (Endpoint.Number (Endpoint.port e))
              (Endpoint.norm_route (Some route)))
         = "http://" +:+ or_localhost host +:+ ":" +:+ pretty (Endpoint.port e)
           +:+ "/" +:+ Endpoint.strip_slash route))
  /\ (Endpoint.port e = 0 ->
      (Endpoint.route e = None \/ Endpoint.route e = Some ""%string ->
         called = raise TypeError)
      /\ (forall old, Endpoint.route e = Some old -> old <> ""%string ->
            called = ret (Endpoint.Object host (Endpoint.Text old)
                            (Endpoint.norm_route (Some route))))).
Proof.
  intros Hroute host called. subst host called.
  destruct e as [ip port old]. unfold Endpoint.call, Endpoint.to_object.
  cbn [Endpoint.ip Endpoint.port Endpoint.route].
  rewrite (eqb_neq_false _ _ Hroute).
  unfold Endpoint.iter.
  cbn [Endpoint.o_ip Endpoint.o_port Endpoint.o_route Endpoint.truthy].
  fold (or_localhost ip).
  split.
  - intros Hport.
    destruct (Z.eqb_spec port 0) as [|_]; [contradiction|]. cbn [negb app].
    split.
    + destruct old as [old|]; [destruct (String.eqb old "")|];
        cbn [app Endpoint.unpack rbind ret Endpoint.o_ip Endpoint.o_port
             Endpoint.o_route Endpoint.truthy];
        fold (or_localhost (Endpoint.strip_scheme (or_localhost ip)));
        destruct (Z.eqb_spec port 0) as [|_]; try contradiction;
        cbn [negb app]; rewrite (eqb_neq_false _ _ Hroute); reflexivity.
    + intros Hslash. unfold Endpoint.to_string, Endpoint.norm_route.
      cbn [Endpoint.o_ip Endpoint.o_port Endpoint.o_route Endpoint.truthy].
      rewrite (eqb_neq_false _ _ Hroute), (eqb_neq_false _ _ Hslash).
      cbn [orb].
      rewrite (eqb_neq_false _ _ (strip_slash_nonempty route Hroute Hslash)).
      destruct (Z.eqb_spec port 0) as [|_]; [contradiction|]. cbn [negb].
      unfold or_localhost. reflexivity.
  - intros ->. cbn [Z.eqb negb app]. split.
    + intros [-> | ->]; reflexivity.
    + intros old' -> Hold. rewrite (eqb_neq_false _ _ Hold).
      cbn [app Endpoint.unpack rbind ret Endpoint.o_ip Endpoint.o_port
           Endpoint.o_route Endpoint.truthy].
      fold (or_localhost (Endpoint.strip_scheme (or_localhost ip))).
      rewrite (eqb_neq_false _ _ Hold), (eqb_neq_false _ _ Hroute).
      reflexivity.
Qed.

(** The URL the broker posts to for the first user of the examples. *)
Lemma endpoint_call_outcome_witness :
  Endpoint.call (Endpoint.to_object endpoint_a) (Some "/peer_connection"%string)
  = ret (Endpoint.Object "10.0.0.1" (Endpoint.Number 5001)
           (Some "peer_connection"%string))
  /\ Endpoint.to_string
       (Endpoint.Object "10.0.0.1" (Endpoint.Number 5001)
          (Some "peer_connection"%string))
     = "http://10.0.0.1:5001/peer_connection"%string.
Proof.
  split.
  - apply (endpoint_call_outcome endpoint_a "/peer_connection"); discriminate.
  - vm_compute. reflexivity.
Defined.

(** ** The framing of media messages *)

Lemma from_bytes_big_to_bytes_4 (x : Z) :
  0 <= x < 2 ^ 32 -> from_bytes_big (to_bytes_big 4 x) = x.
Proof.
  intros Hx. unfold from_bytes_big. cbn [to_bytes_big fold_left].
  rewrite !Z.shiftr_div_pow2 by lia.
  change (8 * Z.of_nat 3) with 24. change (8 * Z.of_nat 2) with 16.
  change (8 * Z.of_nat 1) with 8. change (8 * Z.of_nat 0) with 0.
  change (2 ^ 24) with (256 * 256 * 256). change (2 ^ 16) with (256 * 256).
  change (2 ^ 8) with 256. change (2 ^ 0) with 1.
  rewrite Z.div_1_r, <- !Z.div_div by lia.
  pose proof (Z.div_mod x 256 ltac:(lia)) as H0.
  pose proof (Z.mod_pos_bound x 256 ltac:(lia)) as B0.
  set (q1 := x / 256) in *.
  pose proof (Z.div_mod q1 256 ltac:(lia)) as H1.
  pose proof (Z.mod_pos_bound q1 256 ltac:(lia)) as B1.
  set (q2 := q1 / 256) in *.
  pose proof (Z.div_mod q2 256 ltac:(lia)) as H2.
  pose proof (Z.mod_pos_bound q2 256 ltac:(lia)) as B2.
  set (q3 := q2 / 256) in *.
  change (2 ^ 32) with 4294967296 in Hx.
  rewrite (Z.mod_small q3 256) by lia.
  lia.
Qed.

Lemma to_bytes_big_length (n : nat) (x : Z) : List.length (to_bytes_big n x) = n.
Proof. induction n as [|n IH]; [reflexivity|]. cbn [to_bytes_big List.length]. now rewrite IH. Qed.

(** X30.  A video message is the current key index on four bytes, most
    significant first, followed by the encrypted frame.  When the codec
    decrypts what it encrypts, a receiver other than the sender whose
    current key index is the sender's reads the index back, decrypts the
    frame and hands it to the decoder; a receiver with another current
    index drops the message, whatever its key.  A key index below zero
    or from [2 ^ 32] on cannot be framed: [to_bytes] raises
    [OverflowError] and nothing is sent. *)
Theorem video_message_roundtrip
    (encrypt decrypt : bytes -> bytes -> result bytes)
    (decode : bytes -> result bytes)
    (idx : Z) (key data c : bytes) :
  encrypt data key = ret c ->
  (0 <= idx < 2 ^ 32 ->
     exists msg,
       VideoClientNamespace.send_video_message encrypt (idx, key) data = inr msg
       /\ List.length msg = (4 + List.length c)%nat
       /\ (forall sender receiver, sender <> receiver ->
             decrypt c key = ret data ->
             VideoClientNamespace.on_message decrypt decode receiver (idx, key)
               sender msg
             = let! frame := decode data in ret (Some frame))
       /\ (forall sender receiver cur key', cur <> idx ->
             VideoClientNamespace.on_message decrypt decode receiver (cur, key')
               sender msg
             = ret None))
  /\ (idx < 0 \/ 2 ^ 32 <= idx ->
      VideoClientNamespace.send_video_message encrypt (idx, key) data
      = raise_more OverflowError).
Proof.
  intros Henc. unfold VideoClientNamespace.send_video_message.
  rewrite Henc. cbn [more ret]. unfold VideoClientNamespace.to_bytes_4.
  split.
  - intros Hidx.
    destruct (Z.ltb_spec idx 0) as [|_]; [lia|].
    destruct (Z.leb_spec (2 ^ 32) idx) as [|_]; [lia|]. cbn [orb].
    exists (to_bytes_big 4 idx ++ c).
    assert (Hhead : firstn 4 (to_bytes_big 4 idx ++ c) = to_bytes_big 4 idx).
    { rewrite firstn_app, to_bytes_big_length, Nat.sub_diag, firstn_all2
        by (rewrite to_bytes_big_length; lia).
      cbn [firstn]. now rewrite app_nil_r. }
    assert (Htail : skipn 4 (to_bytes_big 4 idx ++ c) = c).
    { rewrite skipn_app, to_bytes_big_length, Nat.sub_diag, skipn_all2
        by (rewrite to_bytes_big_length; lia).
      reflexivity. }
    split; [reflexivity|]. split; [|split].
    + rewrite length_app, to_bytes_big_length. reflexivity.
    + intros sender receiver Hne Hdec.
      unfold VideoClientNamespace.on_message.
      rewrite (eqb_neq_false _ _ Hne), Hhead, Htail,
        (from_bytes_big_to_bytes_4 idx Hidx), Z.eqb_refl.
      cbn [negb]. rewrite Hdec. reflexivity.
    + intros sender receiver cur key' Hcur.
      unfold VideoClientNamespace.on_message.
      destruct (String.eqb sender receiver); [reflexivity|].
      rewrite Hhead, (from_bytes_big_to_bytes_4 idx Hidx).
      destruct (Z.eqb_spec idx cur) as [|_]; [congruence|]. reflexivity.
  - intros Hidx.
    destruct (Z.ltb_spec idx 0) as [|Hge]; [reflexivity|].
    destruct (Z.leb_spec (2 ^ 32) idx) as [|]; [reflexivity|lia].
Qed.

(** The Debug codec on [bytes]: encryption returns the data. *)
Definition debug_encrypt_video (data key : bytes) : result bytes := ret data.

Lemma video_message_roundtrip_witness :
  exists msg,
    VideoClientNamespace.send_video_message debug_encrypt_video
      (2, repeat 0x55 16) [1; 2; 3] = inr msg
    /\ VideoClientNamespace.on_message debug_decrypt_video ret "ab3f9"
         (2, repeat 0x55 16) "k0z12" msg
       = ret (Some [1; 2; 3]).
Proof.
  destruct (video_message_roundtrip debug_encrypt_video debug_decrypt_video ret
              2 (repeat 0x55 16) [1; 2; 3] [1; 2; 3] eq_refl)
    as [Hsend _].
  destruct Hsend as (msg & Hmsg & _ & Hrecv & _); [lia|].
  exists msg. split; [exact Hmsg|].
  apply (Hrecv "k0z12"%string "ab3f9"%string); [discriminate | reflexivity].
Defined.
